(** * Splyt backend: wallet authentication and the split lifecycle

    A shallow embedding of the service layer of the Splyt backend
    ([src/services/auth/auth.service.ts], [src/services/split/split.service.ts])
    and of the two Mongoose models it drives (the user model and the split
    model), followed by the properties the specification states about them.

    Conventions of the embedding:
    - a JavaScript [string] is a [string] of 8-bit characters; [toLowerCase]
      acts on the ASCII letters.  No character outside ASCII lower-cases to a
      hexadecimal digit, to ['0'] or to ['x'], so every regular expression
      test below gives the answer it gives on the UTF-16 original;
    - a JavaScript [number] that carries an amount is a binary64 [float]
      (Rocq's primitive floats are IEEE 754 binary64, as JavaScript's are);
    - a [number] that carries a split identifier is an integer-valued
      binary64, given by the integer it denotes, a [Z]; where the source
      computes on it ([+ 1], [++], [Number] of a [bigint]) the result is
      rounded as binary64 rounds it ([toNumber]), so beyond 2^53 adding 1
      need not change a number; a block number, a counter or a time stamp
      is a [Z];
    - a thrown [Error] is a constructor of [Error], one per [throw] site;
    - a collection is the list of its documents in insertion order; the
      clock ([new Date()]) is an explicit argument [now], in milliseconds,
      and the time zone of the server an explicit argument [zone];
    - the blockchain client, the signature recovery, the token signer, the
      name generator and the identifier of a new user are collaborators,
      taken as variables;
    - the store itself does not fail: a write is refused by a validator of
      the schema or by a unique index.  [save] on a document in memory
      (module [SplitDocument]) runs the validators and the [pre('save')]
      hooks before it writes.

    The second part of the definitions adds the derived fields and the
    remaining queries of the split model, its instance methods on a
    document in memory, and the authentication middleware
    ([src/middleware/auth.middleware.ts]). *)

From Stdlib Require Import ZArith List String Ascii Bool Lia Floats.
From Stdlib Require Import Sorting.Sorted Sorting.Permutation.
Import ListNotations.

Local Open Scope Z_scope.

(* ================================================================== *)
(** ** Strings and the regular expressions of the source *)

(** [String.prototype.toLowerCase], one character. *)
Definition lowerChar (c : ascii) : ascii :=
  let n := nat_of_ascii c in
  if ((65 <=? n) && (n <=? 90))%nat then ascii_of_nat (n + 32) else c.

Fixpoint toLowerCase (s : string) : string :=
  match s with
  | EmptyString => EmptyString
  | String c rest => String (lowerChar c) (toLowerCase rest)
  end.

(** [String.prototype.toUpperCase], used by the [uppercase: true] setter. *)
Definition upperChar (c : ascii) : ascii :=
  let n := nat_of_ascii c in
  if ((97 <=? n) && (n <=? 122))%nat then ascii_of_nat (n - 32) else c.

Fixpoint toUpperCase (s : string) : string :=
  match s with
  | EmptyString => EmptyString
  | String c rest => String (upperChar c) (toUpperCase rest)
  end.

(** The character class [[a-fA-F0-9]]. *)
Definition isHexChar (c : ascii) : bool :=
  let n := nat_of_ascii c in
  (((48 <=? n) && (n <=? 57)) || ((65 <=? n) && (n <=? 70))
   || ((97 <=? n) && (n <=? 102)))%nat.

(** The character class [[0-9a-f]]. *)
Definition isLowerHexChar (c : ascii) : bool :=
  let n := nat_of_ascii c in
  (((48 <=? n) && (n <=? 57)) || ((97 <=? n) && (n <=? 102)))%nat.

Fixpoint allChars (p : ascii -> bool) (s : string) : bool :=
  match s with
  | EmptyString => true
  | String c rest => p c && allChars p rest
  end.

(** [/^0x<class>{n}$/.test(s)].  Without the [m] flag [$] matches at the
    end of the input only, so the test fixes the length to [n + 2]. *)
Definition test_0x (class : ascii -> bool) (n : nat) (s : string) : bool :=
  match s with
  | String "0" (String "x" digits) =>
      (String.length digits =? n)%nat && allChars class digits
  | _ => false
  end.

(** [/^0x[a-fA-F0-9]{40}$/], the wallet and contract address format. *)
Definition isAddress (s : string) : bool := test_0x isHexChar 40 s.

(** [/^0x[a-fA-F0-9]{130}$/], the signature format. *)
Definition isSignature (s : string) : bool := test_0x isHexChar 130 s.

(** [/^0x[a-fA-F0-9]{64}$/], the transaction hash format. *)
Definition isTxHash (s : string) : bool := test_0x isHexChar 64 s.

(** [/^0x[0-9a-f]{40}$/], the normal form of an address. *)
Definition isNormalizedAddress (s : string) : bool := test_0x isLowerHexChar 40 s.

(** Address normalization, [walletAddress.toLowerCase()]. *)
Definition normalize (a : string) : string := toLowerCase a.

(** The white space [String.prototype.trim] strips, among the characters
    below 256: U+0009 to U+000D, the space and the no-break space U+00A0. *)
Definition isSpace (c : ascii) : bool :=
  let n := nat_of_ascii c in
  ((n =? 32) || ((9 <=? n) && (n <=? 13)) || (n =? 160))%nat.

Fixpoint trimStart (s : string) : string :=
  match s with
  | EmptyString => EmptyString
  | String c rest => if isSpace c then trimStart rest else s
  end.

Fixpoint rev_string (acc s : string) : string :=
  match s with
  | EmptyString => acc
  | String c rest => rev_string (String c acc) rest
  end.

Definition trim (s : string) : string :=
  rev_string EmptyString (trimStart (rev_string EmptyString (trimStart s))).

(** Truthiness of a string: [!s] holds of the empty string. *)
Definition truthy (s : string) : bool :=
  match s with EmptyString => false | _ => true end.

(* ================================================================== *)
(** ** Numbers *)

(** An amount: a JavaScript [number]. *)
Definition number := float.

(** The literal [0.01]: the binary64 value nearest to 1/100.  It is the
    tolerance of the amount check and the least [totalAmount] of the schema. *)
Definition hundredth : number := 0x1.47ae147ae147bp-7%float.

(** [Math.abs(a - b) > 0.01] *)
Definition differs (a b : number) : bool :=
  (hundredth <? abs (a - b))%float.

(** [participants.reduce((sum, p) => sum + p.amountDue, 0)] on the list of
    amounts: a left fold from [0]. *)
Definition sumAmounts (amounts : list number) : number :=
  fold_left (fun sum a => (sum + a)%float) amounts 0%float.

(** The magnitude of the binary64 number nearest to the magnitude [a]
    (round to nearest, ties to even).  Up to 2^53 every integer is a
    binary64 number; beyond, the numbers are the multiples of the unit in
    the last place, [2 ^ (log2 a - 52)], with 53 significant bits. *)
Definition nearest (a : Z) : Z :=
  if a <=? 2 ^ 53 then a
  else
    let ulp := 2 ^ (Z.log2 a - 52) in
    let q := a / ulp in
    let r := a mod ulp in
    let up := (ulp <? 2 * r) || ((2 * r =? ulp) && Z.odd q) in
    (if up then q + 1 else q) * ulp.

(** The integer-valued [number] an exact integer result is rounded to:
    [Number(z)] for a [bigint] [z], and the result of an addition of
    integer-valued numbers whose exact sum is [z].  (Below 2^1024, where
    binary64 is finite; the identifier of a contract is a [uint256].) *)
Definition toNumber (z : Z) : Z := Z.sgn z * nearest (Z.abs z).

(** [x + 1] and [x++] on an integer-valued [number]. *)
Definition increment (x : Z) : Z := toNumber (x + 1).

(* ================================================================== *)
(** ** Dates *)

(** The time zone of the server: [LocalTZA(t, isUTC)] of ECMAScript, the
    offset of local time from UTC in milliseconds, at the UTC time [t]
    when [isUTC] holds and at the local time [t] otherwise. *)
Definition TimeZone : Type := Z -> bool -> Z.

Definition msPerDay : Z := 86400000.

(** [LocalTime(t)] and [UTC(t)] of ECMAScript. *)
Definition LocalTime (zone : TimeZone) (t : Z) : Z := t + zone t true.
Definition UTC (zone : TimeZone) (t : Z) : Z := t - zone t false.

(** [TimeClip]: a time value beyond 8.64e15 ms makes an invalid [Date]. *)
Definition TimeClip (t : Z) : option Z :=
  if Z.abs t <=? 8640000000000000 then Some t else None.

(** [const expiryDate = new Date(); expiryDate.setDate(expiryDate.getDate()
    + 30)]: the day of the month moves on by 30 in local time, the time of
    day in local time is kept.  [None] is an invalid [Date]. *)
Definition thirtyDaysOn (zone : TimeZone) (now : Z) : option Z :=
  TimeClip (UTC zone (LocalTime zone now + 30 * msPerDay)).

(* ================================================================== *)
(** ** Errors and results *)

(** The errors of the service layer, one constructor per [throw] site, and
    the two ways in which the document store refuses a write. *)
Inductive Error : Type :=
| MissingCredentials            (* "Wallet address and signature are required" *)
| InvalidWalletAddress          (* "Invalid wallet address format" *)
| InvalidSignatureFormat        (* "Invalid signature format" *)
| SignatureMismatch             (* "Invalid signature: Signature does not match the wallet address" *)
| InvalidCreatorAddress         (* "Invalid creator wallet address format" *)
| NoParticipants                (* "At least one participant is required" *)
| TooManyParticipants           (* "Maximum 50 participants allowed" *)
| AmountMismatch (total calculated : number)
                                (* "Total amount (..) doesn't match sum of participant amounts (..)" *)
| InvalidParticipantAddress (address : string)
                                (* "Invalid participant wallet address: .." *)
| SplitIdExhausted              (* "Unable to generate unique split ID" *)
| DeployFailed (message : string)
                                (* "Failed to deploy split contract: .." *)
| DuplicateTxHash (txHash : string)
                                (* "Transaction hash .. already exists in database" *)
| ValidationFailed (path : string)
                                (* Mongoose ValidationError on [path] *)
| DuplicateKey (path : string)  (* unique index violation on [path] *)
| LoopBudget.                   (* the probe loop outran its budget; never raised *)

Inductive Result (A : Type) : Type :=
| Ok (value : A)
| Err (error : Error).
Arguments Ok {A} value.
Arguments Err {A} error.

(** Computations over a state [S] that may throw.  The state reached at the
    [throw] is kept, which is what a [catch] block of the source observes. *)
Definition M (S A : Type) : Type := S -> S * Result A.

Definition ret {S A} (a : A) : M S A := fun s => (s, Ok a).

Definition throw {S A} (e : Error) : M S A := fun s => (s, Err e).

Definition bind {S A B} (c : M S A) (k : A -> M S B) : M S B :=
  fun s =>
    match c s with
    | (s', Ok a) => k a s'
    | (s', Err e) => (s', Err e)
    end.

Definition get {S} : M S S := fun s => (s, Ok s).

Definition modify {S} (f : S -> S) : M S unit := fun s => (f s, Ok tt).

(** [if (cond) throw e] *)
Definition throwIf {S} (cond : bool) (e : Error) : M S unit :=
  if cond then throw e else ret tt.

Declare Scope js_scope.
Delimit Scope js_scope with js.
Notation "x <- c ;; k" := (bind c (fun x => k))
  (at level 61, c at next level, right associativity) : js_scope.
Notation "c ;;; k" := (bind c (fun _ => k))
  (at level 61, right associativity) : js_scope.

(* ================================================================== *)
(** ** Documents *)

Inductive SplitStatus : Type := pending | active | completed | cancelled.

Definition statusName (st : SplitStatus) : string :=
  match st with
  | pending => "pending"
  | active => "active"
  | completed => "completed"
  | cancelled => "cancelled"
  end.

Definition status_eqb (a b : SplitStatus) : bool :=
  match a, b with
  | pending, pending | active, active
  | completed, completed | cancelled, cancelled => true
  | _, _ => false
  end.

(** [IParticipant] *)
Record IParticipant : Type := {
  p_walletAddress : string;
  p_name : option string;
  p_amountDue : number;
  p_hasPaid : bool;
  p_paidAt : option Z;
  p_paymentTxHash : option string;
  p_reminderCount : Z;
  p_lastRemindedAt : option Z
}.

(** [ISplit], the stored fields. *)
Record ISplit : Type := {
  s_splitId : Z;
  s_contractAddress : string;
  s_txHash : string;
  s_blockNumber : Z;
  s_isConfirmed : bool;
  s_creatorAddress : string;
  s_description : string;
  s_totalAmount : number;
  s_currency : string;
  s_status : SplitStatus;
  s_isCompleted : bool;
  s_isCancelled : bool;
  s_participants : list IParticipant;
  s_category : option string;
  s_note : option string;
  s_imageUrl : option string;
  s_createdAt : Z;
  s_completedAt : option Z;
  s_cancelledAt : option Z;
  s_expiresAt : option Z;
  s_updatedAt : Z
}.

(** [IUser] *)
Record IUser : Type := {
  u_id : string;
  u_walletAddress : string;
  u_displayName : string;
  u_totalSplitsCreated : Z;
  u_totalSplitsJoined : Z;
  u_totalAmountSplit : number;
  u_createdAt : Z;
  u_lastActiveAt : Z;
  u_updatedAt : Z
}.

(** The two collections the service layer touches. *)
Record World : Type := {
  splits : list ISplit;
  users : list IUser
}.

Definition withSplits (w : World) (l : list ISplit) : World :=
  {| splits := l; users := users w |}.

Definition withUsers (w : World) (l : list IUser) : World :=
  {| splits := splits w; users := l |}.

(** Query options of the listing calls.  A missing option, the number [0]
    and the empty string are all falsy, and the source tests truthiness. *)
Record QueryOptions : Type := {
  o_status : option string;
  o_limit : option nat;
  o_skip : option nat
}.

Definition noOptions : QueryOptions :=
  {| o_status := None; o_limit := None; o_skip := None |}.

(** [options?.limit] and [options?.skip] when truthy. *)
Definition given (n : option nat) : option nat :=
  match n with
  | Some (S k) => Some (S k)
  | _ => None
  end.

(** [options?.status] when truthy. *)
Definition givenStatus (st : option string) : option string :=
  match st with
  | Some name => if truthy name then Some name else None
  | None => None
  end.

(* ================================================================== *)
(** ** The split model: queries *)

Definition isSome {A} (o : option A) : bool :=
  match o with Some _ => true | None => false end.

(** [Split.findBySplitId(splitId)]: [findOne({ splitId })]. *)
Definition findBySplitId (w : World) (splitId : Z) : option ISplit :=
  find (fun s => s_splitId s =? splitId) (splits w).

(** [Split.findByTxHash(txHash)]: [findOne({ txHash: txHash.toLowerCase() })]. *)
Definition findByTxHash (w : World) (txHash : string) : option ISplit :=
  find (fun s => String.eqb (s_txHash s) (toLowerCase txHash)) (splits w).

(** [Split.findOne().sort({ splitId: -1 })]: the document of greatest
    [splitId]. *)
Fixpoint maxBySplitId (l : list ISplit) : option ISplit :=
  match l with
  | [] => None
  | s :: rest =>
      match maxBySplitId rest with
      | Some m => if s_splitId s <? s_splitId m then Some m else Some s
      | None => Some s
      end
  end.

Definition findMaxSplit (w : World) : option ISplit := maxBySplitId (splits w).

(** Sorting by [createdAt], newest first; documents of equal time keep
    their order.  It stands both for [.sort({ createdAt: -1 })] of the store
    and for [Array.prototype.sort] with the comparator [dateB - dateA]. *)
Fixpoint insertNewestFirst (s : ISplit) (l : list ISplit) : list ISplit :=
  match l with
  | [] => [s]
  | x :: rest =>
      if s_createdAt x <=? s_createdAt s then s :: x :: rest
      else x :: insertNewestFirst s rest
  end.

Definition sortNewestFirst (l : list ISplit) : list ISplit :=
  fold_right insertNewestFirst [] l.

(** [query.status = options.status] when the option is truthy. *)
Definition statusMatches (opts : QueryOptions) (s : ISplit) : bool :=
  match givenStatus (o_status opts) with
  | Some name => String.eqb (statusName (s_status s)) name
  | None => true
  end.

(** [queryBuilder.limit(..).skip(..)]: the store skips first and limits
    afterwards, in whichever order the two were set on the query. *)
Definition cursor (opts : QueryOptions) (l : list ISplit) : list ISplit :=
  let skipped :=
    match given (o_skip opts) with Some n => skipn n l | None => l end in
  match given (o_limit opts) with Some n => firstn n skipped | None => skipped end.

(** [Split.findByCreator(creatorAddress, options)] *)
Definition findByCreator (w : World) (creatorAddress : string)
    (opts : QueryOptions) : list ISplit :=
  cursor opts
    (sortNewestFirst
       (filter (fun s => String.eqb (s_creatorAddress s) (toLowerCase creatorAddress)
                         && statusMatches opts s)
               (splits w))).

(** [Split.findByParticipant(walletAddress, options)] *)
Definition findByParticipant (w : World) (walletAddress : string)
    (opts : QueryOptions) : list ISplit :=
  cursor opts
    (sortNewestFirst
       (filter (fun s => existsb (fun p => String.eqb (p_walletAddress p)
                                                      (toLowerCase walletAddress))
                                 (s_participants s)
                         && statusMatches opts s)
               (splits w))).

(* ================================================================== *)
(** ** The split model: schema, creation and instance methods *)

Definition optionAll {A} (p : A -> bool) (o : option A) : bool :=
  match o with Some a => p a | None => true end.

Definition inList (names : list string) (s : string) : bool :=
  existsb (String.eqb s) names.

(** What follows the prefix [p] in [s]. *)
Fixpoint afterPrefix (p s : string) : option string :=
  match p, s with
  | EmptyString, _ => Some s
  | String a p', String b s' => if Ascii.eqb a b then afterPrefix p' s' else None
  | String _ _, EmptyString => None
  end.

(** [/^https?:\/\/.+/]: the scheme, then a character that does not end a
    line. *)
Definition isHttpUrl (s : string) : bool :=
  let followed (p : string) :=
    match afterPrefix p s with
    | Some (String c _) =>
        negb ((nat_of_ascii c =? 10) || (nat_of_ascii c =? 13))%nat
    | _ => false
    end in
  followed "http://"%string || followed "https://"%string.

(** The setters of [ParticipantSchema]: [trim] and [lowercase]. *)
Definition castParticipant (p : IParticipant) : IParticipant :=
  {| p_walletAddress := toLowerCase (trim (p_walletAddress p));
     p_name := option_map trim (p_name p);
     p_amountDue := p_amountDue p;
     p_hasPaid := p_hasPaid p;
     p_paidAt := p_paidAt p;
     p_paymentTxHash := option_map trim (p_paymentTxHash p);
     p_reminderCount := p_reminderCount p;
     p_lastRemindedAt := p_lastRemindedAt p |}.

(** The setters of [SplitSchema], the time stamps of a new document, and
    the effect of the [pre('save')] hooks on it: lower-cased addresses and
    hashes, and an expiry thirty days ahead when none is given (an invalid
    [Date] is no value of the path, which then stays unset). *)
Definition castSplit (zone : TimeZone) (now : Z) (d : ISplit) : ISplit :=
  {| s_splitId := s_splitId d;
     s_contractAddress := toLowerCase (trim (s_contractAddress d));
     s_txHash := toLowerCase (trim (s_txHash d));
     s_blockNumber := s_blockNumber d;
     s_isConfirmed := s_isConfirmed d;
     s_creatorAddress := toLowerCase (trim (s_creatorAddress d));
     s_description := trim (s_description d);
     s_totalAmount := s_totalAmount d;
     s_currency := toUpperCase (trim (s_currency d));
     s_status := s_status d;
     s_isCompleted := s_isCompleted d;
     s_isCancelled := s_isCancelled d;
     s_participants :=
       map (fun p =>
              let q := castParticipant p in
              {| p_walletAddress := p_walletAddress q;
                 p_name := p_name q;
                 p_amountDue := p_amountDue q;
                 p_hasPaid := p_hasPaid q;
                 p_paidAt := p_paidAt q;
                 p_paymentTxHash := option_map toLowerCase (p_paymentTxHash q);
                 p_reminderCount := p_reminderCount q;
                 p_lastRemindedAt := p_lastRemindedAt q |})
           (s_participants d);
     s_category := s_category d;
     s_note := option_map trim (s_note d);
     s_imageUrl := option_map trim (s_imageUrl d);
     s_createdAt := now;
     s_completedAt := s_completedAt d;
     s_cancelledAt := s_cancelledAt d;
     s_expiresAt :=
       match s_expiresAt d with
       | Some t => Some t
       | None => thirtyDaysOn zone now
       end;
     s_updatedAt := now |}.

(** The validators of [ParticipantSchema], on a participant whose setters
    have run; the path that fails first. *)
Definition invalidParticipantPath (p : IParticipant) : option string :=
  if negb (isAddress (p_walletAddress p)) then Some "participants.walletAddress"%string
  else if negb (optionAll (fun n => (String.length n <=? 100)%nat) (p_name p))
  then Some "participants.name"%string
  else if negb (0 <=? p_amountDue p)%float then Some "participants.amountDue"%string
  else if negb (optionAll (fun h => negb (truthy h) || isTxHash h) (p_paymentTxHash p))
  then Some "participants.paymentTxHash"%string
  else if p_reminderCount p <? 0 then Some "participants.reminderCount"%string
  else None.

Fixpoint firstInvalid {A} (check : A -> option string) (l : list A) : option string :=
  match l with
  | [] => None
  | a :: rest =>
      match check a with
      | Some path => Some path
      | None => firstInvalid check rest
      end
  end.

(** The validators of [SplitSchema], on a document whose setters have run;
    the path that fails first ([required] fails on the empty string). *)
Definition invalidSplitPath (d : ISplit) : option string :=
  if s_splitId d <? 0 then Some "splitId"%string
  else if negb (isAddress (s_contractAddress d)) then Some "contractAddress"%string
  else if negb (isTxHash (s_txHash d)) then Some "txHash"%string
  else if s_blockNumber d <? 0 then Some "blockNumber"%string
  else if negb (isAddress (s_creatorAddress d)) then Some "creatorAddress"%string
  else if negb (truthy (s_description d)
                && (String.length (s_description d) <=? 500)%nat)
  then Some "description"%string
  else if negb (hundredth <=? s_totalAmount d)%float then Some "totalAmount"%string
  else if negb (inList ["USDC"; "USDT"; "DAI"; "ETH"]%string (s_currency d))
  then Some "currency"%string
  else if negb ((1 <=? List.length (s_participants d))%nat
                && (List.length (s_participants d) <=? 50)%nat)
  then Some "participants"%string
  else match firstInvalid invalidParticipantPath (s_participants d) with
  | Some path => Some path
  | None =>
  if negb (optionAll (inList ["food"; "travel"; "rent"; "utilities";
                              "entertainment"; "other"]%string) (s_category d))
  then Some "category"%string
  else if negb (optionAll (fun n => (String.length n <=? 1000)%nat) (s_note d))
  then Some "note"%string
  else if negb (optionAll (fun u => negb (truthy u) || isHttpUrl u) (s_imageUrl d))
  then Some "imageUrl"%string
  else None
  end.

(** [Split.create(fields)]: cast, validate, enforce the unique indexes on
    [splitId] and [txHash], insert.  The document store is changed only when
    every step succeeds. *)
Definition Split_create (zone : TimeZone) (now : Z) (fields : ISplit)
  : M World ISplit :=
  fun w =>
    let d := castSplit zone now fields in
    match invalidSplitPath d with
    | Some path => (w, Err (ValidationFailed path))
    | None =>
        if existsb (fun s => s_splitId s =? s_splitId d) (splits w)
        then (w, Err (DuplicateKey "splitId"))
        else if existsb (fun s => String.eqb (s_txHash s) (s_txHash d)) (splits w)
        then (w, Err (DuplicateKey "txHash"))
        else (withSplits w (splits w ++ [d]), Ok d)
    end.

(** The time stamp of a write: [updatedAt] moves on. *)
Definition touchSplit (now : Z) (d : ISplit) : ISplit :=
  {| s_splitId := s_splitId d; s_contractAddress := s_contractAddress d;
     s_txHash := s_txHash d; s_blockNumber := s_blockNumber d;
     s_isConfirmed := s_isConfirmed d; s_creatorAddress := s_creatorAddress d;
     s_description := s_description d; s_totalAmount := s_totalAmount d;
     s_currency := s_currency d; s_status := s_status d;
     s_isCompleted := s_isCompleted d; s_isCancelled := s_isCancelled d;
     s_participants := s_participants d; s_category := s_category d;
     s_note := s_note d; s_imageUrl := s_imageUrl d;
     s_createdAt := s_createdAt d; s_completedAt := s_completedAt d;
     s_cancelledAt := s_cancelledAt d; s_expiresAt := s_expiresAt d;
     s_updatedAt := now |}.

(** The write itself, once the validators and the hooks of [save] have
    run: the document replaces the stored one (a split keeps its [splitId]
    for life). *)
Definition writeBack (d : ISplit) (w : World) : World :=
  withSplits w (map (fun s => if s_splitId s =? s_splitId d then d else s)
                    (splits w)).

(** The assignments of [updateStatus], before its [save]. *)
Definition assignStatus (now : Z) (newStatus : SplitStatus) (d : ISplit) : ISplit :=
  {| s_splitId := s_splitId d; s_contractAddress := s_contractAddress d;
     s_txHash := s_txHash d; s_blockNumber := s_blockNumber d;
     s_isConfirmed := s_isConfirmed d; s_creatorAddress := s_creatorAddress d;
     s_description := s_description d; s_totalAmount := s_totalAmount d;
     s_currency := s_currency d;
     s_status := newStatus;
     s_isCompleted := status_eqb newStatus completed;
     s_isCancelled := status_eqb newStatus cancelled;
     s_participants := s_participants d; s_category := s_category d;
     s_note := s_note d; s_imageUrl := s_imageUrl d;
     s_createdAt := s_createdAt d;
     s_completedAt :=
       if status_eqb newStatus completed && negb (isSome (s_completedAt d))
       then Some now else s_completedAt d;
     s_cancelledAt :=
       if status_eqb newStatus cancelled && negb (isSome (s_cancelledAt d))
       then Some now else s_cancelledAt d;
     s_expiresAt := s_expiresAt d;
     s_updatedAt := s_updatedAt d |}.

(** The paths [updateStatus] assigns hold other values in [d'] than in
    [d]: an assignment of the value a path has does not mark it modified. *)
Definition sameDate (a b : option Z) : bool :=
  match a, b with
  | Some x, Some y => x =? y
  | None, None => true
  | _, _ => false
  end.

Definition statusPathsDiffer (d d' : ISplit) : bool :=
  negb (status_eqb (s_status d) (s_status d'))
  || negb (Bool.eqb (s_isCompleted d) (s_isCompleted d'))
  || negb (Bool.eqb (s_isCancelled d) (s_isCancelled d'))
  || negb (sameDate (s_completedAt d) (s_completedAt d'))
  || negb (sameDate (s_cancelledAt d) (s_cancelledAt d')).

(* ================================================================== *)
(** ** The user model *)

(** [usersModel.findByWallet(walletAddress)] *)
Definition findByWallet (w : World) (walletAddress : string) : option IUser :=
  find (fun u => String.eqb (u_walletAddress u) (toLowerCase walletAddress))
       (users w).

(** The validators of [UserSchema] on the fields the service writes. *)
Definition invalidUserPath (u : IUser) : option string :=
  if negb (isAddress (u_walletAddress u)) then Some "walletAddress"%string
  else if negb (truthy (u_displayName u)
                && (String.length (u_displayName u) <=? 100)%nat)
  then Some "displayName"%string
  else if u_totalSplitsCreated u <? 0 then Some "totalSplitsCreated"%string
  else if u_totalSplitsJoined u <? 0 then Some "totalSplitsJoined"%string
  else if negb (0 <=? u_totalAmountSplit u)%float then Some "totalAmountSplit"%string
  else None.

(** [usersModel.create(fields)]; [id] is the [_id] the driver draws. *)
Definition User_create (now : Z) (id walletAddress displayName : string)
  : M World IUser :=
  fun w =>
    let u := {| u_id := id;
                u_walletAddress := toLowerCase (trim walletAddress);
                u_displayName := trim displayName;
                u_totalSplitsCreated := 0;
                u_totalSplitsJoined := 0;
                u_totalAmountSplit := 0%float;
                u_createdAt := now;
                u_lastActiveAt := now;
                u_updatedAt := now |} in
    match invalidUserPath u with
    | Some path => (w, Err (ValidationFailed path))
    | None =>
        if existsb (fun v => String.eqb (u_walletAddress v) (u_walletAddress u))
                   (users w)
        then (w, Err (DuplicateKey "walletAddress"))
        else (withUsers w (users w ++ [u]), Ok u)
    end.

(** [user.save()] after the counters or the activity stamp were written. *)
Definition saveUser (now : Z) (created : Z) (u : IUser) : M World IUser :=
  fun w =>
    let u' := {| u_id := u_id u;
                 u_walletAddress := u_walletAddress u;
                 u_displayName := u_displayName u;
                 u_totalSplitsCreated := created;
                 u_totalSplitsJoined := u_totalSplitsJoined u;
                 u_totalAmountSplit := u_totalAmountSplit u;
                 u_createdAt := u_createdAt u;
                 u_lastActiveAt := now;
                 u_updatedAt := now |} in
    (withUsers w (map (fun v => if String.eqb (u_id v) (u_id u') then u' else v)
                      (users w)),
     Ok u').

(** [user.updateActivity()] *)
Definition updateActivity (now : Z) (u : IUser) : M World IUser :=
  saveUser now (u_totalSplitsCreated u) u.

(** [user.incrementSplitCreated()] *)
Definition incrementSplitCreated (now : Z) (u : IUser) : M World IUser :=
  saveUser now (u_totalSplitsCreated u + 1) u.

(* ================================================================== *)
(** ** Split service: retrieval *)

(** A participant entry of a listing; [paid] is present on the
    requester's own entry only. *)
Record EnrichedParticipant : Type := {
  ep_participant : IParticipant;
  ep_paid : option bool
}.

(** A split of a listing: the split spread into a fresh object together
    with the derived fields, [creatorAddress] and [participants] being
    overwritten. *)
Record EnrichedSplit : Type := {
  e_split : ISplit;
  e_isCreator : bool;
  e_creatorName : option string;
  e_creatorAddress : option string;
  e_youPaid : bool;
  e_participants : list EnrichedParticipant
}.

(** The body of the [splits.map(async (split) => ...)] of [getSplits] and
    of [getSplitsByParticipant]. *)
Definition enrich (w : World) (normalizedRequester : string) (split : ISplit)
  : EnrichedSplit :=
  let isCreator :=
    String.eqb (toLowerCase (s_creatorAddress split)) normalizedRequester in
  let creatorName :=
    if isCreator then None
    else option_map u_displayName (findByWallet w (s_creatorAddress split)) in
  let creatorAddress :=
    if isCreator then None else Some (s_creatorAddress split) in
  let requesterParticipant :=
    find (fun p => String.eqb (toLowerCase (p_walletAddress p)) normalizedRequester)
         (s_participants split) in
  let youPaid :=
    if isCreator then true
    else match requesterParticipant with
         | Some p => p_hasPaid p
         | None => false
         end in
  {| e_split := split;
     e_isCreator := isCreator;
     e_creatorName := creatorName;
     e_creatorAddress := creatorAddress;
     e_youPaid := youPaid;
     e_participants :=
       map (fun p =>
              {| ep_participant := p;
                 ep_paid :=
                   if String.eqb (toLowerCase (p_walletAddress p)) normalizedRequester
                   then Some (p_hasPaid p) else None |})
           (s_participants split) |}.

(** [getSplitById(splitId)] *)
Definition getSplitById (w : World) (splitId : Z) : option ISplit :=
  findBySplitId w splitId.

(** [getSplitsByCreator(creatorAddress, options)] *)
Definition getSplitsByCreator (w : World) (creatorAddress : string)
    (opts : QueryOptions) : list ISplit :=
  findByCreator w (toLowerCase creatorAddress) opts.

(** [getSplitsByParticipant(walletAddress, options)] *)
Definition getSplitsByParticipant (w : World) (walletAddress : string)
    (opts : QueryOptions) : list EnrichedSplit :=
  map (enrich w (toLowerCase walletAddress))
      (findByParticipant w (toLowerCase walletAddress) opts).

(** [Map.prototype.set]: a known key keeps its place and takes the new
    value, a new key goes last. *)
Fixpoint mapSet (k : Z) (v : ISplit) (m : list (Z * ISplit)) : list (Z * ISplit) :=
  match m with
  | [] => [(k, v)]
  | (k', v') :: rest =>
      if k' =? k then (k', v) :: rest else (k', v') :: mapSet k v rest
  end.

(** [l.forEach((split) => splitMap.set(split.splitId, split))] *)
Definition setAll (l : list ISplit) (m : list (Z * ISplit)) : list (Z * ISplit) :=
  fold_left (fun acc split => mapSet (s_splitId split) split acc) l m.

(** The splits [getSplits] selects, before their enrichment. *)
Definition selectSplits (w : World) (normalizedAddress : string)
    (opts : QueryOptions) : list ISplit :=
  let createdSplits := findByCreator w normalizedAddress opts in
  let participantSplits := findByParticipant w normalizedAddress opts in
  let splitMap := setAll participantSplits (setAll createdSplits []) in
  let allSplits := sortNewestFirst (map snd splitMap) in
  let result :=
    match given (o_skip opts) with
    | Some n => skipn n allSplits
    | None => allSplits
    end in
  match given (o_limit opts) with
  | Some n => firstn n result
  | None => result
  end.

(** [getSplits(walletAddress, options)] *)
Definition getSplits (w : World) (walletAddress : string) (opts : QueryOptions)
  : Result (list EnrichedSplit) :=
  let normalizedAddress := toLowerCase walletAddress in
  if negb (isAddress normalizedAddress) then Err InvalidWalletAddress
  else Ok (map (enrich w normalizedAddress)
               (selectSplits w normalizedAddress opts)).

(** The listing as the specification words it: the splits the address
    created and the splits it takes part in (of the status asked for, when
    one is given), one entry per [splitId], newest first; [skip] and [limit]
    are applied to that merged list and nowhere else. *)
Fixpoint dedupeBySplitId (seen : list Z) (l : list ISplit) : list ISplit :=
  match l with
  | [] => []
  | s :: rest =>
      if existsb (Z.eqb (s_splitId s)) seen then dedupeBySplitId seen rest
      else s :: dedupeBySplitId (seen ++ [s_splitId s]) rest
  end.

Definition getSplits_spec (w : World) (walletAddress : string) (opts : QueryOptions)
  : list ISplit :=
  let unpaged :=
    {| o_status := o_status opts; o_limit := None; o_skip := None |} in
  let created := getSplitsByCreator w walletAddress unpaged in
  let joined := map e_split (getSplitsByParticipant w walletAddress unpaged) in
  cursor opts (sortNewestFirst (dedupeBySplitId [] (created ++ joined))).

(* ================================================================== *)
(** ** Split service: the allocation of a [splitId] *)

(** The variables of the probe loop. *)
Record Probe : Type := {
  pr_splitId : Z;
  pr_existingSplit : option ISplit;
  pr_attempts : nat
}.

(** [while (existingSplit && attempts < 100) { splitId++; existingSplit =
    await Split.findBySplitId(splitId); attempts++; }], with a budget of
    iterations; [None] when the budget runs out before the loop ends. *)
Fixpoint probeLoop (lookup : Z -> option ISplit) (budget : nat) (st : Probe)
  : option Probe :=
  if isSome (pr_existingSplit st) && (pr_attempts st <? 100)%nat then
    match budget with
    | O => None
    | S budget' =>
        probeLoop lookup budget'
          {| pr_splitId := increment (pr_splitId st);
             pr_existingSplit := lookup (increment (pr_splitId st));
             pr_attempts := S (pr_attempts st) |}
    end
  else Some st.

(** The candidate the allocation starts from: the greatest [splitId] plus
    1, or 1 when there is no split ([maxSplit ? maxSplit.splitId + 1 : 1]). *)
Definition candidateOf (maxSplit : option ISplit) : Z :=
  match maxSplit with
  | Some m => increment (s_splitId m)
  | None => 1
  end.

(** The variables of the probe loop after [j] iterations from [candidate]. *)
Definition probeAt (lookup : Z -> option ISplit) (candidate : Z) (j : nat) : Probe :=
  {| pr_splitId := Nat.iter j increment candidate;
     pr_existingSplit := lookup (Nat.iter j increment candidate);
     pr_attempts := j |}.

(** Lines 84-99 of [createSplit].  [maxSplit] is the answer of
    [Split.findOne().sort({ splitId: -1 })] and [lookup] the answers of
    [Split.findBySplitId]; the store may have moved between the two, which
    is the race the loop is there for.  The first component is the value
    the variable [splitId] is left with. *)
Definition allocateSplitId (maxSplit : option ISplit) (lookup : Z -> option ISplit)
  : Z * Result Z :=
  let splitId := candidateOf maxSplit in
  match probeLoop lookup 100
          {| pr_splitId := splitId;
             pr_existingSplit := lookup splitId;
             pr_attempts := 0 |} with
  | None => (splitId, Err LoopBudget)
  | Some st =>
      if (100 <=? pr_attempts st)%nat then (pr_splitId st, Err SplitIdExhausted)
      else (pr_splitId st, Ok (pr_splitId st))
  end.

(* ================================================================== *)
(** ** Split service: creation *)

(** An entry of [CreateSplitInput.participants]. *)
Record ParticipantInput : Type := {
  pi_walletAddress : string;
  pi_name : option string;
  pi_amountDue : number
}.

(** [CreateSplitInput] *)
Record CreateSplitInput : Type := {
  in_description : string;
  in_totalAmount : number;
  in_participants : list ParticipantInput
}.

(** What [deploySplitContract] resolves to; [splitId] is a [bigint], the
    [uint256] of the [SplitCreated] event. *)
Record BlockchainResult : Type := {
  bc_splitId : Z;
  bc_splitAddress : string;
  bc_txHash : string;
  bc_blockNumber : Z;
  bc_isConfirmed : bool
}.

(** How [deploySplitContract] ends: it resolves to the identifiers read
    from the [SplitCreated] event, or it throws "Failed to deploy split
    contract: .." with the message of the failure it caught. *)
Inductive Deployment : Type :=
| Mined (bc : BlockchainResult)
| Failed (message : string).

(** What [createSplit] resolves to. *)
Record CreateSplitResponse : Type := {
  r_splitId : Z;
  r_contractAddress : string;
  r_txHash : string
}.

(** The state [createSplit] runs in: the store, and the two variables it
    declares before its [try] so that its [catch] can read them. *)
Record Frame : Type := {
  f_world : World;
  f_splitId : Z;
  f_blockchainResult : option BlockchainResult
}.

(** The frame [createSplit] starts in: [let splitId = 1] and
    [blockchainResult] not yet defined. *)
Definition initialFrame (w : World) : Frame :=
  {| f_world := w; f_splitId := 1; f_blockchainResult := None |}.

(** A store operation run from inside [createSplit]. *)
Definition onWorld {A} (c : M World A) : M Frame A :=
  fun f =>
    match c (f_world f) with
    | (w', r) =>
        ({| f_world := w'; f_splitId := f_splitId f;
            f_blockchainResult := f_blockchainResult f |}, r)
    end.

(** [try { c } catch (error) { console.error(..) }] *)
Definition swallow {S A} (c : M S A) : M S unit :=
  fun s => match c s with (s', _) => (s', Ok tt) end.

(** [calculatedTotal] *)
Definition calculatedTotal (splitData : CreateSplitInput) : number :=
  sumAmounts (map pi_amountDue (in_participants splitData)).

(** [for (const participant of splitData.participants) { if (!/../.test(..))
    throw .. }] *)
Fixpoint checkParticipantAddresses {S} (l : list ParticipantInput) : M S unit :=
  match l with
  | [] => ret tt
  | p :: rest =>
      bind (throwIf (negb (isAddress (toLowerCase (pi_walletAddress p))))
                    (InvalidParticipantAddress (pi_walletAddress p)))
           (fun _ => checkParticipantAddresses rest)
  end.

(** Lines 64-75: the amount check. *)
Definition checkAmounts {S} (splitData : CreateSplitInput) : M S unit :=
  throwIf (differs (calculatedTotal splitData) (in_totalAmount splitData))
          (AmountMismatch (in_totalAmount splitData) (calculatedTotal splitData)).

(** Lines 49-82: the checks on the input; yields [normalizedCreator]. *)
Definition validateInput {S} (creatorAddress : string) (splitData : CreateSplitInput)
  : M S string :=
  (let normalizedCreator := toLowerCase creatorAddress in
   throwIf (negb (isAddress normalizedCreator)) InvalidCreatorAddress ;;;
   throwIf (List.length (in_participants splitData) =? 0)%nat NoParticipants ;;;
   throwIf (50 <? List.length (in_participants splitData))%nat TooManyParticipants ;;;
   checkAmounts splitData ;;;
   checkParticipantAddresses (in_participants splitData) ;;;
   ret normalizedCreator)%js.

(** The errors the checks on the input throw (lines 49-82). *)
Definition isInputError (e : Error) : bool :=
  match e with
  | InvalidCreatorAddress | NoParticipants | TooManyParticipants
  | AmountMismatch _ _ | InvalidParticipantAddress _ => true
  | _ => false
  end.

(** Lines 84-99 run against the store; the variable [splitId] is written. *)
Definition allocate : M Frame Z :=
  fun f =>
    match allocateSplitId (findMaxSplit (f_world f)) (findBySplitId (f_world f)) with
    | (splitId, r) =>
        ({| f_world := f_world f; f_splitId := splitId;
            f_blockchainResult := f_blockchainResult f |}, r)
    end.

(** [blockchainSplitId ? Number(blockchainSplitId) : splitId]; the [bigint]
    zero is falsy. *)
Definition finalSplitId (bc : BlockchainResult) (splitId : Z) : Z :=
  if bc_splitId bc =? 0 then splitId else toNumber (bc_splitId bc).

(** The object handed to [Split.create] (lines 124-153). *)
Definition newSplitFields (splitId : Z) (contractAddress txHash : string)
    (blockNumber : Z) (isConfirmed : bool) (normalizedCreator : string)
    (splitData : CreateSplitInput) : ISplit :=
  {| s_splitId := splitId;
     s_contractAddress := toLowerCase contractAddress;
     s_txHash := toLowerCase txHash;
     s_blockNumber := blockNumber;
     s_isConfirmed := isConfirmed;
     s_creatorAddress := normalizedCreator;
     s_description := in_description splitData;
     s_totalAmount := in_totalAmount splitData;
     s_currency := "USDC";
     s_status := if isConfirmed then active else pending;
     s_isCompleted := false;
     s_isCancelled := false;
     s_participants :=
       map (fun p =>
              {| p_walletAddress := toLowerCase (pi_walletAddress p);
                 p_name := pi_name p;
                 p_amountDue := pi_amountDue p;
                 p_hasPaid := false;
                 p_paidAt := None;
                 p_paymentTxHash := None;
                 p_reminderCount := 0;
                 p_lastRemindedAt := None |})
           (in_participants splitData);
     s_category := None;
     s_note := None;
     s_imageUrl := None;
     s_createdAt := 0;
     s_completedAt := None;
     s_cancelledAt := None;
     s_expiresAt := None;
     s_updatedAt := 0 |}.

(** Lines 155-164: the creator's counter, on a best-effort basis. *)
Definition updateCreatorStats (now : Z) (normalizedCreator : string) : M World unit :=
  swallow
    (w <- get ;;
     match findByWallet w normalizedCreator with
     | Some creator => incrementSplitCreated now creator ;;; ret tt
     | None => ret tt
     end)%js.

(** Lines 109-171: everything [createSplit] does once the contract is
    deployed. *)
Definition persistSplit (zone : TimeZone) (now : Z) (normalizedCreator : string)
    (splitData : CreateSplitInput) (splitId : Z) (bc : BlockchainResult)
  : M Frame CreateSplitResponse :=
  (let contractAddress := bc_splitAddress bc in
   let txHash := bc_txHash bc in
   existingTx <- onWorld (w <- get ;; ret (findByTxHash w txHash)) ;;
   throwIf (isSome existingTx) (DuplicateTxHash txHash) ;;;
   split <- onWorld (Split_create zone now
                       (newSplitFields (finalSplitId bc splitId) contractAddress
                          txHash (bc_blockNumber bc) (bc_isConfirmed bc)
                          normalizedCreator splitData)) ;;
   onWorld (updateCreatorStats now normalizedCreator) ;;;
   ret {| r_splitId := s_splitId split;
          r_contractAddress := s_contractAddress split;
          r_txHash := s_txHash split |})%js.

(** The draws of [Math.random] in the placeholder variant of [createSplit]:
    the hash, the hash drawn again after a collision, the block number. *)
Record MockDraws : Type := {
  mockTxHash : string;
  redrawnTxHash : string;
  mockBlockNumber : Z
}.

(** What the placeholder variant resolves to. *)
Record MockResponse : Type := {
  mr_splitId : Z;
  mr_contractAddress : string
}.

(** The placeholder variant of [createSplit] (second version of
    [split.service.ts]): no contract is deployed, the on-chain fields are
    made up, and a hash that collides is drawn again. *)
Definition createSplit_mock (draws : MockDraws) (zone : TimeZone) (now : Z)
    (creatorAddress : string) (splitData : CreateSplitInput)
  : M World MockResponse :=
  fun w =>
    let body : M Frame MockResponse :=
      (normalizedCreator <- validateInput creatorAddress splitData ;;
       splitId <- allocate ;;
       let mockContractAddress := "0x0000000000000000000000000000000000000000"%string in
       let mockIsConfirmed := false in
       existingTx <- onWorld (w <- get ;; ret (findByTxHash w (mockTxHash draws))) ;;
       let finalTxHash :=
         if isSome existingTx then redrawnTxHash draws else mockTxHash draws in
       split <- onWorld (Split_create zone now
                           (newSplitFields splitId mockContractAddress finalTxHash
                              (mockBlockNumber draws) mockIsConfirmed
                              normalizedCreator splitData)) ;;
       onWorld (updateCreatorStats now normalizedCreator) ;;;
       ret {| mr_splitId := s_splitId split;
              mr_contractAddress := s_contractAddress split |})%js in
    match body (initialFrame w) with
    | (f, r) => (f_world f, r)
    end.

(** What [verifyCredentials] resolves to. *)
Record AuthResponse : Type := {
  a_walletAddress : string;
  a_displayName : string;
  a_token : string
}.

(** The challenge every wallet signs. *)
Definition MESSAGE_TO_SIGN : string :=
"Welcome to Splyt!

Sign this message to authenticate and access your account.

This signature proves you own this wallet and allows secure access to your Splyt account.

Platform: Splyt - Split Bills, Settle Instantly".

(** [ErrorCode] of [types/error.types]. *)
Inductive ErrorCode : Type :=
| INTERNAL_SERVER_ERROR | BAD_REQUEST | UNAUTHORIZED | FORBIDDEN | NOT_FOUND
| VALIDATION_ERROR | DATABASE_ERROR | RATE_LIMIT_EXCEEDED | SERVICE_UNAVAILABLE.

(** [CustomError]: an [Error] with the optional fields the error handler
    reads. *)
Record CustomError : Type := {
  ce_error : Error;
  ce_status : option Z;
  ce_errorCode : option ErrorCode
}.

(** [new Error(message)]: what every [throw] of the two services builds;
    neither [status] nor [errorCode] is set on it. *)
Definition thrown (e : Error) : CustomError :=
  {| ce_error := e; ce_status := None; ce_errorCode := None |}.

(** The fields of [ErrorResponse] that depend on the error. *)
Record ErrorResponse : Type := {
  er_status : Z;
  er_errorCode : ErrorCode;
  er_error : Error
}.

(** [errorHandler]: [err.status || 500] and [err.errorCode ||
    ErrorCode.INTERNAL_SERVER_ERROR]. *)
Definition errorHandler (err : CustomError) : ErrorResponse :=
  {| er_status :=
       match ce_status err with
       | Some status => if status =? 0 then 500 else status
       | None => 500
       end;
     er_errorCode :=
       match ce_errorCode err with
       | Some code => code
       | None => INTERNAL_SERVER_ERROR
       end;
     er_error := ce_error err |}.

(** What the [authHook] controller answers. *)
Inductive AuthHookResponse : Type :=
| Verified (data : AuthResponse)     (* 200, "User verified successfully" *)
| Required                           (* 400, "Signature and Wallet address are required" *)
| Refused (response : ErrorResponse) (* [next(error)], answered by [errorHandler] *).

Section Services.

(** The collaborators of the service layer. *)

(** [deploySplitContract(creatorAddress, description, participants,
    totalAmount)]: the call into the SplitFactory contract. *)
Variable deploySplitContract :
  string -> string -> list ParticipantInput -> number -> Deployment.

(** [ethers.verifyMessage(message, signature)]: the address recovered from
    a signature, [None] when the library throws. *)
Variable verifyMessage : string -> string -> option string.

(** [generateNameFromAddress] of [utils/names]. *)
Variable generateNameFromAddress : string -> string.

(** [jwt.sign({ walletAddress, displayName, userId }, secret, { expiresIn })]
    at the time [now], which the token carries as its [iat] and, 100 years
    on, as its [exp]: the arguments are the time, then the three fields. *)
Variable jwtSign : Z -> string -> string -> string -> string.

(** The [_id] the driver gives the next user document. *)
Variable newObjectId : World -> string.

(** Line 102: the deployment; the variable [blockchainResult] is written
    when it resolves. *)
Definition deploy (normalizedCreator : string) (splitData : CreateSplitInput)
  : M Frame BlockchainResult :=
  fun f =>
    match deploySplitContract normalizedCreator (in_description splitData)
            (in_participants splitData) (in_totalAmount splitData) with
    | Mined bc =>
        ({| f_world := f_world f; f_splitId := f_splitId f;
            f_blockchainResult := Some bc |}, Ok bc)
    | Failed message => (f, Err (DeployFailed message))
    end.

(** The [try] block of [createSplit]. *)
Definition createSplit_try (zone : TimeZone) (now : Z) (creatorAddress : string)
    (splitData : CreateSplitInput) : M Frame CreateSplitResponse :=
  (normalizedCreator <- validateInput creatorAddress splitData ;;
   splitId <- allocate ;;
   bc <- deploy normalizedCreator splitData ;;
   persistSplit zone now normalizedCreator splitData splitId bc)%js.

(** [createSplit(creatorAddress, splitData)]: the [try] block, and the
    [catch] block that answers from [blockchainResult] when it is set and
    rethrows otherwise. *)
Definition createSplit (zone : TimeZone) (now : Z) (creatorAddress : string)
    (splitData : CreateSplitInput) : M World CreateSplitResponse :=
  fun w =>
    match createSplit_try zone now creatorAddress splitData (initialFrame w) with
    | (f, Ok response) => (f_world f, Ok response)
    | (f, Err error) =>
        match f_blockchainResult f with
        | Some bc =>
            (f_world f,
             Ok {| r_splitId := finalSplitId bc (f_splitId f);
                   r_contractAddress := bc_splitAddress bc;
                   r_txHash := bc_txHash bc |})
        | None => (f_world f, Err error)
        end
    end.

(** [verifySignature(message, signature, expectedAddress)] *)
Definition verifySignature (message signature expectedAddress : string) : bool :=
  match verifyMessage message signature with
  | Some recoveredAddress =>
      String.eqb (toLowerCase recoveredAddress) (toLowerCase expectedAddress)
  | None => false
  end.

(** [verifyCredentials(walletAddress, signature)]; its [catch] block
    rethrows what it caught. *)
Definition verifyCredentials (now : Z) (walletAddress signature : string)
  : M World AuthResponse :=
  (throwIf (negb (truthy walletAddress) || negb (truthy signature))
           MissingCredentials ;;;
   let normalizedAddress := toLowerCase walletAddress in
   throwIf (negb (isAddress normalizedAddress)) InvalidWalletAddress ;;;
   throwIf (negb (isSignature signature)) InvalidSignatureFormat ;;;
   throwIf (negb (verifySignature MESSAGE_TO_SIGN signature normalizedAddress))
           SignatureMismatch ;;;
   w <- get ;;
   user <- match findByWallet w normalizedAddress with
           | Some user => ret user
           | None =>
               User_create now (newObjectId w) normalizedAddress
                 (generateNameFromAddress normalizedAddress)
           end ;;
   let token :=
     jwtSign now (u_walletAddress user) (u_displayName user) (u_id user) in
   updateActivity now user ;;;
   ret {| a_walletAddress := u_walletAddress user;
          a_displayName := u_displayName user;
          a_token := token |})%js.

(** [authHook] of the auth controller, with the error handler it hands its
    errors to. *)
Definition authHook (now : Z) (walletAddress signature : string)
  : World -> World * AuthHookResponse :=
  fun w =>
    if negb (truthy signature) || negb (truthy walletAddress) then (w, Required)
    else
      match verifyCredentials now walletAddress signature w with
      | (w', Ok token) => (w', Verified token)
      | (w', Err error) => (w', Refused (errorHandler (thrown error)))
      end.

End Services.

(* ================================================================== *)
(** ** Notions the properties are stated with *)

(** The candidate the allocation starts from on the store [w]. *)
Definition nextSplitId (w : World) : Z := candidateOf (findMaxSplit w).

(** The candidate as the specification words it, counted in the integers:
    the greatest [splitId] of the store plus 1, or 1 when the store is
    empty. *)
Definition greatestPlusOne (w : World) (candidate : Z) : Prop :=
  match splits w with
  | [] => candidate = 1
  | _ :: _ =>
      exists m, In m (splits w)
                /\ (forall s, In s (splits w) -> s_splitId s <= s_splitId m)
                /\ candidate = s_splitId m + 1
  end.

(** The check of [verifyCredentials] that stops a call whose signature does
    not verify: the first of its four checks that fails. *)
Definition refusal (walletAddress signature : string) : Error :=
  if negb (truthy walletAddress) || negb (truthy signature) then MissingCredentials
  else if negb (isAddress (toLowerCase walletAddress)) then InvalidWalletAddress
  else if negb (isSignature signature) then InvalidSignatureFormat
  else SignatureMismatch.

(** A map from [splitId]s to the documents of [stored] that carry them. *)
Definition wellKeyed (stored : list ISplit) (m : list (Z * ISplit)) : Prop :=
  forall k v, In (k, v) m -> s_splitId v = k /\ In v stored.

(* ================================================================== *)
(** ** Sample data *)

Module Sample.

Definition alice : string := "0xaaaaaaaaaaaaaaaaaaaaaaaaaaaaaaaaaaaaaaaa".
Definition aliceMixed : string := "0xaBaBaBaBaBaBaBaBaBaBaBaBaBaBaBaBaBaBaBaB".
Definition bob : string := "0xbbbbbbbbbbbbbbbbbbbbbbbbbbbbbbbbbbbbbbbb".
Definition carol : string := "0xcccccccccccccccccccccccccccccccccccccccc".
Definition contract1 : string := "0x1111111111111111111111111111111111111111".
Definition contract2 : string := "0x2222222222222222222222222222222222222222".
Definition hash1 : string := "0x1111111111111111111111111111111111111111111111111111111111111111".
Definition hash2 : string := "0x2222222222222222222222222222222222222222222222222222222222222222".
Definition signature1 : string := "0x5555555555555555555555555555555555555555555555555555555555555555555555555555555555555555555555555555555555555555555555555555555555".

Definition emptyWorld : World := {| splits := []; users := [] |}.

(** A server that keeps UTC. *)
Definition utc : TimeZone := fun _ _ => 0.

(** A server in New York in the first months of 2024: five hours behind
    UTC until the clocks go forward at 07:00 UTC on 10 March, four hours
    behind from then on.  A local time is read with the offset in force at
    that local time, the hour the clocks skip with the offset before it. *)
Definition newYork2024 : TimeZone :=
  fun t isUTC =>
    if isUTC
    then (if t <? 1710054000000 then -18000000 else -14400000)
    else (if t <? 1710039600000 then -18000000 else -14400000).

(** Two participants who owe 50 each. *)
Definition halves : list ParticipantInput :=
  [ {| pi_walletAddress := bob; pi_name := None; pi_amountDue := 50%float |};
    {| pi_walletAddress := carol; pi_name := None; pi_amountDue := 50%float |} ].

(** The split of the specification's example: "Dinner", 100.00. *)
Definition dinner : CreateSplitInput :=
  {| in_description := "Dinner"; in_totalAmount := 100%float;
     in_participants := halves |}.


(** Participants that sum to 90 against a total of 100. *)
Definition short : CreateSplitInput :=
  {| in_description := "Dinner"; in_totalAmount := 100%float;
     in_participants :=
       [ {| pi_walletAddress := bob; pi_name := None; pi_amountDue := 50%float |};
         {| pi_walletAddress := carol; pi_name := None; pi_amountDue := 40%float |} ] |}.

(** Participants whose binary64 sum, 0.1 + 0.2, is not 0.3. *)
Definition thirty : CreateSplitInput :=
  {| in_description := "Coffee"; in_totalAmount := 0x1.3333333333333p-2%float;
     in_participants :=
       [ {| pi_walletAddress := bob; pi_name := None;
            pi_amountDue := 0x1.999999999999ap-4%float |};
         {| pi_walletAddress := carol; pi_name := None;
            pi_amountDue := 0x1.999999999999ap-3%float |} ] |}.

(** A deployment that resolves to [bc]. *)
Definition deployed (bc : BlockchainResult)
  : string -> string -> list ParticipantInput -> number -> Deployment :=
  fun _ _ _ _ => Mined bc.

(** A deployment that throws. *)
Definition undeployed
  : string -> string -> list ParticipantInput -> number -> Deployment :=
  fun _ _ _ _ => Failed "RPC is not configured".

(** On-chain split 7, mined in block 18000000, not yet confirmed. *)
Definition chain7 : BlockchainResult :=
  {| bc_splitId := 7; bc_splitAddress := contract1; bc_txHash := hash1;
     bc_blockNumber := 18000000; bc_isConfirmed := false |}.

(** On-chain split 7 again, from another transaction. *)
Definition chain7' : BlockchainResult :=
  {| bc_splitId := 7; bc_splitAddress := contract2; bc_txHash := hash2;
     bc_blockNumber := 18000001; bc_isConfirmed := false |}.



(** The store after Alice has created the dinner split as on-chain split 7. *)
Definition afterDinner : World :=
  fst (createSplit (deployed chain7) utc 1000 alice dinner emptyWorld).

(** A signature check that recovers Bob's address whatever is signed. *)
Definition recoversBob : string -> string -> option string :=
  fun _ _ => Some bob.

Definition nameOf : string -> string := fun _ => "Swift Falcon"%string.
Definition tokenOf : Z -> string -> string -> string -> string :=
  fun _ _ _ _ => "token"%string.
Definition idOf : World -> string := fun _ => "64b000000000000000000001"%string.

(** A stored split, with the fields that vary among the samples. *)
Definition stored (splitId : Z) (txHash creator : string) (createdAt : Z)
    (participants : list IParticipant) : ISplit :=
  {| s_splitId := splitId; s_contractAddress := contract1; s_txHash := txHash;
     s_blockNumber := 18000000; s_isConfirmed := false;
     s_creatorAddress := creator; s_description := "Dinner";
     s_totalAmount := 100%float; s_currency := "USDC"; s_status := pending;
     s_isCompleted := false; s_isCancelled := false;
     s_participants := participants;
     s_category := None; s_note := None; s_imageUrl := None;
     s_createdAt := createdAt; s_completedAt := None; s_cancelledAt := None;
     s_expiresAt := None; s_updatedAt := createdAt |}.

Definition owes (address : string) (paid : bool) : IParticipant :=
  {| p_walletAddress := address; p_name := None; p_amountDue := 50%float;
     p_hasPaid := paid; p_paidAt := None; p_paymentTxHash := None;
     p_reminderCount := 0; p_lastRemindedAt := None |}.

(** Alice created split 1 at time 100; Carol created split 2 at time 200
    and Alice takes part in it. *)
Definition twoSplits : World :=
  {| splits := [ stored 1 hash1 alice 100 [owes bob false];
                 stored 2 hash2 carol 200 [owes alice false] ];
     users := [] |}.

(** A split whose two participants have both paid. *)
Definition settled : ISplit := stored 3 hash1 alice 100 [owes bob true; owes carol true].

Definition settledWorld : World := {| splits := [settled]; users := [] |}.

Definition skipOne : QueryOptions :=
  {| o_status := None; o_limit := None; o_skip := Some 1%nat |}.

(** A lookup under which the identifiers 5, 6 and 7 are taken. *)
Definition taken567 (id : Z) : option ISplit :=
  if (5 <=? id) && (id <=? 7) then Some (stored id hash1 alice 100 []) else None.

(** A lookup under which every identifier is taken. *)
Definition allTaken (id : Z) : option ISplit := Some (stored id hash1 alice 100 []).

(** A store whose greatest identifier is 4. *)
Definition upToFour : World :=
  {| splits := [ stored 4 hash1 alice 100 []; stored 2 hash2 carol 50 [] ];
     users := [] |}.

(** A store whose only split carries the identifier 2^53, the first
    number that adding 1 does not change. *)
Definition atTheEdge : World :=
  {| splits := [ stored (2 ^ 53) hash1 alice 100 [] ]; users := [] |}.

End Sample.

(* ================================================================== *)
(** ** The split model: derived fields and further queries *)

(** The virtual [paidCount]. *)
Definition paidCount (d : ISplit) : nat :=
  List.length (filter p_hasPaid (s_participants d)).

(** The virtual [unpaidCount]. *)
Definition unpaidCount (d : ISplit) : nat :=
  List.length (filter (fun p => negb (p_hasPaid p)) (s_participants d)).

(** The virtual [totalPaid]. *)
Definition totalPaid (d : ISplit) : number :=
  sumAmounts (map p_amountDue (filter p_hasPaid (s_participants d))).

(** The virtual [totalUnpaid]. *)
Definition totalUnpaid (d : ISplit) : number :=
  sumAmounts (map p_amountDue (filter (fun p => negb (p_hasPaid p)) (s_participants d))).

(** The virtual [isExpired]: [new Date() > this.expiresAt], and [false]
    when there is no expiry. *)
Definition isExpired (now : Z) (d : ISplit) : bool :=
  match s_expiresAt d with
  | Some expiresAt => expiresAt <? now
  | None => false
  end.

(** [status: { $in: ['pending', 'active'] }] *)
Definition isOpenStatus (d : ISplit) : bool :=
  status_eqb (s_status d) pending || status_eqb (s_status d) active.

(** [.limit(n)] on a query: the store takes a limit of zero as no limit. *)
Definition limited (limit : nat) (l : list ISplit) : list ISplit :=
  match limit with
  | O => l
  | S _ => firstn limit l
  end.

(** [Split.findActive(limit = 50)] *)
Definition findActive (w : World) (limit : option nat) : list ISplit :=
  limited (match limit with Some n => n | None => 50%nat end)
    (sortNewestFirst
       (filter (fun s => isOpenStatus s && negb (s_isCompleted s)
                         && negb (s_isCancelled s))
               (splits w))).

(** Sorting by [expiresAt], soonest first ([.sort({ expiresAt: 1 })]);
    documents of equal expiry keep their order, and a document without
    expiry comes first, as a missing field does in the store. *)
Definition expiryKey (d : ISplit) : Z :=
  match s_expiresAt d with
  | Some t => t
  | None => -1
  end.

Fixpoint insertSoonestFirst (s : ISplit) (l : list ISplit) : list ISplit :=
  match l with
  | [] => [s]
  | x :: rest =>
      if expiryKey s <=? expiryKey x then s :: x :: rest
      else x :: insertSoonestFirst s rest
  end.

Definition sortSoonestFirst (l : list ISplit) : list ISplit :=
  fold_right insertSoonestFirst [] l.

(** [Split.findExpired()] at the time [now]: [expiresAt: { $lt: new Date() }]
    matches no document without expiry. *)
Definition findExpired (now : Z) (w : World) : list ISplit :=
  sortSoonestFirst
    (filter (fun s => isExpired now s && isOpenStatus s && negb (s_isCancelled s))
            (splits w)).

(* ================================================================== *)
(** ** The split model: instance methods on a document in memory *)

(** How an instance method fails: it throws an [Error] of its own, given by
    its message, or its [save] is refused by the store. *)
Inductive Failure : Type :=
| Thrown (message : string)
| Refusal (error : Error).

(** How the promise of an instance method settles; fulfilled, its value is
    the document itself. *)
Inductive Settled : Type :=
| Fulfilled
| RejectedWith (failure : Failure).

(** The state an instance method runs in: the store, the document [this]
    in memory, and which of its paths are marked modified.  The methods
    assign to [participants] and to the five paths of [updateStatus]
    ([status], [isCompleted], [isCancelled], [completedAt], [cancelledAt])
    and to no other path, so two marks are all there is to keep. *)
Record InMemory : Type := {
  im_world : World;
  im_this : ISplit;
  im_participantsModified : bool;
  im_statusModified : bool
}.

(** A document as [findBySplitId] hands it over: no path is modified. *)
Definition loaded (w : World) (d : ISplit) : InMemory :=
  {| im_world := w; im_this := d;
     im_participantsModified := false; im_statusModified := false |}.

Definition Method : Type := InMemory -> InMemory * Settled.

(** [await a; return b] *)
Definition andThen (a b : Method) : Method :=
  fun s =>
    match a s with
    | (s', Fulfilled) => b s'
    | (s', RejectedWith failure) => (s', RejectedWith failure)
    end.

(** [throw new Error(message)] *)
Definition throws (message : string) : Method :=
  fun s => (s, RejectedWith (Thrown message)).

(** Assignment to [this.participants]. *)
Definition setParticipants (d : ISplit) (l : list IParticipant) : ISplit :=
  {| s_splitId := s_splitId d; s_contractAddress := s_contractAddress d;
     s_txHash := s_txHash d; s_blockNumber := s_blockNumber d;
     s_isConfirmed := s_isConfirmed d; s_creatorAddress := s_creatorAddress d;
     s_description := s_description d; s_totalAmount := s_totalAmount d;
     s_currency := s_currency d; s_status := s_status d;
     s_isCompleted := s_isCompleted d; s_isCancelled := s_isCancelled d;
     s_participants := l; s_category := s_category d;
     s_note := s_note d; s_imageUrl := s_imageUrl d;
     s_createdAt := s_createdAt d; s_completedAt := s_completedAt d;
     s_cancelledAt := s_cancelledAt d; s_expiresAt := s_expiresAt d;
     s_updatedAt := s_updatedAt d |}.

(** The first [pre('save')] hook on a document whose [participants] are
    modified: addresses and payment hashes in lower case. *)
Definition lowerParticipant (p : IParticipant) : IParticipant :=
  {| p_walletAddress := toLowerCase (p_walletAddress p);
     p_name := p_name p;
     p_amountDue := p_amountDue p;
     p_hasPaid := p_hasPaid p;
     p_paidAt := p_paidAt p;
     p_paymentTxHash := option_map toLowerCase (p_paymentTxHash p);
     p_reminderCount := p_reminderCount p;
     p_lastRemindedAt := p_lastRemindedAt p |}.

Module SplitDocument.

(** The document after the [pre('save')] hooks. *)
Definition hooked (s : InMemory) : ISplit :=
  if im_participantsModified s
  then setParticipants (im_this s)
         (map lowerParticipant (s_participants (im_this s)))
  else im_this s.

(** The document [save] writes: the hooks have run, and [updatedAt] moves
    on when a path is modified (the [timestamps] option of the schema). *)
Definition stamped (now : Z) (s : InMemory) : ISplit :=
  if im_participantsModified s || im_statusModified s
  then touchSplit now (hooked s)
  else hooked s.

(** [this.save()]: the validators of the schema run on the document, then
    the hooks, then the document is written back and is clean again.  A
    document the validators refuse is not written and stays as it is in
    memory, marks included. *)
Definition save (now : Z) : Method :=
  fun s =>
    match invalidSplitPath (im_this s) with
    | Some path => (s, RejectedWith (Refusal (ValidationFailed path)))
    | None =>
        ({| im_world := writeBack (stamped now s) (im_world s);
            im_this := stamped now s;
            im_participantsModified := false;
            im_statusModified := false |}, Fulfilled)
    end.

(** [this.updateStatus(newStatus)]: the five assignments, then [save]. *)
Definition updateStatus (now : Z) (newStatus : SplitStatus) : Method :=
  fun s =>
    let assigned := assignStatus now newStatus (im_this s) in
    save now {| im_world := im_world s;
                im_this := assigned;
                im_participantsModified := im_participantsModified s;
                im_statusModified :=
                  im_statusModified s || statusPathsDiffer (im_this s) assigned |}.

(** [this.checkAndUpdateCompletion()] *)
Definition checkAndUpdateCompletion (now : Z) : Method :=
  fun s =>
    let allPaid := forallb p_hasPaid (s_participants (im_this s)) in
    if allPaid && (0 <? List.length (s_participants (im_this s)))%nat
       && negb (s_isCompleted (im_this s))
    then updateStatus now completed s
    else (s, Fulfilled).

(** [p.walletAddress.toLowerCase() === walletAddress.toLowerCase()] *)
Definition sameWallet (walletAddress : string) (p : IParticipant) : bool :=
  String.eqb (toLowerCase (p_walletAddress p)) (toLowerCase walletAddress).

(** A write through the element [Array.prototype.find] returned: the first
    element that satisfies [test] is the one replaced. *)
Fixpoint updateFirst (test : IParticipant -> bool) (f : IParticipant -> IParticipant)
    (l : list IParticipant) : list IParticipant :=
  match l with
  | [] => []
  | p :: rest => if test p then f p :: rest else p :: updateFirst test f rest
  end.

(** [this.participants.splice(index, 1)] at the index [findIndex] found. *)
Fixpoint removeFirst (test : IParticipant -> bool) (l : list IParticipant)
  : list IParticipant :=
  match l with
  | [] => []
  | p :: rest => if test p then rest else p :: removeFirst test rest
  end.

(** The participants of [this] are written and the path is marked. *)
Definition writeParticipants (l : list IParticipant) (s : InMemory) : InMemory :=
  {| im_world := im_world s;
     im_this := setParticipants (im_this s) l;
     im_participantsModified := true;
     im_statusModified := im_statusModified s |}.

(** [participant.hasPaid = true; participant.paidAt = new Date();
    participant.paymentTxHash = txHash]; the payment hash is trimmed by the
    setter of its path. *)
Definition paid (now : Z) (txHash : string) (p : IParticipant) : IParticipant :=
  {| p_walletAddress := p_walletAddress p;
     p_name := p_name p;
     p_amountDue := p_amountDue p;
     p_hasPaid := true;
     p_paidAt := Some now;
     p_paymentTxHash := Some (trim txHash);
     p_reminderCount := p_reminderCount p;
     p_lastRemindedAt := p_lastRemindedAt p |}.

(** [participant.reminderCount += 1; participant.lastRemindedAt = new
    Date()] *)
Definition reminded (now : Z) (p : IParticipant) : IParticipant :=
  {| p_walletAddress := p_walletAddress p;
     p_name := p_name p;
     p_amountDue := p_amountDue p;
     p_hasPaid := p_hasPaid p;
     p_paidAt := p_paidAt p;
     p_paymentTxHash := p_paymentTxHash p;
     p_reminderCount := p_reminderCount p + 1;
     p_lastRemindedAt := Some now |}.

(** [this.markParticipantPaid(walletAddress, txHash)] *)
Definition markParticipantPaid (now : Z) (walletAddress txHash : string) : Method :=
  fun s =>
    match find (sameWallet walletAddress) (s_participants (im_this s)) with
    | None =>
        throws ("Participant with wallet " ++ walletAddress ++ " not found") s
    | Some participant =>
        if p_hasPaid participant
        then throws ("Participant " ++ walletAddress ++ " has already paid") s
        else
          andThen (checkAndUpdateCompletion now) (save now)
            (writeParticipants
               (updateFirst (sameWallet walletAddress) (paid now txHash)
                  (s_participants (im_this s)))
               s)
    end.

(** [this.addParticipant(participant)]; the pushed entry goes through the
    setters of the participant schema. *)
Definition addParticipant (now : Z) (participant : IParticipant) : Method :=
  fun s =>
    if s_isCompleted (im_this s) || s_isCancelled (im_this s)
    then throws "Cannot add participants to completed or cancelled split" s
    else if existsb (sameWallet (p_walletAddress participant))
                    (s_participants (im_this s))
    then throws "Participant already exists in this split" s
    else if negb (isAddress (p_walletAddress participant))
    then throws "Invalid wallet address format" s
    else
      save now
        (writeParticipants
           (s_participants (im_this s) ++ [castParticipant participant]) s).

(** [this.removeParticipant(walletAddress)]; the entry is spliced out
    before the list is found empty. *)
Definition removeParticipant (now : Z) (walletAddress : string) : Method :=
  fun s =>
    if s_isCompleted (im_this s) || s_isCancelled (im_this s)
    then throws "Cannot remove participants from completed or cancelled split" s
    else
      match find (sameWallet walletAddress) (s_participants (im_this s)) with
      | None => throws "Participant not found in this split" s
      | Some participant =>
          if p_hasPaid participant
          then throws "Cannot remove participant who has already paid" s
          else
            let spliced :=
              writeParticipants
                (removeFirst (sameWallet walletAddress)
                   (s_participants (im_this s))) s in
            if (List.length (s_participants (im_this spliced)) =? 0)%nat
            then throws "Cannot remove last participant from split" spliced
            else save now spliced
      end.

(** [this.sendReminder(walletAddress)] *)
Definition sendReminder (now : Z) (walletAddress : string) : Method :=
  fun s =>
    match find (sameWallet walletAddress) (s_participants (im_this s)) with
    | None =>
        throws ("Participant with wallet " ++ walletAddress ++ " not found") s
    | Some participant =>
        if p_hasPaid participant
        then throws "Cannot send reminder to participant who has already paid" s
        else
          save now
            (writeParticipants
               (updateFirst (sameWallet walletAddress) (reminded now)
                  (s_participants (im_this s)))
               s)
    end.

End SplitDocument.

(* ================================================================== *)
(** ** The authentication middleware *)

(** [UserJwtPayload], the fields the middleware reads. *)
Record UserJwtPayload : Type := {
  jp_walletAddress : string;
  jp_displayName : string;
  jp_userId : string
}.

(** [req.user] *)
Record RequestUser : Type := {
  ru_walletAddress : string;
  ru_displayName : string;
  ru_userId : string
}.

(** The error the middleware hands to [next]. *)
Record MiddlewareError : Type := {
  me_message : string;
  me_status : Z;
  me_errorCode : ErrorCode;
  me_details : option string
}.

(** How [verifyToken] ends: [next()] with [req.user] set, or [next(error)]. *)
Inductive Passage : Type :=
| Next (user : RequestUser)
| NextError (error : MiddlewareError).

(** The characters up to the first space. *)
Fixpoint upToSpace (s : string) : string :=
  match s with
  | EmptyString => EmptyString
  | String c rest => if Ascii.eqb c " " then EmptyString else String c (upToSpace rest)
  end.

(** [authHeader.split(' ')[1]] of a header that starts with ["Bearer "]. *)
Definition bearerToken (authHeader : string) : option string :=
  option_map upToSpace (afterPrefix "Bearer " authHeader).

Section Middleware.

(** [jwt.verify(token, secret)]: the payload, or the message of the error
    the library throws. *)
Variable jwtVerify : string -> string -> string + UserJwtPayload.

(** [config.jwt.secret] *)
Variable secret : option string.

(** [verifyToken(req, res, next)], on the [authorization] header of the
    request. *)
Definition verifyToken (authorization : option string) (w : World) : Passage :=
  match authorization with
  | None =>
      NextError {| me_message := "No Bearer token provided"; me_status := 403;
                   me_errorCode := UNAUTHORIZED; me_details := None |}
  | Some authHeader =>
      match bearerToken authHeader with
      | None =>
          NextError {| me_message := "No Bearer token provided"; me_status := 403;
                       me_errorCode := UNAUTHORIZED; me_details := None |}
      | Some token =>
          match secret with
          | Some (String c key) =>
              match jwtVerify token (String c key) with
              | inr decodedData =>
                  match findByWallet w (jp_walletAddress decodedData) with
                  | None =>
                      NextError {| me_message := "User not found"; me_status := 401;
                                   me_errorCode := UNAUTHORIZED; me_details := None |}
                  | Some user =>
                      Next {| ru_walletAddress := u_walletAddress user;
                              ru_displayName := u_displayName user;
                              ru_userId := u_id user |}
                  end
              | inl message =>
                  NextError {| me_message := "Invalid or expired token";
                               me_status := 403; me_errorCode := UNAUTHORIZED;
                               me_details := Some message |}
              end
          | _ =>
              NextError {| me_message := "JWT secret not configured";
                           me_status := 500;
                           me_errorCode := INTERNAL_SERVER_ERROR;
                           me_details := None |}
          end
      end
  end.

End Middleware.

(* ================================================================== *)
(** ** Further notions the properties are stated with *)

(** The input passes every check of lines 49-82 of [createSplit]. *)
Definition inputAccepted (creatorAddress : string) (splitData : CreateSplitInput)
  : bool :=
  isAddress (toLowerCase creatorAddress)
  && (1 <=? List.length (in_participants splitData))%nat
  && (List.length (in_participants splitData) <=? 50)%nat
  && negb (differs (calculatedTotal splitData) (in_totalAmount splitData))
  && forallb (fun p => isAddress (toLowerCase (pi_walletAddress p)))
             (in_participants splitData).

(** The store after the creator's counter was brought up to date. *)
Definition creatorCounted (now : Z) (normalizedCreator : string) (w : World) : World :=
  match findByWallet w normalizedCreator with
  | Some creator => fst (incrementSplitCreated now creator w)
  | None => w
  end.

(** [a] is at least as new as [b]. *)
Definition newerFirst (a b : ISplit) : Prop := s_createdAt b <= s_createdAt a.

(** The address [normalizedRequester] created the split [s] or takes part
    in it. *)
Definition involves (normalizedRequester : string) (s : ISplit) : Prop :=
  s_creatorAddress s = normalizedRequester
  \/ exists p, In p (s_participants s) /\ p_walletAddress p = normalizedRequester.

(** The document [markParticipantPaid] leaves behind when it is fulfilled,
    in closed form: the payment written to the first entry of the address,
    the split completed when that entry was the last unpaid one, the
    participants as the hooks leave them. *)
Definition paidUp (now : Z) (walletAddress txHash : string) (d : ISplit) : ISplit :=
  touchSplit now
    (setParticipants
       (if (unpaidCount d =? 1)%nat && negb (s_isCompleted d)
        then assignStatus now completed d else d)
       (map lowerParticipant
          (SplitDocument.updateFirst (SplitDocument.sameWallet walletAddress)
             (SplitDocument.paid now txHash) (s_participants d)))).

(** The addresses of the participants of a split as the methods compare
    them, in lower case. *)
Definition participantKeys (d : ISplit) : list string :=
  map (fun p => toLowerCase (p_walletAddress p)) (s_participants d).

(** The reminders sent for a split, over all its participants. *)
Definition remindersSent (d : ISplit) : Z :=
  fold_right Z.add 0 (map p_reminderCount (s_participants d)).

(** [a] expires no later than [b]. *)
Definition soonerFirst (a b : ISplit) : Prop := expiryKey a <= expiryKey b.

(* ================================================================== *)
(** ** Further sample data *)

Module Scenario.

(** The dinner split as Alice's [createSplit] stores it at the time 1000,
    for the on-chain split 7. *)
Definition dinnerSplit : ISplit :=
  {| s_splitId := 7; s_contractAddress := Sample.contract1;
     s_txHash := Sample.hash1; s_blockNumber := 18000000; s_isConfirmed := false;
     s_creatorAddress := Sample.alice; s_description := "Dinner";
     s_totalAmount := 100%float; s_currency := "USDC"; s_status := pending;
     s_isCompleted := false; s_isCancelled := false;
     s_participants := [Sample.owes Sample.bob false; Sample.owes Sample.carol false];
     s_category := None; s_note := None; s_imageUrl := None;
     s_createdAt := 1000; s_completedAt := None; s_cancelledAt := None;
     s_expiresAt := Some 2592001000; s_updatedAt := 1000 |}.

Definition dinnerStore : World := {| splits := [dinnerSplit]; users := [] |}.

Definition dinnerAnswer : CreateSplitResponse :=
  {| r_splitId := 7; r_contractAddress := Sample.contract1;
     r_txHash := Sample.hash1 |}.

(** What the placeholder variant draws. *)
Definition draws : MockDraws :=
  {| mockTxHash := Sample.hash1; redrawnTxHash := Sample.hash2;
     mockBlockNumber := 18000000 |}.

(** The first split of the placeholder variant, stored at the time 1000. *)
Definition mockSplit : ISplit :=
  {| s_splitId := 1;
     s_contractAddress := "0x0000000000000000000000000000000000000000";
     s_txHash := Sample.hash1; s_blockNumber := 18000000; s_isConfirmed := false;
     s_creatorAddress := Sample.alice; s_description := "Dinner";
     s_totalAmount := 100%float; s_currency := "USDC"; s_status := pending;
     s_isCompleted := false; s_isCancelled := false;
     s_participants := [Sample.owes Sample.bob false; Sample.owes Sample.carol false];
     s_category := None; s_note := None; s_imageUrl := None;
     s_createdAt := 1000; s_completedAt := None; s_cancelledAt := None;
     s_expiresAt := Some 2592001000; s_updatedAt := 1000 |}.

Definition mockStore : World := {| splits := [mockSplit]; users := [] |}.

Definition mockAnswer : MockResponse :=
  {| mr_splitId := 1;
     mr_contractAddress := "0x0000000000000000000000000000000000000000" |}.

(** The entry of Carol's split in Alice's listing of [Sample.twoSplits]. *)
Definition carolsSplit : ISplit :=
  Sample.stored 2 Sample.hash2 Sample.carol 200 [Sample.owes Sample.alice false].

Definition aliceInCarolsSplit : EnrichedSplit :=
  {| e_split := carolsSplit;
     e_isCreator := false;
     e_creatorName := None;
     e_creatorAddress := Some Sample.carol;
     e_youPaid := false;
     e_participants :=
       [ {| ep_participant := Sample.owes Sample.alice false;
            ep_paid := Some false |} ] |}.

Definition aliceInHerSplit : EnrichedSplit :=
  {| e_split := Sample.stored 1 Sample.hash1 Sample.alice 100
                  [Sample.owes Sample.bob false];
     e_isCreator := true;
     e_creatorName := None;
     e_creatorAddress := None;
     e_youPaid := true;
     e_participants :=
       [ {| ep_participant := Sample.owes Sample.bob false; ep_paid := None |} ] |}.

Definition aliceListing : list EnrichedSplit :=
  [aliceInCarolsSplit; aliceInHerSplit].

(** A split of which Carol has paid her half and Bob has not. *)
Definition tab : ISplit :=
  Sample.stored 4 Sample.hash1 Sample.alice 100
    [Sample.owes Sample.bob false; Sample.owes Sample.carol true].

Definition tabStore : World := {| splits := [tab]; users := [] |}.

(** The document in memory after Bob has paid his half at the time 500. *)
Definition tabPaid : InMemory :=
  fst (SplitDocument.markParticipantPaid 500 Sample.bob Sample.hash2
         (loaded tabStore tab)).

(** A split with Bob alone, who has not paid. *)
Definition solo : ISplit :=
  Sample.stored 5 Sample.hash2 Sample.alice 100 [Sample.owes Sample.bob false].

Definition soloStore : World := {| splits := [solo]; users := [] |}.

(** The document in memory after Carol has joined Bob at the time 500. *)
Definition soloJoined : InMemory :=
  fst (SplitDocument.addParticipant 500 (Sample.owes Sample.carol false)
         (loaded soloStore solo)).

(** The document in memory after Bob was reminded at the time 500. *)
Definition soloReminded : InMemory :=
  fst (SplitDocument.sendReminder 500 Sample.bob (loaded soloStore solo)).

(** A split of which neither Bob nor Carol has paid. *)
Definition pair : ISplit :=
  Sample.stored 6 Sample.hash1 Sample.alice 100
    [Sample.owes Sample.bob false; Sample.owes Sample.carol false].

Definition pairStore : World := {| splits := [pair]; users := [] |}.

(** The document in memory after Bob was removed at the time 500. *)
Definition pairLeft : InMemory :=
  fst (SplitDocument.removeParticipant 500 Sample.bob (loaded pairStore pair)).





(** Bob's address as a wallet may spell it. *)
Definition bobUpper : string := "0xBBBBBBBBBBBBBBBBBBBBBBBBBBBBBBBBBBBBBBBB".

(** Bob's user record after his first login at the time 5. *)
Definition bobUser : IUser :=
  {| u_id := "64b000000000000000000001";
     u_walletAddress := Sample.bob;
     u_displayName := "Swift Falcon";
     u_totalSplitsCreated := 0;
     u_totalSplitsJoined := 0;
     u_totalAmountSplit := 0%float;
     u_createdAt := 5;
     u_lastActiveAt := 5;
     u_updatedAt := 5 |}.

Definition bobStore : World := {| splits := []; users := [bobUser] |}.

(** What Bob's login answers. *)
Definition bobLogin : AuthResponse :=
  {| a_walletAddress := Sample.bob;
     a_displayName := "Swift Falcon";
     a_token := "token" |}.

(** The payload of Bob's token. *)
Definition bobPayload : UserJwtPayload :=
  {| jp_walletAddress := Sample.bob;
     jp_displayName := "Swift Falcon";
     jp_userId := "64b000000000000000000001" |}.

(** A signer whose tokens tell the time they were signed at, as far as the
    samples need it. *)
Definition stampedToken : Z -> string -> string -> string -> string :=
  fun now _ _ _ => if now =? 5 then "token.5"%string else "token.9"%string.

(** A verification that reads Bob's payload from every token. *)
Definition verifiesBob : string -> string -> string + UserJwtPayload :=
  fun _ _ => inr bobPayload.

End Scenario.

(* ================================================================== *)
(** ** Properties: address normalization *)

Ltac each_char c := destruct c as [[] [] [] [] [] [] [] []].

Lemma lowerChar_idempotent (c : ascii) : lowerChar (lowerChar c) = lowerChar c.
Proof. each_char c; reflexivity. Qed.

Lemma lowerChar_hex (c : ascii) :
  isHexChar (lowerChar c) = true -> isLowerHexChar (lowerChar c) = true.
Proof. each_char c; vm_compute; intro H; first [reflexivity | discriminate H]. Qed.

Lemma isHexChar_lowerChar (c : ascii) :
  isHexChar c = true -> isHexChar (lowerChar c) = true.
Proof. each_char c; vm_compute; intro H; first [reflexivity | discriminate H]. Qed.

Lemma toLowerCase_idempotent (s : string) :
  toLowerCase (toLowerCase s) = toLowerCase s.
Proof.
  induction s as [|c rest IH]; simpl.
  - reflexivity.
  - now rewrite lowerChar_idempotent, IH.
Qed.

Lemma toLowerCase_length (s : string) :
  String.length (toLowerCase s) = String.length s.
Proof. induction s as [|c rest IH]; simpl; congruence. Qed.

Lemma allChars_lowered (s : string) :
  allChars isHexChar (toLowerCase s) = true ->
  allChars isLowerHexChar (toLowerCase s) = true.
Proof.
  induction s as [|c rest IH]; simpl; [reflexivity|].
  intro H. apply andb_true_iff in H as [Hc Hrest].
  now rewrite (lowerChar_hex c Hc), (IH Hrest).
Qed.

Lemma allChars_toLowerCase (s : string) :
  allChars isHexChar s = true -> allChars isHexChar (toLowerCase s) = true.
Proof.
  induction s as [|c rest IH]; simpl; [reflexivity|].
  intro H. apply andb_true_iff in H as [Hc Hrest].
  now rewrite (isHexChar_lowerChar c Hc), (IH Hrest).
Qed.

(** What a successful test of [/^0x<class>{n}$/] says about the string. *)
Lemma test_0x_inv (class : ascii -> bool) (n : nat) (s : string) :
  test_0x class n s = true ->
  exists digits,
    s = String "0" (String "x" digits)
    /\ String.length digits = n /\ allChars class digits = true.
Proof.
  destruct s as [|c0 [|c1 digits]]; simpl.
  - discriminate.
  - each_char c0; discriminate.
  - each_char c0; try discriminate; each_char c1; try discriminate.
    intro H. apply andb_true_iff in H as [Hlen Hall].
    exists digits. repeat split; [now apply Nat.eqb_eq | exact Hall].
Qed.

Lemma test_0x_lowered (n : nat) (a : string) :
  test_0x isHexChar n (toLowerCase a) = true ->
  test_0x isLowerHexChar n (toLowerCase a) = true.
Proof.
  intro H. destruct (test_0x_inv _ _ _ H) as (digits & Heq & Hlen & Hall).
  destruct a as [|c0 [|c1 rest]]; simpl in Heq; try discriminate.
  injection Heq as H0 H1 Hd.
  simpl. rewrite H0, H1. subst digits.
  rewrite Hlen, Nat.eqb_refl. simpl. now apply allChars_lowered.
Qed.

(** An address that passes the test as it stands passes it lower-cased. *)
Lemma isAddress_normalize (a : string) :
  isAddress a = true -> isAddress (normalize a) = true.
Proof.
  intro H. destruct (test_0x_inv _ _ _ H) as (digits & -> & Hlen & Hall).
  unfold isAddress, normalize. simpl.
  change (lowerChar "0") with "0"%char. change (lowerChar "x") with "x"%char.
  rewrite toLowerCase_length, Hlen. simpl. now apply allChars_toLowerCase.
Qed.

(** C8.  For every wallet address that passes the format check of the
    services (the test [/^0x[a-fA-F0-9]{40}$/] applied to the lower-cased
    address), normalization is idempotent and its result matches
    [/^0x[0-9a-f]{40}$/]. *)
Theorem normalize_idempotent_and_lowercase_hex (a : string) :
  isAddress (normalize a) = true ->
  normalize (normalize a) = normalize a
  /\ isNormalizedAddress (normalize a) = true.
Proof.
  intro H. split.
  - apply toLowerCase_idempotent.
  - now apply test_0x_lowered.
Qed.

Lemma normalize_idempotent_and_lowercase_hex_witness :
  isAddress (normalize Sample.aliceMixed) = true
  /\ normalize (normalize Sample.aliceMixed) = normalize Sample.aliceMixed
  /\ isNormalizedAddress (normalize Sample.aliceMixed) = true.
Proof.
  split; [reflexivity|].
  apply (normalize_idempotent_and_lowercase_hex Sample.aliceMixed). reflexivity.
Defined.

(* ================================================================== *)
(** ** Properties: identifiers as binary64 numbers *)

Lemma toNumber_nearest (z : Z) : toNumber z = Z.sgn z * nearest (Z.abs z).
Proof. reflexivity. Qed.

Lemma nearest_small (a : Z) : a <= 2 ^ 53 -> nearest a = a.
Proof. intro H. unfold nearest. apply Z.leb_le in H. now rewrite H. Qed.

(** Up to 2^53 in magnitude every integer is a number. *)
Lemma toNumber_exact (z : Z) : Z.abs z <= 2 ^ 53 -> toNumber z = z.
Proof.
  intro H. unfold toNumber. rewrite (nearest_small _ H).
  rewrite Z.mul_comm. apply Z.abs_sgn.
Qed.

(** The grid a magnitude beyond 2^53 is rounded on. *)
Lemma grid (a : Z) :
  2 ^ 53 < a ->
  exists e q r,
    Z.log2 a - 52 = e /\ 1 <= e
    /\ a = q * 2 ^ e + r /\ 0 <= r < 2 ^ e /\ 2 ^ 52 <= q < 2 ^ 53
    /\ a / 2 ^ e = q /\ a mod 2 ^ e = r.
Proof.
  intro Ha.
  assert (Hpos : 0 < a) by (pose proof (Z.pow_pos_nonneg 2 53); lia).
  pose proof (Z.log2_spec a Hpos) as [Hlo Hhi].
  assert (Hlog : 53 <= Z.log2 a).
  { apply Z.log2_le_pow2; lia. }
  set (e := Z.log2 a - 52) in *.
  assert (He : 1 <= e) by lia.
  assert (Hulp : 0 < 2 ^ e) by (apply Z.pow_pos_nonneg; lia).
  exists e, (a / 2 ^ e), (a mod 2 ^ e).
  pose proof (Z.div_mod a (2 ^ e) ltac:(lia)) as Hdm.
  pose proof (Z.mod_pos_bound a (2 ^ e) Hulp) as Hr.
  assert (Hsplit : 2 ^ Z.log2 a = 2 ^ 52 * 2 ^ e).
  { rewrite <- Z.pow_add_r by lia. f_equal. lia. }
  assert (Hsplit' : 2 ^ Z.succ (Z.log2 a) = 2 ^ 53 * 2 ^ e).
  { rewrite <- Z.pow_add_r by lia. f_equal. lia. }
  repeat split; try lia.
  - apply Z.div_le_lower_bound; lia.
  - apply Z.div_lt_upper_bound; lia.
Qed.

Lemma nearest_grid (a e q r : Z) :
  2 ^ 53 < a -> Z.log2 a - 52 = e -> a / 2 ^ e = q -> a mod 2 ^ e = r ->
  nearest a
  = (if (2 ^ e <? 2 * r) || ((2 * r =? 2 ^ e) && Z.odd q) then q + 1 else q) * 2 ^ e.
Proof.
  intros Ha <- <- <-. unfold nearest. cbv zeta.
  destruct (a <=? 2 ^ 53) eqn:H; [apply Z.leb_le in H; lia | reflexivity].
Qed.

(** A rounded magnitude lies between the two neighbours on its grid. *)
Lemma nearest_bounds (a : Z) :
  2 ^ 53 < a ->
  exists e q r,
    Z.log2 a - 52 = e /\ 1 <= e
    /\ a = q * 2 ^ e + r /\ 0 <= r < 2 ^ e /\ 2 ^ 52 <= q < 2 ^ 53
    /\ (nearest a = q * 2 ^ e \/ nearest a = (q + 1) * 2 ^ e)
    /\ (nearest a = q * 2 ^ e -> 2 * r <= 2 ^ e)
    /\ (nearest a = (q + 1) * 2 ^ e -> 2 ^ e <= 2 * r)
    /\ (2 * r = 2 ^ e -> nearest a = (if Z.odd q then q + 1 else q) * 2 ^ e).
Proof.
  intro Ha. destruct (grid a Ha) as (e & q & r & He & He1 & Hsum & Hr & Hq & Hdiv & Hmod).
  exists e, q, r. rewrite (nearest_grid a e q r Ha He Hdiv Hmod).
  assert (Hulp : 0 < 2 ^ e) by (apply Z.pow_pos_nonneg; lia).
  repeat split; try lia.
  - destruct (_ || _); auto.
  - destruct (2 ^ e <? 2 * r) eqn:H1; cbn [orb].
    + apply Z.ltb_lt in H1. intro H. nia.
    + apply Z.ltb_ge in H1. lia.
  - destruct (2 ^ e <? 2 * r) eqn:H1; cbn [orb].
    + apply Z.ltb_lt in H1. lia.
    + destruct (2 * r =? 2 ^ e) eqn:H2; cbn [andb].
      * apply Z.eqb_eq in H2. lia.
      * intro H. nia.
  - intro Htie. rewrite Htie, Z.ltb_irrefl, Z.eqb_refl. reflexivity.
Qed.

Lemma nearest_large (a : Z) : 2 ^ 53 < a -> 2 ^ 53 <= nearest a.
Proof.
  intro Ha.
  destruct (nearest_bounds a Ha)
    as (e & q & r & _ & He & _ & Hr & Hq & [Hn|Hn] & _); rewrite Hn.
  - assert (2 ^ 1 <= 2 ^ e) by (apply Z.pow_le_mono_r; lia).
    change (2 ^ 53) with (2 ^ 52 * 2 ^ 1). nia.
  - assert (2 ^ 1 <= 2 ^ e) by (apply Z.pow_le_mono_r; lia).
    change (2 ^ 53) with (2 ^ 52 * 2 ^ 1). nia.
Qed.

(** Rounding keeps the order. *)
Lemma nearest_monotone (a b : Z) : a <= b -> nearest a <= nearest b.
Proof.
  intro Hab.
  destruct (Z_le_gt_dec b (2 ^ 53)) as [Hb|Hb].
  { rewrite !nearest_small by lia. exact Hab. }
  destruct (Z_le_gt_dec a (2 ^ 53)) as [Ha|Ha].
  { rewrite (nearest_small a Ha).
    assert (Hb' : 2 ^ 53 < b) by lia. pose proof (nearest_large b Hb'). lia. }
  assert (Ha' : 2 ^ 53 < a) by lia. assert (Hb' : 2 ^ 53 < b) by lia.
  destruct (nearest_bounds a Ha')
    as (ea & qa & ra & Hea & Hea1 & Hsa & Hra & Hqa & Hna & Hdown_a & Hup_a & Htie_a).
  destruct (nearest_bounds b Hb')
    as (eb & qb & rb & Heb & Heb1 & Hsb & Hrb & Hqb & Hnb & Hdown_b & Hup_b & Htie_b).
  assert (Hle : ea <= eb).
  { pose proof (Z.log2_le_mono a b Hab). lia. }
  assert (Hua : 0 < 2 ^ ea) by (apply Z.pow_pos_nonneg; lia).
  assert (Hub : 0 < 2 ^ eb) by (apply Z.pow_pos_nonneg; lia).
  destruct (Z.eq_dec ea eb) as [Heq|Hne].
  - clear Hea Heb Hle. subst eb. set (u := 2 ^ ea) in *.
    assert (Hq : qa <= qb).
    { destruct (Z_le_gt_dec qa qb) as [?|Hgt]; [assumption|exfalso].
      assert ((qb + 1) * u <= qa * u) by (apply Z.mul_le_mono_nonneg_r; lia).
      lia. }
    destruct (Z.eq_dec qa qb) as [Hqq|Hqq].
    + subst qb. assert (Hr : ra <= rb) by nia.
      destruct Hna as [Hna|Hna]; [destruct Hnb as [Hnb|Hnb]; rewrite Hna, Hnb; nia|].
      destruct Hnb as [Hnb|Hnb]; [|rewrite Hna, Hnb; lia].
      specialize (Hup_a Hna). specialize (Hdown_b Hnb).
      assert (Hta : 2 * ra = u) by lia. assert (Htb : 2 * rb = u) by lia.
      rewrite (Htie_a Hta), (Htie_b Htb). lia.
    + destruct Hna as [Hna|Hna], Hnb as [Hnb|Hnb]; rewrite Hna, Hnb; nia.
  - assert (Hstep : 2 ^ 53 * 2 ^ ea <= 2 ^ 52 * 2 ^ eb).
    { rewrite <- !Z.pow_add_r by lia. apply Z.pow_le_mono_r; lia. }
    destruct Hna as [Hna|Hna], Hnb as [Hnb|Hnb]; rewrite Hna, Hnb; nia.
Qed.

(** A rounded magnitude rounds to itself. *)
Lemma nearest_idempotent (a : Z) : nearest (nearest a) = nearest a.
Proof.
  destruct (Z_le_gt_dec a (2 ^ 53)) as [Ha|Ha].
  { now rewrite !(nearest_small a Ha). }
  assert (Ha' : 2 ^ 53 < a) by lia.
  destruct (nearest_bounds a Ha')
    as (e & q & r & He & He1 & Hs & Hr & Hq & Hn & _).
  assert (Hu : 0 < 2 ^ e) by (apply Z.pow_pos_nonneg; lia).
  assert (Hv : exists q', nearest a = q' * 2 ^ e /\ 2 ^ 52 <= q' <= 2 ^ 53).
  { destruct Hn as [Hn|Hn]; [exists q | exists (q + 1)]; split; auto; lia. }
  destruct Hv as (q' & Hv & Hq'). rewrite Hv.
  destruct (Z_le_gt_dec (q' * 2 ^ e) (2 ^ 53)) as [Hsmall|Hbig].
  { now apply nearest_small. }
  destruct (Z.eq_dec q' (2 ^ 53)) as [Htop|Htop].
  - subst q'.
    assert (Hpow : 2 ^ 53 * 2 ^ e = 2 ^ 52 * 2 ^ (e + 1)).
    { rewrite <- !Z.pow_add_r by lia. f_equal. lia. }
    assert (Hlog : Z.log2 (2 ^ 53 * 2 ^ e) = 53 + e).
    { rewrite <- Z.pow_add_r by lia. apply Z.log2_pow2. lia. }
    assert (Hu' : 0 < 2 ^ (e + 1)) by (apply Z.pow_pos_nonneg; lia).
    rewrite (nearest_grid (2 ^ 53 * 2 ^ e) (e + 1) (2 ^ 52) 0); try lia.
    + replace (2 ^ (e + 1) <? 2 * 0) with false by (symmetry; apply Z.ltb_ge; lia).
      replace (2 * 0 =? 2 ^ (e + 1)) with false by (symmetry; apply Z.eqb_neq; lia).
      cbn [orb andb]. lia.
    + rewrite Hpow. apply Z.div_mul. apply Z.pow_nonzero; lia.
    + rewrite Hpow. apply Z.mod_mul. apply Z.pow_nonzero; lia.
  - assert (Hlog : Z.log2 (q' * 2 ^ e) = 52 + e).
    { apply Z.log2_unique; [lia|]. split.
      - rewrite Z.pow_add_r by lia. nia.
      - replace (Z.succ (52 + e)) with (53 + e) by lia.
        rewrite Z.pow_add_r by lia. nia. }
    rewrite (nearest_grid (q' * 2 ^ e) e q' 0); try lia.
    + replace (2 ^ e <? 2 * 0) with false by (symmetry; apply Z.ltb_ge; lia).
      replace (2 * 0 =? 2 ^ e) with false by (symmetry; apply Z.eqb_neq; lia).
      reflexivity.
    + apply Z.div_mul. lia.
    + apply Z.mod_mul. lia.
Qed.

Lemma nearest_pos (a : Z) : 0 < a -> 0 < nearest a.
Proof.
  intro H. destruct (Z_le_gt_dec a (2 ^ 53)) as [Ha|Ha].
  - now rewrite nearest_small.
  - assert (Ha' : 2 ^ 53 < a) by lia. pose proof (nearest_large a Ha'). lia.
Qed.

Lemma nearest_zero : nearest 0 = 0.
Proof. reflexivity. Qed.

(** [toNumber] keeps the order of the integers. *)
Lemma toNumber_monotone (a b : Z) : a <= b -> toNumber a <= toNumber b.
Proof.
  intro Hab. rewrite !toNumber_nearest.
  destruct (Z_lt_le_dec a 0) as [Ha|Ha], (Z_lt_le_dec b 0) as [Hb|Hb].
  - rewrite !Z.sgn_neg, !Z.abs_neq by lia.
    assert (Hba : - b <= - a) by lia.
    pose proof (nearest_monotone (- b) (- a) Hba). lia.
  - rewrite (Z.sgn_neg a), (Z.abs_neq a) by lia.
    assert (Hna : 0 < - a) by lia.
    pose proof (nearest_pos (- a) Hna).
    destruct (Z.eq_dec b 0) as [->|Hb0]; [change (Z.sgn 0) with 0; lia|].
    rewrite (Z.sgn_pos b), (Z.abs_eq b) by lia.
    assert (Hpb : 0 < b) by lia.
    pose proof (nearest_pos b Hpb). lia.
  - lia.
  - destruct (Z.eq_dec a 0) as [->|Ha0].
    + destruct (Z.eq_dec b 0) as [->|Hb0]; [lia|].
      rewrite (Z.sgn_pos b), (Z.abs_eq b) by lia.
      assert (Hpb : 0 < b) by lia.
      pose proof (nearest_pos b Hpb). change (Z.sgn 0) with 0. lia.
    + rewrite !Z.sgn_pos, !Z.abs_eq by lia.
      pose proof (nearest_monotone a b Hab). lia.
Qed.

(** A number is the number nearest to itself. *)
Lemma toNumber_idempotent (z : Z) : toNumber (toNumber z) = toNumber z.
Proof.
  rewrite (toNumber_nearest z).
  destruct (Z.lt_trichotomy z 0) as [Hz|[->|Hz]].
  - rewrite Z.sgn_neg, Z.abs_neq by lia.
    assert (Hnz : 0 < - z) by lia.
    pose proof (nearest_pos (- z) Hnz) as Hp.
    rewrite toNumber_nearest.
    rewrite Z.sgn_neg, Z.abs_neq by lia.
    replace (- (-1 * nearest (- z))) with (nearest (- z)) by lia.
    now rewrite nearest_idempotent.
  - reflexivity.
  - rewrite Z.sgn_pos, Z.abs_eq by lia.
    pose proof (nearest_pos z Hz) as Hp.
    rewrite toNumber_nearest.
    rewrite Z.sgn_pos, Z.abs_eq by lia.
    replace (1 * nearest z) with (nearest z) by lia.
    rewrite nearest_idempotent. lia.
Qed.

(** Where adding 1 to a number does not get past it, adding 1 to the
    result does not either: the increment is stuck. *)
Lemma increment_stalls (greatest : Z) :
  increment greatest <= greatest ->
  increment (increment greatest) = increment greatest.
Proof.
  unfold increment. intro H.
  pose proof (toNumber_idempotent (greatest + 1)) as Hfix.
  apply Z.le_antisymm.
  - apply toNumber_monotone. lia.
  - rewrite <- Hfix at 1. apply toNumber_monotone. lia.
Qed.

Lemma increment_exact (x : Z) :
  - 2 ^ 53 <= x + 1 <= 2 ^ 53 -> increment x = x + 1.
Proof. intro H. unfold increment. apply toNumber_exact. lia. Qed.

(** Counting up from [candidate] is exact as long as it stays within
    2^53. *)
Lemma iter_increment_exact (candidate : Z) (j : nat) :
  - 2 ^ 53 <= candidate -> candidate + Z.of_nat j <= 2 ^ 53 ->
  Nat.iter j increment candidate = candidate + Z.of_nat j.
Proof.
  intros Hlo. induction j as [|j IH]; intro Hhi.
  - simpl. lia.
  - rewrite Nat.iter_succ, IH by lia. rewrite increment_exact by lia. lia.
Qed.

(** Once the increment is stuck it stays stuck. *)
Lemma iter_increment_stuck (x : Z) (j : nat) :
  increment x = x -> Nat.iter j increment x = x.
Proof.
  intro H. induction j as [|j IH]; [reflexivity|].
  now rewrite Nat.iter_succ, IH.
Qed.

(* ================================================================== *)
(** ** Properties: the allocation of a [splitId] *)

Lemma probeAt_next (lookup : Z -> option ISplit) (candidate : Z) (j : nat) :
  {| pr_splitId := increment (pr_splitId (probeAt lookup candidate j));
     pr_existingSplit := lookup (increment (pr_splitId (probeAt lookup candidate j)));
     pr_attempts := S (pr_attempts (probeAt lookup candidate j)) |}
  = probeAt lookup candidate (S j).
Proof. reflexivity. Qed.

Lemma probeAt_start (lookup : Z -> option ISplit) (candidate : Z) :
  {| pr_splitId := candidate; pr_existingSplit := lookup candidate;
     pr_attempts := 0 |} = probeAt lookup candidate 0.
Proof. reflexivity. Qed.

Lemma isSome_true {A} (o : option A) : o <> None -> isSome o = true.
Proof. destruct o; [reflexivity | congruence]. Qed.

(** The loop stops at the first free identifier when one is met within
    fewer than 100 steps. *)
Lemma probeLoop_finds (lookup : Z -> option ISplit) (candidate : Z) :
  forall (k budget j : nat),
    (j + k < 100)%nat -> (k <= budget)%nat ->
    (forall i, (i < k)%nat ->
               lookup (Nat.iter (j + i) increment candidate) <> None) ->
    lookup (Nat.iter (j + k) increment candidate) = None ->
    probeLoop lookup budget (probeAt lookup candidate j)
    = Some (probeAt lookup candidate (j + k)).
Proof.
  induction k as [|k IH]; intros budget j Hlt Hbudget Htaken Hfree.
  - rewrite Nat.add_0_r in *.
    destruct budget; simpl; rewrite Hfree; reflexivity.
  - destruct budget as [|budget]; [lia|].
    cbn [probeLoop].
    assert (Hj : lookup (Nat.iter j increment candidate) <> None).
    { specialize (Htaken 0%nat). rewrite Nat.add_0_r in Htaken. apply Htaken. lia. }
    replace (isSome (pr_existingSplit (probeAt lookup candidate j))) with true
      by (symmetry; apply isSome_true, Hj).
    replace (pr_attempts (probeAt lookup candidate j) <? 100)%nat with true
      by (symmetry; apply Nat.ltb_lt; simpl; lia).
    cbn [andb]. rewrite probeAt_next.
    replace (j + S k)%nat with (S j + k)%nat by lia.
    apply IH; [lia | lia | | ].
    + intros i Hi. replace (S j + i)%nat with (j + S i)%nat by lia.
      apply Htaken. lia.
    + now replace (S j + k)%nat with (j + S k)%nat by lia.
Qed.

(** The loop gives up after its hundredth probe when every identifier it
    met was taken. *)
Lemma probeLoop_gives_up (lookup : Z -> option ISplit) (candidate : Z) :
  forall (n budget j : nat),
    (j + n = 100)%nat -> (n <= budget)%nat ->
    (forall i, (i < n)%nat ->
               lookup (Nat.iter (j + i) increment candidate) <> None) ->
    probeLoop lookup budget (probeAt lookup candidate j)
    = Some (probeAt lookup candidate 100).
Proof.
  induction n as [|n IH]; intros budget j Hsum Hbudget Htaken.
  - assert (j = 100)%nat as -> by lia.
    destruct budget; simpl; rewrite andb_false_r; reflexivity.
  - destruct budget as [|budget]; [lia|].
    cbn [probeLoop].
    assert (Hj : lookup (Nat.iter j increment candidate) <> None).
    { specialize (Htaken 0%nat). rewrite Nat.add_0_r in Htaken. apply Htaken. lia. }
    replace (isSome (pr_existingSplit (probeAt lookup candidate j))) with true
      by (symmetry; apply isSome_true, Hj).
    replace (pr_attempts (probeAt lookup candidate j) <? 100)%nat with true
      by (symmetry; apply Nat.ltb_lt; simpl; lia).
    cbn [andb]. rewrite probeAt_next.
    apply IH; [lia | lia | ].
    intros i Hi. replace (S j + i)%nat with (j + S i)%nat by lia.
    apply Htaken. lia.
Qed.

(** The loop always ends within its budget of 100 iterations. *)
Lemma probeLoop_terminates (lookup : Z -> option ISplit) :
  forall (budget : nat) (st : Probe),
    (100 - pr_attempts st <= budget)%nat ->
    exists st', probeLoop lookup budget st = Some st'.
Proof.
  induction budget as [|budget IH]; intros st Hb.
  - simpl. replace (pr_attempts st <? 100)%nat with false
      by (symmetry; apply Nat.ltb_ge; lia).
    rewrite andb_false_r. eauto.
  - cbn [probeLoop].
    destruct (isSome (pr_existingSplit st) && (pr_attempts st <? 100)%nat) eqn:Hc;
      [|eauto].
    apply andb_true_iff in Hc as [_ Hc]. apply Nat.ltb_lt in Hc.
    apply IH. cbn [pr_attempts]. lia.
Qed.

Lemma allocateSplitId_never_LoopBudget (maxSplit : option ISplit)
    (lookup : Z -> option ISplit) :
  snd (allocateSplitId maxSplit lookup) <> Err LoopBudget.
Proof.
  unfold allocateSplitId.
  destruct (probeLoop_terminates lookup 100
              {| pr_splitId := candidateOf maxSplit;
                 pr_existingSplit := lookup (candidateOf maxSplit);
                 pr_attempts := 0 |}) as [st Hst]; [simpl; lia|].
  rewrite Hst.
  destruct (100 <=? pr_attempts st)%nat; simpl; discriminate.
Qed.

(** What the allocation answers, by the first free identifier among the
    hundred it can meet. *)
Lemma allocateSplitId_finds (maxSplit : option ISplit)
    (lookup : Z -> option ISplit) (k : nat) :
  (k < 100)%nat ->
  (forall i, (i < k)%nat ->
             lookup (Nat.iter i increment (candidateOf maxSplit)) <> None) ->
  lookup (Nat.iter k increment (candidateOf maxSplit)) = None ->
  allocateSplitId maxSplit lookup
  = (Nat.iter k increment (candidateOf maxSplit),
     Ok (Nat.iter k increment (candidateOf maxSplit))).
Proof.
  intros Hk Htaken Hfree. unfold allocateSplitId. cbv zeta.
  rewrite probeAt_start.
  rewrite (probeLoop_finds lookup _ k 100 0); try lia; auto.
  cbn [pr_attempts probeAt pr_splitId Nat.add].
  replace (100 <=? k)%nat with false by (symmetry; apply Nat.leb_gt; lia).
  reflexivity.
Qed.

Lemma allocateSplitId_gives_up (maxSplit : option ISplit)
    (lookup : Z -> option ISplit) :
  (forall i, (i < 100)%nat ->
             lookup (Nat.iter i increment (candidateOf maxSplit)) <> None) ->
  allocateSplitId maxSplit lookup
  = (Nat.iter 100 increment (candidateOf maxSplit), Err SplitIdExhausted).
Proof.
  intro Htaken. unfold allocateSplitId. cbv zeta.
  rewrite probeAt_start.
  rewrite (probeLoop_gives_up lookup _ 100 100 0); try lia; auto.
Qed.

(** *** Allocation when nobody else writes the store *)

Lemma maxBySplitId_bound (l : list ISplit) (m : ISplit) :
  maxBySplitId l = Some m -> forall s, In s l -> s_splitId s <= s_splitId m.
Proof.
  revert m. induction l as [|x rest IH]; intros m Hm s Hin; [contradiction|].
  simpl in Hm. destruct (maxBySplitId rest) as [m'|] eqn:Hrest.
  - destruct (s_splitId x <? s_splitId m') eqn:Hlt; injection Hm as <-.
    + apply Z.ltb_lt in Hlt. destruct Hin as [<-|Hin]; [lia | now apply IH].
    + apply Z.ltb_ge in Hlt. destruct Hin as [<-|Hin]; [lia|].
      specialize (IH m' eq_refl s Hin). lia.
  - injection Hm as <-. destruct rest as [|y rest'].
    + destruct Hin as [<-|[]]. lia.
    + simpl in Hrest. destruct (maxBySplitId rest'); [destruct (_ <? _)|]; discriminate.
Qed.

Lemma maxBySplitId_In (l : list ISplit) (m : ISplit) :
  maxBySplitId l = Some m -> In m l.
Proof.
  revert m. induction l as [|x rest IH]; intros m Hm; [discriminate|].
  simpl in Hm. destruct (maxBySplitId rest) as [m'|] eqn:Hrest.
  - destruct (s_splitId x <? s_splitId m'); injection Hm as <-.
    + right. now apply IH.
    + now left.
  - injection Hm as <-. now left.
Qed.

Lemma maxBySplitId_empty (l : list ISplit) : maxBySplitId l = None -> l = [].
Proof.
  destruct l as [|x rest]; [reflexivity|]. simpl.
  destruct (maxBySplitId rest); [destruct (_ <? _)|]; discriminate.
Qed.

Lemma find_absent {A} (f : A -> bool) (l : list A) :
  (forall x, In x l -> f x = false) -> find f l = None.
Proof.
  induction l as [|a rest IH]; intro H; [reflexivity|].
  simpl. rewrite (H a (or_introl eq_refl)). apply IH.
  intros x Hx. apply H. now right.
Qed.

(** The candidate of a store is free unless adding 1 to the greatest
    identifier does not get past it, which then leaves the candidate where
    it is however often 1 is added. *)
Lemma nextSplitId_taken (w : World) :
  findBySplitId w (nextSplitId w) <> None ->
  increment (nextSplitId w) = nextSplitId w.
Proof.
  unfold findBySplitId, nextSplitId, candidateOf, findMaxSplit.
  destruct (maxBySplitId (splits w)) as [m|] eqn:Hmax.
  - intro Htaken. apply increment_stalls.
    destruct (find _ (splits w)) as [s|] eqn:Hfind; [|congruence].
    apply find_some in Hfind as [Hin Heq]. apply Z.eqb_eq in Heq.
    pose proof (maxBySplitId_bound _ _ Hmax s Hin). lia.
  - rewrite (maxBySplitId_empty _ Hmax). simpl. congruence.
Qed.

(** The allocation on a store nobody else writes: the candidate when it is
    free; otherwise the loop probes the same identifier 100 times and the
    call fails. *)
Lemma allocate_free (f : Frame) :
  findBySplitId (f_world f) (nextSplitId (f_world f)) = None ->
  allocate f
  = ({| f_world := f_world f; f_splitId := nextSplitId (f_world f);
        f_blockchainResult := f_blockchainResult f |},
     Ok (nextSplitId (f_world f))).
Proof.
  intro Hfree. unfold allocate, allocateSplitId. fold (nextSplitId (f_world f)).
  cbv zeta. rewrite Hfree. reflexivity.
Qed.

Lemma allocate_stuck (f : Frame) :
  findBySplitId (f_world f) (nextSplitId (f_world f)) <> None ->
  allocate f
  = ({| f_world := f_world f; f_splitId := nextSplitId (f_world f);
        f_blockchainResult := f_blockchainResult f |},
     Err SplitIdExhausted).
Proof.
  intro Htaken. unfold allocate.
  pose proof (nextSplitId_taken _ Htaken) as Hstuck.
  rewrite allocateSplitId_gives_up.
  - fold (nextSplitId (f_world f)). now rewrite iter_increment_stuck.
  - intros i _. fold (nextSplitId (f_world f)). now rewrite iter_increment_stuck.
Qed.

(** Either way the store is as it was and the answer is the candidate or
    the failure. *)
Lemma allocate_cases (f : Frame) :
  allocate f
  = ({| f_world := f_world f; f_splitId := nextSplitId (f_world f);
        f_blockchainResult := f_blockchainResult f |},
     if isSome (findBySplitId (f_world f) (nextSplitId (f_world f)))
     then Err SplitIdExhausted else Ok (nextSplitId (f_world f))).
Proof.
  destruct (findBySplitId (f_world f) (nextSplitId (f_world f))) eqn:H.
  - rewrite allocate_stuck by (rewrite H; discriminate). reflexivity.
  - now rewrite allocate_free.
Qed.

(** Below 2^53 identifiers count by one, so the candidate is the greatest
    identifier plus 1 and is free. *)
Lemma nextSplitId_counts (w : World) (m : ISplit) :
  In m (splits w) ->
  (forall s, In s (splits w) -> s_splitId s <= s_splitId m) ->
  - 2 ^ 53 <= s_splitId m + 1 <= 2 ^ 53 ->
  nextSplitId w = s_splitId m + 1.
Proof.
  intros Hin Hmax Hrange. unfold nextSplitId, candidateOf, findMaxSplit.
  destruct (maxBySplitId (splits w)) as [m'|] eqn:Hm'.
  - pose proof (maxBySplitId_bound _ _ Hm' m Hin).
    pose proof (Hmax m' (maxBySplitId_In _ _ Hm')).
    replace (s_splitId m') with (s_splitId m) by lia.
    now apply increment_exact.
  - rewrite (maxBySplitId_empty _ Hm') in Hin. contradiction.
Qed.

Lemma nextSplitId_free (w : World) :
  (forall s, In s (splits w) -> Z.abs (s_splitId s) < 2 ^ 53) ->
  findBySplitId w (nextSplitId w) = None.
Proof.
  intro Hrange.
  unfold findBySplitId, nextSplitId, candidateOf, findMaxSplit.
  destruct (maxBySplitId (splits w)) as [m|] eqn:Hmax.
  - apply find_absent. intros s Hin. apply Z.eqb_neq.
    pose proof (maxBySplitId_bound _ _ Hmax s Hin).
    pose proof (Hrange m (maxBySplitId_In _ _ Hmax)).
    rewrite increment_exact by lia. lia.
  - now rewrite (maxBySplitId_empty _ Hmax).
Qed.

(** C3.  [createSplit] starts from the greatest [splitId] of the store plus
    1, or from 1 when the store is empty, and this as long as the candidate
    and the 100 identifiers above it are at most 2^53, so that adding 1 is
    exact.  If the candidate is taken by the time it is looked up it probes
    upward one identifier at a time: it answers the first free identifier
    when that lies fewer than 100 steps above the candidate, and it fails
    with "Unable to generate unique split ID" after 100 probes when the
    candidate and the 99 identifiers above it are all taken.  When nobody
    else writes the store the candidate is free and is the answer. *)
Theorem allocateSplitId_probes_upward
    (w : World) (lookup : Z -> option ISplit) (candidate : Z) :
  greatestPlusOne w candidate ->
  - 2 ^ 53 <= candidate -> candidate + 100 <= 2 ^ 53 ->
  (forall k : nat,
      (k < 100)%nat ->
      (forall j, (j < k)%nat -> lookup (candidate + Z.of_nat j) <> None) ->
      lookup (candidate + Z.of_nat k) = None ->
      allocateSplitId (findMaxSplit w) lookup
      = (candidate + Z.of_nat k, Ok (candidate + Z.of_nat k)))
  /\
  ((forall j, (j < 100)%nat -> lookup (candidate + Z.of_nat j) <> None) ->
   allocateSplitId (findMaxSplit w) lookup = (candidate + 100, Err SplitIdExhausted))
  /\
  allocateSplitId (findMaxSplit w) (findBySplitId w) = (candidate, Ok candidate).
Proof.
  intros Hspec Hlo Hhi.
  assert (Hcand : candidateOf (findMaxSplit w) = candidate
                  /\ findBySplitId w candidate = None).
  { unfold greatestPlusOne in Hspec.
    destruct (splits w) as [|x rest] eqn:Hsplits.
    - subst candidate. unfold findBySplitId, findMaxSplit. rewrite Hsplits. auto.
    - destruct Hspec as (m & Hin & Hmax & ->). rewrite <- Hsplits in Hin, Hmax.
      split.
      + apply (nextSplitId_counts w m Hin Hmax). lia.
      + apply find_absent. intros s Hs. apply Z.eqb_neq.
        specialize (Hmax s Hs). lia. }
  destruct Hcand as [Hcand Hfree].
  assert (Hiter : forall j, (j <= 100)%nat ->
                    Nat.iter j increment (candidateOf (findMaxSplit w))
                    = candidate + Z.of_nat j).
  { intros j Hj. rewrite Hcand. apply iter_increment_exact; lia. }
  split; [|split].
  - intros k Hk Htaken Hfound.
    rewrite <- (Hiter k) by lia. apply allocateSplitId_finds.
    + exact Hk.
    + intros i Hi. rewrite Hiter by lia. now apply Htaken.
    + now rewrite Hiter by lia.
  - intro Htaken.
    replace (candidate + 100) with (candidate + Z.of_nat 100) by lia.
    rewrite <- (Hiter 100%nat) by lia. apply allocateSplitId_gives_up.
    intros i Hi. rewrite Hiter by lia. now apply Htaken.
  - pose proof (allocateSplitId_finds (findMaxSplit w) (findBySplitId w) 0%nat) as H.
    cbn [Nat.iter nat_rect] in H. rewrite Hcand in H.
    apply H; [lia | intros i Hi; lia | exact Hfree].
Qed.

(** On a store whose greatest identifier is 4: with 5, 6 and 7 taken in the
    meantime the answer is 8; with everything taken the call fails at 105;
    with nobody else writing the answer is 5. *)
Lemma allocateSplitId_probes_upward_witness :
  allocateSplitId (findMaxSplit Sample.upToFour) Sample.taken567 = (8, Ok 8)
  /\ allocateSplitId (findMaxSplit Sample.upToFour) Sample.allTaken
     = (105, Err SplitIdExhausted)
  /\ allocateSplitId (findMaxSplit Sample.upToFour) (findBySplitId Sample.upToFour)
     = (5, Ok 5).
Proof.
  assert (Hspec : greatestPlusOne Sample.upToFour 5).
  { exists (Sample.stored 4 Sample.hash1 Sample.alice 100 []).
    split; [now left|]. split; [|reflexivity].
    intros s [<-|[<-|[]]]; simpl; lia. }
  assert (Hlo : - 2 ^ 53 <= 5) by lia.
  assert (Hhi : 5 + 100 <= 2 ^ 53) by lia.
  split; [|split].
  - apply (proj1 (allocateSplitId_probes_upward Sample.upToFour Sample.taken567 5
                    Hspec Hlo Hhi) 3%nat).
    + lia.
    + intros j Hj. unfold Sample.taken567.
      destruct j as [|[|[|j]]]; [discriminate | discriminate | discriminate | lia].
    + reflexivity.
  - apply (proj1 (proj2 (allocateSplitId_probes_upward Sample.upToFour Sample.allTaken 5
                           Hspec Hlo Hhi))).
    intros j _. discriminate.
  - apply (proj2 (proj2 (allocateSplitId_probes_upward Sample.upToFour
                           (findBySplitId Sample.upToFour) 5 Hspec Hlo Hhi))).
Defined.

(** At 2^53 adding 1 changes nothing: the candidate is the greatest
    identifier itself, the loop probes it 100 times, and the allocation
    fails although the greatest identifier plus 1 is free. *)
Lemma allocateSplitId_stuck_at_2_53 :
  greatestPlusOne Sample.atTheEdge (2 ^ 53 + 1)
  /\ findBySplitId Sample.atTheEdge (2 ^ 53 + 1) = None
  /\ nextSplitId Sample.atTheEdge = 2 ^ 53
  /\ allocateSplitId (findMaxSplit Sample.atTheEdge) (findBySplitId Sample.atTheEdge)
     = (2 ^ 53, Err SplitIdExhausted).
Proof.
  split; [|split; [|split]].
  - exists (Sample.stored (2 ^ 53) Sample.hash1 Sample.alice 100 []).
    split; [now left|]. split; [|reflexivity].
    intros s [<-|[]]. lia.
  - reflexivity.
  - reflexivity.
  - vm_compute. reflexivity.
Qed.

(* ================================================================== *)
(** ** Properties: the amount check *)

(** On binary64 values [x <= y] excludes [y < x]; neither holds of a NaN. *)
Lemma SFleb_not_SFltb (x y : spec_float) :
  SFleb x y = true -> SFltb y x = false.
Proof.
  unfold SFleb, SFltb.
  destruct x as [sx|sx| |sx mx ex], y as [sy|sy| |sy my ey]; simpl;
    try discriminate; try reflexivity;
    try (destruct sx; simpl; discriminate || reflexivity);
    try (destruct sy; simpl; discriminate || reflexivity);
    try (destruct sx, sy; simpl; discriminate || reflexivity).
  destruct sx, sy; simpl; try discriminate; try reflexivity;
    rewrite (Z.compare_antisym ex ey);
    destruct (ex ?= ey)%Z; simpl; try discriminate; try reflexivity;
    change (Pos.compare_cont Eq my mx) with (Pos.compare my mx);
    change (Pos.compare_cont Eq mx my) with (Pos.compare mx my);
    rewrite (Pos.compare_antisym mx my);
    destruct (Pos.compare mx my); simpl; discriminate || reflexivity.
Qed.

Lemma leb_not_ltb (x y : float) :
  (x <=? y)%float = true -> (y <? x)%float = false.
Proof. rewrite leb_spec, ltb_spec. apply SFleb_not_SFltb. Qed.

Lemma checkParticipantAddresses_state {S} (l : list ParticipantInput) (s s' : S)
    (r : Result unit) :
  checkParticipantAddresses l s = (s', r) -> s' = s.
Proof.
  induction l as [|p rest IH]; simpl.
  - unfold ret. congruence.
  - unfold bind, throwIf.
    destruct (negb (isAddress (toLowerCase (pi_walletAddress p)))).
    + unfold throw. congruence.
    + unfold ret. apply IH.
Qed.

Lemma checkParticipantAddresses_error {S} (l : list ParticipantInput) (s s' : S)
    (e : Error) :
  checkParticipantAddresses l s = (s', Err e) -> isInputError e = true.
Proof.
  induction l as [|p rest IH]; simpl.
  - unfold ret. discriminate.
  - unfold bind, throwIf.
    destruct (negb (isAddress (toLowerCase (pi_walletAddress p)))).
    + unfold throw. intro H. injection H as _ <-. reflexivity.
    + unfold ret. apply IH.
Qed.

Lemma checkParticipantAddresses_throws {S} (l : list ParticipantInput) (s s' : S)
    (e : Error) :
  checkParticipantAddresses l s = (s', Err e) ->
  exists address, e = InvalidParticipantAddress address.
Proof.
  induction l as [|p rest IH]; simpl.
  - unfold ret. discriminate.
  - unfold bind, throwIf.
    destruct (negb (isAddress (toLowerCase (pi_walletAddress p)))).
    + unfold throw. intro H. injection H as _ <-. eauto.
    + unfold ret. apply IH.
Qed.

(** The checks on the input read nothing but the input and write nothing. *)
Lemma validateInput_state {S} (creatorAddress : string) (splitData : CreateSplitInput)
    (s s' : S) (r : Result string) :
  validateInput creatorAddress splitData s = (s', r) -> s' = s.
Proof.
  unfold validateInput, checkAmounts, bind, throwIf, throw, ret.
  destruct (negb (isAddress (toLowerCase creatorAddress))); [congruence|].
  destruct (List.length (in_participants splitData) =? 0)%nat; [congruence|].
  destruct (50 <? List.length (in_participants splitData))%nat; [congruence|].
  destruct (differs _ _); [congruence|].
  destruct (checkParticipantAddresses (in_participants splitData) s) as [s1 [u|e]] eqn:Hp;
    apply checkParticipantAddresses_state in Hp; congruence.
Qed.

Lemma validateInput_error {S} (creatorAddress : string) (splitData : CreateSplitInput)
    (s s' : S) (e : Error) :
  validateInput creatorAddress splitData s = (s', Err e) -> isInputError e = true.
Proof.
  unfold validateInput, checkAmounts, bind, throwIf, throw, ret.
  destruct (negb (isAddress (toLowerCase creatorAddress)));
    [intro H; injection H as _ <-; reflexivity|].
  destruct (List.length (in_participants splitData) =? 0)%nat;
    [intro H; injection H as _ <-; reflexivity|].
  destruct (50 <? List.length (in_participants splitData))%nat;
    [intro H; injection H as _ <-; reflexivity|].
  destruct (differs _ _); [intro H; injection H as _ <-; reflexivity|].
  destruct (checkParticipantAddresses (in_participants splitData) s) as [s1 [u|e1]] eqn:Hp.
  - discriminate.
  - intro H. injection H as _ <-. eapply checkParticipantAddresses_error, Hp.
Qed.

(** A mismatch of the amounts stops the checks. *)
Lemma validateInput_differs {S} (creatorAddress : string) (splitData : CreateSplitInput)
    (s : S) :
  differs (calculatedTotal splitData) (in_totalAmount splitData) = true ->
  exists e, validateInput creatorAddress splitData s = (s, Err e)
    /\ (isAddress (toLowerCase creatorAddress) = true ->
        (1 <= List.length (in_participants splitData) <= 50)%nat ->
        e = AmountMismatch (in_totalAmount splitData) (calculatedTotal splitData)).
Proof.
  intro Hd.
  unfold validateInput, checkAmounts, bind, throwIf, throw, ret. rewrite Hd.
  destruct (isAddress (toLowerCase creatorAddress)); simpl.
  2:{ eexists; split; [reflexivity | discriminate]. }
  destruct (List.length (in_participants splitData) =? 0)%nat eqn:H0.
  { eexists; split; [reflexivity|]. apply Nat.eqb_eq in H0. lia. }
  destruct (50 <? List.length (in_participants splitData))%nat eqn:H50.
  { eexists; split; [reflexivity|]. apply Nat.ltb_lt in H50. lia. }
  eexists; split; reflexivity.
Qed.

(** [Split.create] writes nothing when it throws. *)
Lemma Split_create_error (zone : TimeZone) (now : Z)
    (fields : ISplit) (w w' : World) (e : Error) :
  Split_create zone now fields w = (w', Err e) -> w' = w.
Proof.
  unfold Split_create.
  destruct (invalidSplitPath _); [congruence|].
  destruct (existsb _ _); [congruence|].
  destruct (existsb _ _); [congruence | discriminate].
Qed.

(** Nor does the part of [createSplit] that follows the deployment. *)
Lemma persistSplit_error (zone : TimeZone) (now : Z) (normalizedCreator : string)
    (splitData : CreateSplitInput) (splitId : Z) (bc : BlockchainResult)
    (f f' : Frame) (e : Error) :
  persistSplit zone now normalizedCreator splitData splitId bc f = (f', Err e) -> f' = f.
Proof.
  unfold persistSplit, bind, onWorld, get, ret, throwIf, throw. simpl.
  destruct f as [w id bcr]. simpl.
  destruct (findByTxHash w (bc_txHash bc)); simpl; [congruence|].
  destruct (Split_create zone now _ w) as [w1 [d|e1]] eqn:Hc; simpl.
  - destruct (updateCreatorStats now normalizedCreator w1) as [w2 [u|e2]] eqn:Hu;
      simpl; [discriminate|].
    unfold updateCreatorStats, swallow in Hu.
    destruct (bind _ _ w1) in Hu. discriminate.
  - apply Split_create_error in Hc. congruence.
Qed.

(** Amounts that do not differ are not what the checks complain about. *)
Lemma validateInput_amounts_pass {S} (creatorAddress : string)
    (splitData : CreateSplitInput) (s s' : S) (total calculated : number) :
  differs (calculatedTotal splitData) (in_totalAmount splitData) = false ->
  validateInput creatorAddress splitData s <> (s', Err (AmountMismatch total calculated)).
Proof.
  intro Hd. unfold validateInput, checkAmounts, bind, throwIf, throw, ret. rewrite Hd.
  destruct (negb (isAddress (toLowerCase creatorAddress))); [discriminate|].
  destruct (List.length (in_participants splitData) =? 0)%nat; [discriminate|].
  destruct (50 <? List.length (in_participants splitData))%nat; [discriminate|].
  destruct (checkParticipantAddresses (in_participants splitData) s)
    as [s1 [u|e]] eqn:Hp; [discriminate|].
  destruct (checkParticipantAddresses_throws _ _ _ _ Hp) as [address ->].
  discriminate.
Qed.

Section CreateSplit.

Variable deploySplitContract :
  string -> string -> list ParticipantInput -> number -> Deployment.

(** An input the checks refuse makes [createSplit] throw what they threw,
    the store untouched. *)
Lemma createSplit_input_refused (zone : TimeZone) (now : Z) (creatorAddress : string)
    (splitData : CreateSplitInput) (w : World) (e : Error) :
  validateInput creatorAddress splitData (initialFrame w) = (initialFrame w, Err e) ->
  createSplit deploySplitContract zone now creatorAddress splitData w = (w, Err e).
Proof.
  intro Hv. unfold createSplit, createSplit_try, bind. rewrite Hv. reflexivity.
Qed.

(** When [createSplit] throws, the store is as it was, and the error is one
    of the input checks, the failure of the allocation or the failure of
    the deployment: once the contract is deployed [createSplit] does not
    throw. *)
Lemma createSplit_throws (zone : TimeZone) (now : Z) (creatorAddress : string)
    (splitData : CreateSplitInput) (w w' : World) (e : Error) :
  createSplit deploySplitContract zone now creatorAddress splitData w = (w', Err e) ->
  w' = w
  /\ (validateInput creatorAddress splitData (initialFrame w) = (initialFrame w, Err e)
      \/ e = SplitIdExhausted
      \/ exists message, e = DeployFailed message).
Proof.
  unfold createSplit, createSplit_try. unfold bind at 1.
  destruct (validateInput creatorAddress splitData (initialFrame w))
    as [f [normalizedCreator|e0]] eqn:Hv;
    pose proof (validateInput_state _ _ _ _ _ Hv) as ->.
  - unfold bind at 1. rewrite allocate_cases.
    cbn [f_world f_splitId f_blockchainResult initialFrame].
    destruct (isSome (findBySplitId w (nextSplitId w))).
    { intro H. injection H as <- <-. split; [reflexivity | right; now left]. }
    unfold bind at 1. unfold deploy at 1.
    cbn [f_world f_splitId f_blockchainResult initialFrame].
    destruct (deploySplitContract _ _ _ _) as [bc|message].
    + destruct (persistSplit _ _ _ _ _ _) as [f' [response|e']] eqn:Hp;
        [discriminate|].
      apply persistSplit_error in Hp. subst f'. discriminate.
    + cbn [f_world f_blockchainResult]. intro H. injection H as <- <-.
      split; [reflexivity | right; right; eauto].
  - cbn [f_world f_blockchainResult initialFrame]. intro H. injection H as <- <-.
    split; [reflexivity | now left].
Qed.

End CreateSplit.

(** C5.  When the participants' amounts sum (in binary64, as the source
    adds them) to within 0.01 of [totalAmount], the amount check of
    [createSplit] passes and [createSplit] does not throw the amount
    mismatch; when the sum differs from [totalAmount] by more than 0.01,
    [createSplit] throws one of the errors of its input checks, the amount
    mismatch itself once the creator address and the number of participants
    are in order, and the store is left as it was. *)
Theorem createSplit_amount_check
    (deploySplitContract :
       string -> string -> list ParticipantInput -> number -> Deployment)
    (zone : TimeZone) (now : Z) (creatorAddress : string)
    (splitData : CreateSplitInput) (w : World) :
  let calculated := calculatedTotal splitData in
  let total := in_totalAmount splitData in
  ((abs (calculated - total) <=? hundredth)%float = true ->
   checkAmounts splitData (initialFrame w) = (initialFrame w, Ok tt)
   /\ forall w' t c,
        createSplit deploySplitContract zone now creatorAddress splitData w
        <> (w', Err (AmountMismatch t c)))
  /\
  ((hundredth <? abs (calculated - total))%float = true ->
   exists e,
     createSplit deploySplitContract zone now creatorAddress splitData w = (w, Err e)
     /\ isInputError e = true
     /\ (isAddress (toLowerCase creatorAddress) = true ->
         (1 <= List.length (in_participants splitData) <= 50)%nat ->
         e = AmountMismatch total calculated)).
Proof.
  intros calculated total. split.
  - intro Hle.
    assert (Hd : differs calculated total = false)
      by (unfold differs; now rewrite (leb_not_ltb _ _ Hle)).
    split.
    + unfold checkAmounts, throwIf. fold calculated total. now rewrite Hd.
    + intros w' t c H.
      apply createSplit_throws in H as [_ [Hv|[Hm|[message Hm]]]];
        [|discriminate Hm|discriminate Hm].
      revert Hv. now apply validateInput_amounts_pass.
  - intro Hgt.
    destruct (validateInput_differs creatorAddress splitData (initialFrame w) Hgt)
      as (e & Hv & He).
    exists e. split; [|split].
    + now apply createSplit_input_refused.
    + eapply validateInput_error, Hv.
    + exact He.
Qed.

Lemma createSplit_amount_check_witness :
  (checkAmounts Sample.thirty (initialFrame Sample.emptyWorld)
   = (initialFrame Sample.emptyWorld, Ok tt)
   /\ forall w' t c,
        createSplit (Sample.deployed Sample.chain7) Sample.utc 1000 Sample.alice Sample.thirty
          Sample.emptyWorld <> (w', Err (AmountMismatch t c)))
  /\ exists e,
       createSplit (Sample.deployed Sample.chain7) Sample.utc 1000 Sample.alice Sample.short
         Sample.emptyWorld = (Sample.emptyWorld, Err e)
       /\ isInputError e = true
       /\ (isAddress (toLowerCase Sample.alice) = true ->
           (1 <= List.length (in_participants Sample.short) <= 50)%nat ->
           e = AmountMismatch (in_totalAmount Sample.short)
                 (calculatedTotal Sample.short)).
Proof.
  split.
  - apply (createSplit_amount_check (Sample.deployed Sample.chain7) Sample.utc 1000
             Sample.alice Sample.thirty Sample.emptyWorld).
    reflexivity.
  - apply (createSplit_amount_check (Sample.deployed Sample.chain7) Sample.utc 1000
             Sample.alice Sample.short Sample.emptyWorld).
    reflexivity.
Defined.

(* ================================================================== *)
(** ** Properties: creation after the deployment *)

(** [Split.create] keeps the [splitId]s of the store pairwise distinct. *)
Lemma Split_create_distinct (zone : TimeZone) (now : Z) (fields : ISplit) (w w' : World)
    (r : Result ISplit) :
  NoDup (map s_splitId (splits w)) ->
  Split_create zone now fields w = (w', r) ->
  NoDup (map s_splitId (splits w')).
Proof.
  intros Hw. unfold Split_create. cbv zeta.
  destruct (invalidSplitPath _); [congruence|].
  destruct (existsb (fun s => s_splitId s =? _) (splits w)) eqn:Hid; [congruence|].
  destruct (existsb (fun s => String.eqb (s_txHash s) _) (splits w)); [congruence|].
  intro H. injection H as <- _. simpl. rewrite map_app. simpl.
  apply NoDup_app; [exact Hw | repeat constructor; intros [] | ].
  intros a Ha [<-|[]]. apply in_map_iff in Ha as (s & Hs & Hin).
  assert (Hex : existsb (fun x => s_splitId x =? s_splitId (castSplit zone now fields))
                        (splits w) = true).
  { apply existsb_exists. exists s. split; [exact Hin | now apply Z.eqb_eq]. }
  congruence.
Qed.

(** A hash the store already holds makes that part throw the conflict. *)
Lemma persistSplit_duplicate (zone : TimeZone) (now : Z) (normalizedCreator : string)
    (splitData : CreateSplitInput) (splitId : Z) (bc : BlockchainResult) (f : Frame) :
  findByTxHash (f_world f) (bc_txHash bc) <> None ->
  persistSplit zone now normalizedCreator splitData splitId bc f
  = (f, Err (DuplicateTxHash (bc_txHash bc))).
Proof.
  intro Hdup. unfold persistSplit, bind, onWorld, get, ret, throwIf, throw. simpl.
  destruct f as [w id bcr]. simpl in *.
  destruct (findByTxHash w (bc_txHash bc)); [reflexivity | congruence].
Qed.

Section AfterDeployment.

Variable deploySplitContract :
  string -> string -> list ParticipantInput -> number -> Deployment.

(** What [createSplit] does in terms of its four steps, once the input is
    accepted, an identifier allocated and the contract deployed. *)
Lemma createSplit_deployed (zone : TimeZone) (now : Z) (creatorAddress : string)
    (splitData : CreateSplitInput) (w : World) (normalizedCreator : string)
    (bc : BlockchainResult) :
  validateInput creatorAddress splitData (initialFrame w)
  = (initialFrame w, Ok normalizedCreator) ->
  findBySplitId w (nextSplitId w) = None ->
  deploySplitContract normalizedCreator (in_description splitData)
    (in_participants splitData) (in_totalAmount splitData) = Mined bc ->
  createSplit deploySplitContract zone now creatorAddress splitData w
  = match persistSplit zone now normalizedCreator splitData (nextSplitId w) bc
            {| f_world := w; f_splitId := nextSplitId w;
               f_blockchainResult := Some bc |} with
    | (f, Ok response) => (f_world f, Ok response)
    | (f, Err _) =>
        (w, Ok {| r_splitId := finalSplitId bc (nextSplitId w);
                  r_contractAddress := bc_splitAddress bc;
                  r_txHash := bc_txHash bc |})
    end.
Proof.
  intros Hv Hfree Hd. unfold createSplit, createSplit_try.
  unfold bind at 1. rewrite Hv.
  unfold bind at 1. rewrite allocate_free by exact Hfree.
  unfold bind at 1. unfold deploy at 1. cbn [f_world f_splitId f_blockchainResult initialFrame].
  rewrite Hd.
  destruct (persistSplit _ _ _ _ _ _) as [f [response|e]] eqn:Hp; [reflexivity|].
  apply persistSplit_error in Hp. subst f. reflexivity.
Qed.

End AfterDeployment.

(** Once the input is accepted, an identifier allocated and the contract
    deployed, a step that throws does not make [createSplit] throw: the
    answer is built in the [catch] block, and the store is as it was. *)
Lemma createSplit_answers_in_catch
    (deploySplitContract :
       string -> string -> list ParticipantInput -> number -> Deployment)
    (zone : TimeZone) (now : Z) (creatorAddress : string)
    (splitData : CreateSplitInput) (w : World)
    (normalizedCreator : string) (bc : BlockchainResult) (e : Error) :
  validateInput creatorAddress splitData (initialFrame w)
  = (initialFrame w, Ok normalizedCreator) ->
  findBySplitId w (nextSplitId w) = None ->
  deploySplitContract normalizedCreator (in_description splitData)
    (in_participants splitData) (in_totalAmount splitData) = Mined bc ->
  snd (persistSplit zone now normalizedCreator splitData (nextSplitId w) bc
         {| f_world := w; f_splitId := nextSplitId w;
            f_blockchainResult := Some bc |}) = Err e ->
  createSplit deploySplitContract zone now creatorAddress splitData w
  = (w, Ok {| r_splitId := finalSplitId bc (nextSplitId w);
              r_contractAddress := bc_splitAddress bc;
              r_txHash := bc_txHash bc |}).
Proof.
  intros Hv Hfree Hd Hp.
  rewrite (createSplit_deployed deploySplitContract zone now creatorAddress splitData w
             normalizedCreator bc Hv Hfree Hd).
  destruct (persistSplit _ _ _ _ _ _) as [f [response|e']]; [discriminate|].
  reflexivity.
Qed.


(** Where the [splitId] of the blockchain result is not zero and at most
    2^53, the answer of the [catch] block carries it. *)
Example createSplit_answers_from_blockchain_result :
  createSplit (Sample.deployed Sample.chain7') Sample.utc 2000 Sample.alice
    Sample.dinner Sample.afterDinner
  = (Sample.afterDinner,
     Ok {| r_splitId := 7; r_contractAddress := Sample.contract2;
           r_txHash := Sample.hash2 |}).
Proof. vm_compute. reflexivity. Qed.

(** Whenever the hash of the deployment is already stored, [createSplit]
    answers as if the split had been created, and stores nothing. *)
Lemma createSplit_duplicate_txHash
    (deploySplitContract :
       string -> string -> list ParticipantInput -> number -> Deployment)
    (zone : TimeZone) (now : Z) (creatorAddress : string)
    (splitData : CreateSplitInput) (w : World)
    (normalizedCreator : string) (bc : BlockchainResult) :
  validateInput creatorAddress splitData (initialFrame w)
  = (initialFrame w, Ok normalizedCreator) ->
  findBySplitId w (nextSplitId w) = None ->
  deploySplitContract normalizedCreator (in_description splitData)
    (in_participants splitData) (in_totalAmount splitData) = Mined bc ->
  findByTxHash w (bc_txHash bc) <> None ->
  createSplit deploySplitContract zone now creatorAddress splitData w
  = (w, Ok {| r_splitId := finalSplitId bc (nextSplitId w);
              r_contractAddress := bc_splitAddress bc;
              r_txHash := bc_txHash bc |}).
Proof.
  intros Hv Hfree Hd Hdup.
  rewrite (createSplit_deployed deploySplitContract zone now creatorAddress splitData w
             normalizedCreator bc Hv Hfree Hd).
  now rewrite persistSplit_duplicate.
Qed.

(** C1, at the failing input.  Alice's dinner split is stored with the hash
    of its transaction; a second call whose deployment answers the same hash
    finds that hash in the store, throws the conflict inside its [try] block,
    and its [catch] block turns the conflict into a successful answer.  No
    second record is stored. *)
Theorem createSplit_txHash_conflict_is_swallowed :
  isSome (findByTxHash Sample.afterDinner (bc_txHash Sample.chain7)) = true
  /\ createSplit_try (Sample.deployed Sample.chain7) Sample.utc 2000 Sample.alice Sample.dinner
       (initialFrame Sample.afterDinner)
     = ({| f_world := Sample.afterDinner; f_splitId := 8;
           f_blockchainResult := Some Sample.chain7 |},
        Err (DuplicateTxHash Sample.hash1))
  /\ createSplit (Sample.deployed Sample.chain7) Sample.utc 2000 Sample.alice Sample.dinner
       Sample.afterDinner
     = (Sample.afterDinner,
        Ok {| r_splitId := 7; r_contractAddress := Sample.contract1;
              r_txHash := Sample.hash1 |}).
Proof. repeat split; vm_compute; reflexivity. Qed.

(** The example of the specification: Alice's dinner split is stored as
    [pending], with two participants who have not paid. *)
Example createSplit_dinner :
  option_map (fun d => (s_status d, s_creatorAddress d, map p_hasPaid (s_participants d)))
    (getSplitById Sample.afterDinner 7)
  = Some (pending, Sample.alice, [false; false]).
Proof. vm_compute. reflexivity. Qed.

(** A deployment that throws makes [createSplit] throw, the store untouched. *)
Example createSplit_undeployed :
  createSplit Sample.undeployed Sample.utc 1000 Sample.alice Sample.dinner Sample.emptyWorld
  = (Sample.emptyWorld, Err (DeployFailed "RPC is not configured")).
Proof. vm_compute. reflexivity. Qed.

(** The placeholder variant draws the hash again when it collides, and
    creates the split under the new hash. *)
Example createSplit_mock_redraws :
  let draws := {| mockTxHash := Sample.hash1; redrawnTxHash := Sample.hash2;
                  mockBlockNumber := 18000000 |} in
  isSome (findByTxHash Sample.afterDinner (mockTxHash draws)) = true
  /\ snd (createSplit_mock draws Sample.utc 2000 Sample.alice Sample.dinner Sample.afterDinner)
     = Ok {| mr_splitId := 8;
             mr_contractAddress := "0x0000000000000000000000000000000000000000" |}
  /\ map s_txHash
         (splits (fst (createSplit_mock draws Sample.utc 2000 Sample.alice Sample.dinner
                         Sample.afterDinner)))
     = [Sample.hash1; Sample.hash2].
Proof. repeat split; vm_compute; reflexivity. Qed.


(* ================================================================== *)
(** ** Properties: the listing of a user's splits *)

(** C4, at the failing input.  Alice created split 1 and takes part in the
    newer split 2.  Asked to skip one entry, [getSplits] hands [skip] to both
    store queries, each of which then returns nothing, and skips once more
    after the merge: the listing is empty.  The union of her created and
    joined splits, newest first, with one entry skipped, is split 1. *)
Theorem getSplits_skips_before_and_after_merge :
  map s_splitId (getSplitsByCreator Sample.twoSplits Sample.alice noOptions) = [1]
  /\ map (fun e => s_splitId (e_split e))
         (getSplitsByParticipant Sample.twoSplits Sample.alice noOptions) = [2]
  /\ map s_splitId (getSplits_spec Sample.twoSplits Sample.alice Sample.skipOne) = [1]
  /\ findByCreator Sample.twoSplits Sample.alice Sample.skipOne = []
  /\ findByParticipant Sample.twoSplits Sample.alice Sample.skipOne = []
  /\ getSplits Sample.twoSplits Sample.alice Sample.skipOne = Ok [].
Proof. repeat split; vm_compute; reflexivity. Qed.

(** Without [skip] and [limit] the same store lists both splits. *)
Example getSplits_unpaged_sample :
  match getSplits Sample.twoSplits Sample.alice noOptions with
  | Ok l => map (fun e => (s_splitId (e_split e), e_isCreator e, e_youPaid e)) l
  | Err _ => []
  end = [(2, false, false); (1, true, true)].
Proof. vm_compute. reflexivity. Qed.

(* ================================================================== *)
(** ** Properties: authentication *)

(** A signature that does not verify stops [verifyCredentials] at one of its
    four checks, before it reads or writes the store. *)
Lemma verifyCredentials_mismatch
    (verifyMessage : string -> string -> option string)
    (generateNameFromAddress : string -> string)
    (jwtSign : Z -> string -> string -> string -> string)
    (newObjectId : World -> string)
    (now : Z) (walletAddress signature : string) (w : World) :
  verifySignature verifyMessage MESSAGE_TO_SIGN signature (toLowerCase walletAddress)
  = false ->
  verifyCredentials verifyMessage generateNameFromAddress jwtSign newObjectId
    now walletAddress signature w
  = (w, Err (refusal walletAddress signature)).
Proof.
  intro Hsig.
  unfold verifyCredentials, refusal, bind, throwIf, throw, ret. rewrite Hsig.
  destruct (negb (truthy walletAddress) || negb (truthy signature)); [reflexivity|].
  destruct (negb (isAddress (toLowerCase walletAddress))); [reflexivity|].
  destruct (negb (isSignature signature)); reflexivity.
Qed.

(** C7, at the failing input.  The signature recovers Bob's address and
    is presented with Alice's.  [verifyCredentials] rejects, the store is
    left as it was and no user is created; but what it throws is a plain
    [Error], "Invalid signature: Signature does not match the wallet
    address", with neither a status nor an error code, and the error
    handler answers it with its default, status 500 and
    [INTERNAL_SERVER_ERROR]: it is not an unauthorized error. *)
Theorem verifyCredentials_mismatch_is_not_unauthorized :
  verifySignature Sample.recoversBob MESSAGE_TO_SIGN Sample.signature1
    (toLowerCase Sample.alice) = false
  /\ verifyCredentials Sample.recoversBob Sample.nameOf Sample.tokenOf Sample.idOf
       5 Sample.alice Sample.signature1 Sample.emptyWorld
     = (Sample.emptyWorld, Err SignatureMismatch)
  /\ findByWallet Sample.emptyWorld Sample.alice = None
  /\ ce_status (thrown SignatureMismatch) = None
  /\ ce_errorCode (thrown SignatureMismatch) = None
  /\ errorHandler (thrown SignatureMismatch)
     = {| er_status := 500; er_errorCode := INTERNAL_SERVER_ERROR;
          er_error := SignatureMismatch |}
  /\ authHook Sample.recoversBob Sample.nameOf Sample.tokenOf Sample.idOf
       5 Sample.alice Sample.signature1 Sample.emptyWorld
     = (Sample.emptyWorld,
        Refused {| er_status := 500; er_errorCode := INTERNAL_SERVER_ERROR;
                   er_error := SignatureMismatch |}).
Proof. repeat split; vm_compute; reflexivity. Qed.

(** Whatever the inputs, a signature that does not verify leaves the user
    store as it was. *)
Lemma verifyCredentials_mismatch_writes_nothing
    (verifyMessage : string -> string -> option string)
    (generateNameFromAddress : string -> string)
    (jwtSign : Z -> string -> string -> string -> string)
    (newObjectId : World -> string)
    (now : Z) (walletAddress signature : string) (w : World) :
  verifySignature verifyMessage MESSAGE_TO_SIGN signature (toLowerCase walletAddress)
  = false ->
  fst (verifyCredentials verifyMessage generateNameFromAddress jwtSign newObjectId
         now walletAddress signature w) = w
  /\ (truthy walletAddress = true -> truthy signature = true ->
      isAddress (toLowerCase walletAddress) = true ->
      isSignature signature = true ->
      snd (verifyCredentials verifyMessage generateNameFromAddress jwtSign newObjectId
             now walletAddress signature w) = Err SignatureMismatch).
Proof.
  intro Hsig.
  rewrite (verifyCredentials_mismatch verifyMessage generateNameFromAddress jwtSign
             newObjectId now walletAddress signature w Hsig).
  split; [reflexivity|]. unfold refusal.
  intros -> -> -> ->. reflexivity.
Qed.

(** The same wallet and signature are accepted when the signature does
    verify, and it is then that the user is created. *)
Example verifyCredentials_accepts_match :
  map u_walletAddress
      (users (fst (verifyCredentials Sample.recoversBob Sample.nameOf Sample.tokenOf
                     Sample.idOf 5 Sample.bob Sample.signature1 Sample.emptyWorld)))
  = [Sample.bob].
Proof. vm_compute. reflexivity. Qed.

(** X2.  The controller answers a wallet address and a signature that does
    not verify through the error handler, and since the error of the
    service carries neither a status nor an error code, the answer is the
    handler's default: status 500, [INTERNAL_SERVER_ERROR].  The store is
    left as it was. *)
Theorem authHook_answers_mismatch_with_500
    (verifyMessage : string -> string -> option string)
    (generateNameFromAddress : string -> string)
    (jwtSign : Z -> string -> string -> string -> string)
    (newObjectId : World -> string)
    (now : Z) (walletAddress signature : string) (w : World) :
  truthy walletAddress = true ->
  truthy signature = true ->
  verifySignature verifyMessage MESSAGE_TO_SIGN signature (toLowerCase walletAddress)
  = false ->
  exists e,
    authHook verifyMessage generateNameFromAddress jwtSign newObjectId
      now walletAddress signature w
    = (w, Refused {| er_status := 500; er_errorCode := INTERNAL_SERVER_ERROR;
                     er_error := e |}).
Proof.
  intros Hw Hs Hsig.
  exists (refusal walletAddress signature). unfold authHook.
  rewrite Hw, Hs.
  now rewrite (verifyCredentials_mismatch verifyMessage generateNameFromAddress
                 jwtSign newObjectId now walletAddress signature w Hsig).
Qed.

Lemma authHook_answers_mismatch_with_500_witness :
  exists e,
    authHook Sample.recoversBob Sample.nameOf Sample.tokenOf Sample.idOf
      5 Sample.alice Sample.signature1 Sample.emptyWorld
    = (Sample.emptyWorld,
       Refused {| er_status := 500; er_errorCode := INTERNAL_SERVER_ERROR;
                  er_error := e |}).
Proof.
  apply (authHook_answers_mismatch_with_500 Sample.recoversBob Sample.nameOf
           Sample.tokenOf Sample.idOf 5 Sample.alice Sample.signature1
           Sample.emptyWorld); reflexivity.
Defined.

(* ================================================================== *)
(** ** Properties: the listing without [skip] and [limit] *)

Lemma existsb_eqb_In (k : Z) (seen : list Z) :
  existsb (Z.eqb k) seen = true <-> In k seen.
Proof.
  rewrite existsb_exists. split.
  - intros (x & Hin & Heq). apply Z.eqb_eq in Heq. now subst.
  - intro Hin. exists k. split; [exact Hin | apply Z.eqb_refl].
Qed.

Lemma insertNewestFirst_In (s x : ISplit) (l : list ISplit) :
  In x (insertNewestFirst s l) -> x = s \/ In x l.
Proof.
  induction l as [|y rest IH]; simpl.
  - intros [<-|[]]. now left.
  - destruct (s_createdAt y <=? s_createdAt s); simpl.
    + intros [<-|H]; [now left | now right].
    + intros [<-|H]; [right; now left|].
      destruct (IH H) as [->|Hin]; [now left | right; now right].
Qed.

Lemma sortNewestFirst_In (x : ISplit) (l : list ISplit) :
  In x (sortNewestFirst l) -> In x l.
Proof.
  induction l as [|y rest IH]; simpl; [auto|].
  intro H. destruct (insertNewestFirst_In _ _ _ H) as [->|Hin]; [now left|].
  right. now apply IH.
Qed.

Section Merge.

(** The documents of a store whose [splitId]s are pairwise distinct. *)
Variable stored : list ISplit.
Hypothesis distinct : NoDup (map s_splitId stored).

Lemma same_splitId (x y : ISplit) :
  In x stored -> In y stored -> s_splitId x = s_splitId y -> x = y.
Proof using distinct.
  clear -distinct. induction stored as [|a rest IH]; simpl; [contradiction|].
  inversion distinct as [|? ? Hnotin Hrest]; subst.
  intros [<-|Hx] [<-|Hy] Heq.
  - reflexivity.
  - exfalso. apply Hnotin. rewrite Heq. now apply in_map.
  - exfalso. apply Hnotin. rewrite <- Heq. now apply in_map.
  - now apply IH.
Qed.

Lemma mapSet_known (v : ISplit) (m : list (Z * ISplit)) :
  wellKeyed stored m -> In v stored -> In (s_splitId v) (map fst m) ->
  mapSet (s_splitId v) v m = m.
Proof using distinct.
  intros Hm Hv. induction m as [|[k' v'] rest IH]; simpl; [contradiction|].
  intro Hin. destruct (Hm k' v' (or_introl eq_refl)) as [Hk' Hv'].
  destruct (k' =? s_splitId v) eqn:Heq.
  - apply Z.eqb_eq in Heq.
    now rewrite (same_splitId v' v Hv' Hv (eq_trans Hk' Heq)).
  - apply Z.eqb_neq in Heq. destruct Hin as [Hin|Hin]; [congruence|].
    rewrite IH; [reflexivity | | exact Hin].
    intros k x Hx. apply Hm. now right.
Qed.

Lemma mapSet_new (k : Z) (v : ISplit) (m : list (Z * ISplit)) :
  ~ In k (map fst m) -> mapSet k v m = m ++ [(k, v)].
Proof.
  induction m as [|[k' v'] rest IH]; simpl; [reflexivity|].
  intro Hnotin. destruct (k' =? k) eqn:Heq.
  - apply Z.eqb_eq in Heq. exfalso. apply Hnotin. now left.
  - rewrite IH; [reflexivity|]. intro H. apply Hnotin. now right.
Qed.

(** Filling the map from a list of stored documents keeps the first
    document of every [splitId], in the order of the list. *)
Lemma setAll_dedupe (l : list ISplit) :
  forall m,
    wellKeyed stored m -> (forall x, In x l -> In x stored) ->
    map snd (setAll l m) = map snd m ++ dedupeBySplitId (map fst m) l.
Proof using distinct.
  unfold setAll. induction l as [|x rest IH]; intros m Hm Hl; simpl.
  - now rewrite app_nil_r.
  - assert (Hx : In x stored) by (apply Hl; now left).
    assert (Hrest : forall y, In y rest -> In y stored)
      by (intros y Hy; apply Hl; now right).
    destruct (existsb (Z.eqb (s_splitId x)) (map fst m)) eqn:Hseen.
    + apply existsb_eqb_In in Hseen.
      rewrite (mapSet_known x m Hm Hx Hseen). now apply IH.
    + assert (Hnew : ~ In (s_splitId x) (map fst m)).
      { intro H. apply existsb_eqb_In in H. congruence. }
      rewrite (mapSet_new _ x m Hnew). rewrite IH.
      * rewrite !map_app. simpl. now rewrite <- app_assoc.
      * intros k v Hin. apply in_app_or in Hin as [Hin|[Heq|[]]].
        -- now apply Hm.
        -- injection Heq as <- <-. split; [reflexivity | exact Hx].
      * exact Hrest.
Qed.

End Merge.

Lemma cursor_unpaged (opts : QueryOptions) (l : list ISplit) :
  given (o_skip opts) = None -> given (o_limit opts) = None -> cursor opts l = l.
Proof. intros Hs Hl. unfold cursor. now rewrite Hs, Hl. Qed.

Lemma enrich_split (w : World) (requester : string) (l : list ISplit) :
  map e_split (map (enrich w requester) l) = l.
Proof. induction l as [|x rest IH]; simpl; [reflexivity | now rewrite IH]. Qed.

(** X1.  When neither [skip] nor [limit] is asked for, and the [splitId]s of the
    store are pairwise distinct (its unique index), [getSplits] lists the
    splits the address created and those it takes part in, of the status
    asked for, once each, newest first. *)
Theorem getSplits_unpaged_is_union
    (w : World) (walletAddress : string) (opts : QueryOptions) :
  NoDup (map s_splitId (splits w)) ->
  isAddress (normalize walletAddress) = true ->
  given (o_skip opts) = None ->
  given (o_limit opts) = None ->
  exists listing,
    getSplits w walletAddress opts = Ok listing
    /\ map e_split listing = getSplits_spec w walletAddress opts.
Proof.
  intros Hdistinct Haddr Hskip Hlimit.
  unfold getSplits. unfold normalize in Haddr. rewrite Haddr. cbn [negb].
  eexists. split; [reflexivity|].
  rewrite enrich_split.
  unfold getSplits_spec, getSplitsByCreator, getSplitsByParticipant, selectSplits.
  rewrite enrich_split, Hskip, Hlimit.
  rewrite (cursor_unpaged opts) by assumption.
  unfold findByCreator, findByParticipant.
  rewrite !(cursor_unpaged opts) by assumption.
  unfold cursor at 1 2. cbn [o_skip o_limit given].
  unfold statusMatches. cbn [o_status].
  match goal with
  | |- context [setAll ?j (setAll ?c [])] => set (joined := j); set (created := c)
  end.
  f_equal.
  assert (Hc : forall x, In x created -> In x (splits w)).
  { intros x Hx. apply sortNewestFirst_In in Hx. now apply filter_In in Hx. }
  assert (Hj : forall x, In x joined -> In x (splits w)).
  { intros x Hx. apply sortNewestFirst_In in Hx. now apply filter_In in Hx. }
  assert (Hall : forall x, In x (created ++ joined) -> In x (splits w)).
  { intros x Hx. apply in_app_or in Hx as [Hx|Hx]; auto. }
  replace (setAll joined (setAll created []))
    with (setAll (created ++ joined) [])
    by (unfold setAll; apply fold_left_app).
  rewrite (setAll_dedupe (splits w) Hdistinct (created ++ joined) []);
    [reflexivity | intros k v [] | exact Hall].
Qed.

Lemma getSplits_unpaged_is_union_witness :
  exists listing,
    getSplits Sample.twoSplits Sample.alice noOptions = Ok listing
    /\ map e_split listing = getSplits_spec Sample.twoSplits Sample.alice noOptions.
Proof.
  apply (getSplits_unpaged_is_union Sample.twoSplits Sample.alice noOptions).
  - simpl. repeat constructor; simpl; intuition discriminate.
  - reflexivity.
  - reflexivity.
  - reflexivity.
Defined.

(* ================================================================== *)
(** ** Properties: trimming and lower-casing addresses *)

Lemma rev_string_append (s acc : string) :
  rev_string acc s = (rev_string EmptyString s ++ acc)%string.
Proof.
  revert acc. induction s as [|c rest IH]; intro acc; simpl; [reflexivity|].
  rewrite (IH (String c acc)), (IH (String c EmptyString)).
  clear IH. induction (rev_string EmptyString rest) as [|x r IHr]; simpl;
    [reflexivity | now rewrite IHr].
Qed.

Lemma append_empty (s : string) : (s ++ EmptyString)%string = s.
Proof. induction s as [|c rest IH]; simpl; [reflexivity | now rewrite IH]. Qed.

Lemma append_assoc (a b c : string) :
  ((a ++ b) ++ c)%string = (a ++ (b ++ c))%string.
Proof. induction a as [|x rest IH]; simpl; [reflexivity | now rewrite IH]. Qed.

Lemma rev_string_app (s t : string) :
  rev_string EmptyString (s ++ t)
  = (rev_string EmptyString t ++ rev_string EmptyString s)%string.
Proof.
  induction s as [|c rest IH].
  - cbn [append rev_string]. now rewrite append_empty.
  - cbn [append rev_string].
    rewrite (rev_string_append (rest ++ t) (String c EmptyString)), IH.
    rewrite (rev_string_append rest (String c EmptyString)).
    now rewrite append_assoc.
Qed.

Lemma rev_string_involutive (s : string) :
  rev_string EmptyString (rev_string EmptyString s) = s.
Proof.
  induction s as [|c rest IH]; simpl; [reflexivity|].
  rewrite (rev_string_append rest (String c EmptyString)), rev_string_app, IH.
  reflexivity.
Qed.

Lemma allChars_append (p : ascii -> bool) (s t : string) :
  allChars p (s ++ t) = allChars p s && allChars p t.
Proof.
  induction s as [|c rest IH]; simpl; [reflexivity|].
  now rewrite IH, andb_assoc.
Qed.

Lemma allChars_rev (p : ascii -> bool) (s : string) :
  allChars p (rev_string EmptyString s) = allChars p s.
Proof.
  induction s as [|c rest IH]; simpl; [reflexivity|].
  rewrite (rev_string_append rest (String c EmptyString)), allChars_append, IH. simpl.
  rewrite andb_true_r. apply andb_comm.
Qed.

Lemma trimStart_solid (s : string) :
  allChars (fun c => negb (isSpace c)) s = true -> trimStart s = s.
Proof.
  destruct s as [|c rest]; simpl; [reflexivity|].
  intro H. apply andb_true_iff in H as [Hc _].
  now apply negb_true_iff in Hc as ->.
Qed.

(** A string without white space is its own trimming. *)
Lemma trim_solid (s : string) :
  allChars (fun c => negb (isSpace c)) s = true -> trim s = s.
Proof.
  intro H. unfold trim. rewrite (trimStart_solid s H).
  rewrite trimStart_solid by now rewrite allChars_rev.
  apply rev_string_involutive.
Qed.

Lemma allChars_weaken (p q : ascii -> bool) (s : string) :
  (forall c, p c = true -> q c = true) ->
  allChars p s = true -> allChars q s = true.
Proof.
  intro Hpq. induction s as [|c rest IH]; simpl; [reflexivity|].
  intro H. apply andb_true_iff in H as [Hc Hrest].
  now rewrite (Hpq c Hc), (IH Hrest).
Qed.

Lemma isHexChar_solid (c : ascii) : isHexChar c = true -> negb (isSpace c) = true.
Proof. each_char c; vm_compute; intro H; first [reflexivity | discriminate H]. Qed.

(** What matches [/^0x[a-fA-F0-9]{n}$/] has no white space to trim. *)
Lemma test_0x_trim (n : nat) (s : string) :
  test_0x isHexChar n s = true -> trim s = s.
Proof.
  intro H. destruct (test_0x_inv _ _ _ H) as (digits & -> & _ & Hall).
  apply trim_solid. simpl.
  apply (allChars_weaken _ _ _ isHexChar_solid Hall).
Qed.

(** A normalized address goes through the setters of the schema unchanged. *)
Lemma normalized_cast (a : string) :
  isAddress (toLowerCase a) = true ->
  toLowerCase (trim (toLowerCase a)) = toLowerCase a.
Proof.
  intro H. rewrite (test_0x_trim 40 _ H). apply toLowerCase_idempotent.
Qed.

(* ================================================================== *)
(** ** Properties: what [createSplit] accepts and what it stores *)

Lemma checkParticipantAddresses_finds {S} (l : list ParticipantInput) (s : S)
    (p : ParticipantInput) :
  find (fun p => negb (isAddress (toLowerCase (pi_walletAddress p)))) l = Some p ->
  checkParticipantAddresses l s
  = (s, Err (InvalidParticipantAddress (pi_walletAddress p))).
Proof.
  induction l as [|x rest IH]; simpl; [discriminate|].
  unfold bind, throwIf.
  destruct (negb (isAddress (toLowerCase (pi_walletAddress x)))).
  - intro H. injection H as <-. reflexivity.
  - unfold ret. exact IH.
Qed.

Lemma checkParticipantAddresses_passes {S} (l : list ParticipantInput) (s : S) :
  forallb (fun p => isAddress (toLowerCase (pi_walletAddress p))) l = true ->
  checkParticipantAddresses l s = (s, Ok tt).
Proof.
  induction l as [|x rest IH]; simpl; [reflexivity|].
  intro H. apply andb_true_iff in H as [Hx Hrest].
  unfold bind, throwIf. rewrite Hx. simpl. unfold ret. now apply IH.
Qed.

(** An accepted input passes the checks, which answer the creator's address
    in lower case. *)
Lemma validateInput_accepted {S} (creatorAddress : string)
    (splitData : CreateSplitInput) (s : S) :
  inputAccepted creatorAddress splitData = true ->
  validateInput creatorAddress splitData s = (s, Ok (toLowerCase creatorAddress)).
Proof.
  unfold inputAccepted. intro H.
  apply andb_true_iff in H as [H Hall]. apply andb_true_iff in H as [H Hd].
  apply andb_true_iff in H as [H H50]. apply andb_true_iff in H as [Ha H1].
  apply Nat.leb_le in H1, H50. apply negb_true_iff in Hd.
  unfold validateInput, checkAmounts, bind, throwIf, throw, ret.
  rewrite Ha, Hd. cbn [negb].
  replace (List.length (in_participants splitData) =? 0)%nat with false
    by (symmetry; apply Nat.eqb_neq; lia).
  replace (50 <? List.length (in_participants splitData))%nat with false
    by (symmetry; apply Nat.ltb_ge; lia).
  now rewrite checkParticipantAddresses_passes.
Qed.

(** An input that is not accepted is refused by one of the checks. *)
Lemma validateInput_refused {S} (creatorAddress : string)
    (splitData : CreateSplitInput) (s : S) :
  inputAccepted creatorAddress splitData = false ->
  exists e, validateInput creatorAddress splitData s = (s, Err e).
Proof.
  unfold inputAccepted. intro H.
  destruct (validateInput creatorAddress splitData s) as [s' [v|e]] eqn:Hv.
  - exfalso. revert Hv.
    unfold validateInput, checkAmounts, bind, throwIf, throw, ret.
    destruct (isAddress (toLowerCase creatorAddress)); cbn [negb]; [|discriminate].
    destruct (List.length (in_participants splitData) =? 0)%nat eqn:H0; [discriminate|].
    destruct (50 <? List.length (in_participants splitData))%nat eqn:H50; [discriminate|].
    destruct (differs _ _); [discriminate|].
    apply Nat.eqb_neq in H0. apply Nat.ltb_ge in H50.
    replace (1 <=? List.length (in_participants splitData))%nat with true in H
      by (symmetry; apply Nat.leb_le; lia).
    replace (List.length (in_participants splitData) <=? 50)%nat with true in H
      by (symmetry; apply Nat.leb_le; lia).
    cbn [andb negb] in H.
    destruct (checkParticipantAddresses (in_participants splitData) s)
      as [s1 [u|e]] eqn:Hp; [|discriminate].
    intros _. clear -H Hp. revert H Hp.
    induction (in_participants splitData) as [|x rest IH]; simpl; [discriminate|].
    unfold bind, throwIf.
    destruct (isAddress (toLowerCase (pi_walletAddress x))); cbn [negb andb].
    + unfold ret. apply IH.
    + unfold throw. discriminate.
  - rewrite (validateInput_state _ _ _ _ _ Hv). eauto.
Qed.

(** X3.  [createSplit] checks its input in this order and stores nothing
    when a check fails: a creator address that is not 0x and 40 hexadecimal
    digits once in lower case; an empty list of participants; more than 50
    participants; amounts that differ from the total (C5); and then the
    first participant, in the order given, whose address is malformed, named
    in the error as it was given. *)
Theorem createSplit_input_checks_in_order
    (deploySplitContract :
       string -> string -> list ParticipantInput -> number -> Deployment)
    (zone : TimeZone) (now : Z) (creatorAddress : string)
    (splitData : CreateSplitInput) (w : World) :
  (isAddress (toLowerCase creatorAddress) = false ->
   createSplit deploySplitContract zone now creatorAddress splitData w
   = (w, Err InvalidCreatorAddress))
  /\ (isAddress (toLowerCase creatorAddress) = true ->
      in_participants splitData = [] ->
      createSplit deploySplitContract zone now creatorAddress splitData w
      = (w, Err NoParticipants))
  /\ (isAddress (toLowerCase creatorAddress) = true ->
      (50 < List.length (in_participants splitData))%nat ->
      createSplit deploySplitContract zone now creatorAddress splitData w
      = (w, Err TooManyParticipants))
  /\ (isAddress (toLowerCase creatorAddress) = true ->
      (1 <= List.length (in_participants splitData) <= 50)%nat ->
      differs (calculatedTotal splitData) (in_totalAmount splitData) = false ->
      forall p,
        find (fun p => negb (isAddress (toLowerCase (pi_walletAddress p))))
             (in_participants splitData) = Some p ->
        createSplit deploySplitContract zone now creatorAddress splitData w
        = (w, Err (InvalidParticipantAddress (pi_walletAddress p)))).
Proof.
  repeat split.
  - intro Ha. apply createSplit_input_refused.
    unfold validateInput, bind, throwIf, throw. now rewrite Ha.
  - intros Ha Hnil. apply createSplit_input_refused.
    unfold validateInput, bind, throwIf, throw, ret. now rewrite Ha, Hnil.
  - intros Ha Hmany. apply createSplit_input_refused.
    unfold validateInput, bind, throwIf, throw, ret. rewrite Ha. cbn [negb].
    replace (List.length (in_participants splitData) =? 0)%nat with false
      by (symmetry; apply Nat.eqb_neq; lia).
    now replace (50 <? List.length (in_participants splitData))%nat with true
      by (symmetry; apply Nat.ltb_lt; lia).
  - intros Ha Hlen Hd p Hp. apply createSplit_input_refused.
    unfold validateInput, checkAmounts, bind, throwIf, throw, ret.
    rewrite Ha, Hd. cbn [negb].
    replace (List.length (in_participants splitData) =? 0)%nat with false
      by (symmetry; apply Nat.eqb_neq; lia).
    replace (50 <? List.length (in_participants splitData))%nat with false
      by (symmetry; apply Nat.ltb_ge; lia).
    now rewrite (checkParticipantAddresses_finds _ _ p Hp).
Qed.

Section Outcomes.

Variable deploySplitContract :
  string -> string -> list ParticipantInput -> number -> Deployment.

(** An allocation that fails makes [createSplit] throw before anything is
    deployed. *)
Lemma createSplit_exhausted (zone : TimeZone) (now : Z) (creatorAddress : string)
    (splitData : CreateSplitInput) (w : World) :
  inputAccepted creatorAddress splitData = true ->
  findBySplitId w (nextSplitId w) <> None ->
  createSplit deploySplitContract zone now creatorAddress splitData w
  = (w, Err SplitIdExhausted).
Proof.
  intros Hacc Htaken. unfold createSplit, createSplit_try.
  unfold bind at 1. rewrite (validateInput_accepted _ _ _ Hacc).
  unfold bind at 1. rewrite allocate_stuck by exact Htaken. reflexivity.
Qed.

(** A deployment that throws makes [createSplit] throw its error. *)
Lemma createSplit_deploy_failed (zone : TimeZone) (now : Z) (creatorAddress : string)
    (splitData : CreateSplitInput) (w : World) (message : string) :
  inputAccepted creatorAddress splitData = true ->
  findBySplitId w (nextSplitId w) = None ->
  deploySplitContract (toLowerCase creatorAddress) (in_description splitData)
    (in_participants splitData) (in_totalAmount splitData) = Failed message ->
  createSplit deploySplitContract zone now creatorAddress splitData w
  = (w, Err (DeployFailed message)).
Proof.
  intros Hacc Hfree Hd. unfold createSplit, createSplit_try.
  unfold bind at 1. rewrite (validateInput_accepted _ _ _ Hacc).
  unfold bind at 1. rewrite allocate_free by exact Hfree.
  unfold bind at 1. unfold deploy at 1.
  cbn [f_world f_splitId f_blockchainResult initialFrame]. rewrite Hd. reflexivity.
Qed.

(** After a deployment that succeeds [createSplit] resolves, whatever the
    steps that follow do. *)
Lemma createSplit_deploy_mined (zone : TimeZone) (now : Z) (creatorAddress : string)
    (splitData : CreateSplitInput) (w : World) (bc : BlockchainResult) :
  inputAccepted creatorAddress splitData = true ->
  findBySplitId w (nextSplitId w) = None ->
  deploySplitContract (toLowerCase creatorAddress) (in_description splitData)
    (in_participants splitData) (in_totalAmount splitData) = Mined bc ->
  exists w' response,
    createSplit deploySplitContract zone now creatorAddress splitData w
    = (w', Ok response).
Proof.
  intros Hacc Hfree Hd.
  rewrite (createSplit_deployed deploySplitContract zone now creatorAddress splitData w
             (toLowerCase creatorAddress) bc
             (validateInput_accepted _ _ _ Hacc) Hfree Hd).
  destruct (persistSplit _ _ _ _ _ _) as [f [response|e]]; eauto.
Qed.

(** [createSplit] resolves only on an accepted input, with an identifier
    allocated, and after a deployment that succeeded. *)
Lemma createSplit_resolved (zone : TimeZone) (now : Z) (creatorAddress : string)
    (splitData : CreateSplitInput) (w w' : World) (response : CreateSplitResponse) :
  createSplit deploySplitContract zone now creatorAddress splitData w = (w', Ok response) ->
  inputAccepted creatorAddress splitData = true
  /\ findBySplitId w (nextSplitId w) = None
  /\ exists bc,
       deploySplitContract (toLowerCase creatorAddress) (in_description splitData)
         (in_participants splitData) (in_totalAmount splitData) = Mined bc.
Proof.
  intro Hok.
  destruct (inputAccepted creatorAddress splitData) eqn:Hacc.
  - split; [reflexivity|].
    destruct (findBySplitId w (nextSplitId w)) as [taken|] eqn:Hfree.
    { rewrite (createSplit_exhausted zone now creatorAddress splitData w Hacc) in Hok
        by (rewrite Hfree; discriminate).
      discriminate. }
    split; [reflexivity|].
    destruct (deploySplitContract (toLowerCase creatorAddress)
                (in_description splitData) (in_participants splitData)
                (in_totalAmount splitData)) as [bc|message] eqn:Hd; [eauto|].
    rewrite (createSplit_deploy_failed zone now creatorAddress splitData w message
               Hacc Hfree Hd) in Hok.
    discriminate.
  - destruct (validateInput_refused creatorAddress splitData (initialFrame w) Hacc)
      as [e He].
    rewrite (createSplit_input_refused deploySplitContract zone now creatorAddress
               splitData w e He) in Hok.
    discriminate.
Qed.

End Outcomes.

(** X4.  [createSplit] resolves exactly when its input passes the checks,
    the candidate identifier of the store is free, and the deployment of
    the contract succeeds; nothing that happens after the deployment can
    make it throw.  The candidate is free whenever the stored identifiers
    are below 2^53 in magnitude.  When the input passes and the candidate
    is taken, [createSplit] throws "Unable to generate unique split ID"
    and nothing is deployed; when the candidate is free and the deployment
    throws, [createSplit] throws "Failed to deploy split contract: .." with
    the message of the deployment.  Either way the store is left as it
    was. *)
Theorem createSplit_resolves_iff_deployed
    (deploySplitContract :
       string -> string -> list ParticipantInput -> number -> Deployment)
    (zone : TimeZone) (now : Z) (creatorAddress : string)
    (splitData : CreateSplitInput) (w : World) :
  ((exists w' response,
       createSplit deploySplitContract zone now creatorAddress splitData w
       = (w', Ok response))
   <-> (inputAccepted creatorAddress splitData = true
        /\ findBySplitId w (nextSplitId w) = None
        /\ exists bc,
             deploySplitContract (toLowerCase creatorAddress)
               (in_description splitData) (in_participants splitData)
               (in_totalAmount splitData) = Mined bc))
  /\ ((forall s, In s (splits w) -> Z.abs (s_splitId s) < 2 ^ 53) ->
      findBySplitId w (nextSplitId w) = None)
  /\ (inputAccepted creatorAddress splitData = true ->
      findBySplitId w (nextSplitId w) <> None ->
      createSplit deploySplitContract zone now creatorAddress splitData w
      = (w, Err SplitIdExhausted))
  /\ forall message,
       inputAccepted creatorAddress splitData = true ->
       findBySplitId w (nextSplitId w) = None ->
       deploySplitContract (toLowerCase creatorAddress) (in_description splitData)
         (in_participants splitData) (in_totalAmount splitData) = Failed message ->
       createSplit deploySplitContract zone now creatorAddress splitData w
       = (w, Err (DeployFailed message)).
Proof.
  split; [split|split; [|split]].
  - intros (w' & response & Hok).
    now apply (createSplit_resolved deploySplitContract zone now creatorAddress
                 splitData w w' response).
  - intros (Hacc & Hfree & bc & Hd).
    now apply (createSplit_deploy_mined _ _ _ _ _ _ bc).
  - apply nextSplitId_free.
  - intros Hacc Htaken. now apply createSplit_exhausted.
  - intros message Hacc Hfree Hd. now apply createSplit_deploy_failed.
Qed.

(** On a store that holds the identifier 2^53 nothing more is created:
    the input passes, the contract would be deployed, and [createSplit]
    throws before it asks. *)
Example createSplit_exhausted_at_2_53 :
  inputAccepted Sample.alice Sample.dinner = true
  /\ createSplit (Sample.deployed Sample.chain7) Sample.utc 1000 Sample.alice
       Sample.dinner Sample.atTheEdge
     = (Sample.atTheEdge, Err SplitIdExhausted).
Proof. split; vm_compute; reflexivity. Qed.

(** What [Split.create] has done when it resolves. *)
Lemma Split_create_success (zone : TimeZone) (now : Z)
    (fields : ISplit) (w w1 : World) (d : ISplit) :
  Split_create zone now fields w = (w1, Ok d) ->
  d = castSplit zone now fields
  /\ w1 = withSplits w (splits w ++ [d])
  /\ invalidSplitPath d = None
  /\ existsb (fun s => s_splitId s =? s_splitId d) (splits w) = false
  /\ existsb (fun s => String.eqb (s_txHash s) (s_txHash d)) (splits w) = false.
Proof.
  unfold Split_create. cbv zeta.
  destruct (invalidSplitPath (castSplit zone now fields)) eqn:Hv; [discriminate|].
  destruct (existsb (fun s => s_splitId s =? _) (splits w)) eqn:Hid; [discriminate|].
  destruct (existsb (fun s => String.eqb (s_txHash s) _) (splits w)) eqn:Hh;
    [discriminate|].
  intro H. injection H as <- <-. auto.
Qed.

Lemma find_app_last {A} (test : A -> bool) (l : list A) (x : A) :
  existsb test l = false -> test x = true -> find test (l ++ [x]) = Some x.
Proof.
  induction l as [|a rest IH]; simpl.
  - intros _ ->. reflexivity.
  - destruct (test a); [discriminate|]. exact IH.
Qed.

(** The counter update never throws and leaves the splits alone. *)
Lemma updateCreatorStats_run (now : Z) (normalizedCreator : string) (w : World) :
  updateCreatorStats now normalizedCreator w
  = (creatorCounted now normalizedCreator w, Ok tt).
Proof.
  unfold updateCreatorStats, creatorCounted, swallow, bind, get.
  destruct (findByWallet w normalizedCreator); reflexivity.
Qed.

Lemma creatorCounted_splits (now : Z) (normalizedCreator : string) (w : World) :
  splits (creatorCounted now normalizedCreator w) = splits w.
Proof.
  unfold creatorCounted. destruct (findByWallet w normalizedCreator); reflexivity.
Qed.

(** What the steps after the deployment have done when they succeed. *)
Lemma persistSplit_success (zone : TimeZone) (now : Z) (normalizedCreator : string)
    (splitData : CreateSplitInput) (splitId : Z) (bc : BlockchainResult)
    (f f' : Frame) (response : CreateSplitResponse) :
  persistSplit zone now normalizedCreator splitData splitId bc f = (f', Ok response) ->
  findByTxHash (f_world f) (bc_txHash bc) = None
  /\ exists w1 d,
       Split_create zone now
         (newSplitFields (finalSplitId bc splitId) (bc_splitAddress bc) (bc_txHash bc)
            (bc_blockNumber bc) (bc_isConfirmed bc) normalizedCreator splitData)
         (f_world f) = (w1, Ok d)
       /\ f_world f' = creatorCounted now normalizedCreator w1
       /\ response = {| r_splitId := s_splitId d;
                        r_contractAddress := s_contractAddress d;
                        r_txHash := s_txHash d |}.
Proof.
  unfold persistSplit, bind, onWorld, get, ret, throwIf, throw. simpl.
  destruct f as [w id bcr]. simpl.
  destruct (findByTxHash w (bc_txHash bc)); simpl; [discriminate|].
  destruct (Split_create zone now _ w) as [w1 [d|e1]] eqn:Hc; simpl; [|discriminate].
  rewrite updateCreatorStats_run. simpl.
  intro H. injection H as <- <-. split; [reflexivity|].
  exists w1, d. auto.
Qed.

Lemma persistSplit_stores (zone : TimeZone) (now : Z) (normalizedCreator : string)
    (splitData : CreateSplitInput) (splitId : Z) (bc : BlockchainResult)
    (f : Frame) (w1 : World) (d : ISplit) :
  findByTxHash (f_world f) (bc_txHash bc) = None ->
  Split_create zone now
    (newSplitFields (finalSplitId bc splitId) (bc_splitAddress bc) (bc_txHash bc)
       (bc_blockNumber bc) (bc_isConfirmed bc) normalizedCreator splitData)
    (f_world f) = (w1, Ok d) ->
  persistSplit zone now normalizedCreator splitData splitId bc f
  = ({| f_world := creatorCounted now normalizedCreator w1;
        f_splitId := f_splitId f;
        f_blockchainResult := f_blockchainResult f |},
     Ok {| r_splitId := s_splitId d;
           r_contractAddress := s_contractAddress d;
           r_txHash := s_txHash d |}).
Proof.
  intros Hfree Hc.
  unfold persistSplit, bind, onWorld, get, ret, throwIf, throw. simpl.
  destruct f as [w id bcr]. simpl in *.
  rewrite Hfree. simpl. rewrite Hc. simpl.
  rewrite updateCreatorStats_run. reflexivity.
Qed.

Lemma newSplit_participants (zone : TimeZone) (now : Z) (fields : ISplit) :
  s_participants (castSplit zone now fields)
  = map (fun p =>
           {| p_walletAddress := toLowerCase (trim (p_walletAddress p));
              p_name := option_map trim (p_name p);
              p_amountDue := p_amountDue p;
              p_hasPaid := p_hasPaid p;
              p_paidAt := p_paidAt p;
              p_paymentTxHash :=
                option_map toLowerCase (option_map trim (p_paymentTxHash p));
              p_reminderCount := p_reminderCount p;
              p_lastRemindedAt := p_lastRemindedAt p |})
        (s_participants fields).
Proof. reflexivity. Qed.

(** X5.  When the input is accepted, the candidate identifier of the store
    free, the contract deployed, its transaction hash not yet stored and the
    new document accepted by [Split.create], [createSplit] answers the
    identifiers of the stored split and the store holds exactly one split
    more, the last one.  That split is found again under its [splitId] and
    under its [txHash]; its [splitId] is the candidate when the on-chain
    identifier is zero, and otherwise the binary64 number nearest to the
    on-chain identifier, which is that identifier itself up to 2^53; its
    creator is the creator's address in lower case; it is neither completed
    nor cancelled, [active] if the deployment is confirmed and [pending]
    otherwise; its expiry is the date [setDate(getDate() + 30)] makes of
    [now] in the time zone of the server; and its participants are those of
    the input, in order, with lower-case addresses, the same amounts, and
    none of them paid. *)
Theorem createSplit_stores_the_split
    (deploySplitContract :
       string -> string -> list ParticipantInput -> number -> Deployment)
    (zone : TimeZone) (now : Z) (creatorAddress : string)
    (splitData : CreateSplitInput) (w w1 : World)
    (bc : BlockchainResult) (d : ISplit) :
  inputAccepted creatorAddress splitData = true ->
  findBySplitId w (nextSplitId w) = None ->
  deploySplitContract (toLowerCase creatorAddress) (in_description splitData)
    (in_participants splitData) (in_totalAmount splitData) = Mined bc ->
  findByTxHash w (bc_txHash bc) = None ->
  Split_create zone now
    (newSplitFields (finalSplitId bc (nextSplitId w)) (bc_splitAddress bc)
       (bc_txHash bc) (bc_blockNumber bc) (bc_isConfirmed bc)
       (toLowerCase creatorAddress) splitData)
    w = (w1, Ok d) ->
  exists w2,
    createSplit deploySplitContract zone now creatorAddress splitData w
    = (w2, Ok {| r_splitId := s_splitId d;
                 r_contractAddress := s_contractAddress d;
                 r_txHash := s_txHash d |})
    /\ splits w2 = splits w ++ [d]
    /\ getSplitById w2 (s_splitId d) = Some d
    /\ findByTxHash w2 (s_txHash d) = Some d
    /\ s_splitId d
       = (if bc_splitId bc =? 0 then nextSplitId w else toNumber (bc_splitId bc))
    /\ (bc_splitId bc <> 0 -> Z.abs (bc_splitId bc) <= 2 ^ 53 ->
        s_splitId d = bc_splitId bc)
    /\ s_creatorAddress d = toLowerCase creatorAddress
    /\ s_status d = (if bc_isConfirmed bc then active else pending)
    /\ s_isCompleted d = false
    /\ s_isCancelled d = false
    /\ s_createdAt d = now
    /\ s_expiresAt d = thirtyDaysOn zone now
    /\ map p_walletAddress (s_participants d)
       = map (fun p => toLowerCase (pi_walletAddress p)) (in_participants splitData)
    /\ map p_amountDue (s_participants d)
       = map pi_amountDue (in_participants splitData)
    /\ forallb (fun p => negb (p_hasPaid p)) (s_participants d) = true.
Proof.
  intros Hacc Hcandidate Hd Hfree Hc.
  pose proof (Split_create_success _ _ _ _ _ _ Hc) as (Hcast & Hw1 & _ & Hid & Hhash).
  exists (creatorCounted now (toLowerCase creatorAddress) w1).
  assert (Hsplits : splits (creatorCounted now (toLowerCase creatorAddress) w1)
                    = splits w ++ [d])
    by (rewrite creatorCounted_splits, Hw1; reflexivity).
  split; [|split; [exact Hsplits|]].
  { rewrite (createSplit_deployed deploySplitContract zone now creatorAddress splitData w
               (toLowerCase creatorAddress) bc
               (validateInput_accepted _ _ _ Hacc) Hcandidate Hd).
    rewrite (persistSplit_stores zone now (toLowerCase creatorAddress) splitData
               (nextSplitId w) bc
               {| f_world := w; f_splitId := nextSplitId w;
                  f_blockchainResult := Some bc |} w1 d Hfree Hc).
    reflexivity. }
  split.
  { unfold getSplitById, findBySplitId. rewrite Hsplits.
    apply find_app_last; [exact Hid | apply Z.eqb_refl]. }
  split.
  { unfold findByTxHash. rewrite Hsplits.
    assert (Hlow : toLowerCase (s_txHash d) = s_txHash d)
      by (rewrite Hcast; apply toLowerCase_idempotent).
    rewrite Hlow. apply find_app_last; [exact Hhash | apply String.eqb_refl]. }
  assert (Hparts : forallb (fun p => isAddress (toLowerCase (pi_walletAddress p)))
                     (in_participants splitData) = true).
  { unfold inputAccepted in Hacc. now apply andb_true_iff in Hacc as [_ ?]. }
  assert (Hcreator : isAddress (toLowerCase creatorAddress) = true).
  { unfold inputAccepted in Hacc.
    repeat (apply andb_true_iff in Hacc as [Hacc _]). exact Hacc. }
  rewrite Hcast.
  split; [reflexivity|].
  split.
  { intros Hnz Hsmall. cbn [castSplit newSplitFields s_splitId]. unfold finalSplitId.
    apply Z.eqb_neq in Hnz. rewrite Hnz. now apply toNumber_exact. }
  split; [apply (normalized_cast creatorAddress Hcreator)|].
  split; [reflexivity|]. split; [reflexivity|]. split; [reflexivity|].
  split; [reflexivity|]. split; [reflexivity|].
  rewrite newSplit_participants. cbn [newSplitFields s_participants].
  rewrite !map_map. cbn [p_walletAddress p_amountDue p_hasPaid].
  split; [|split].
  - clear -Hparts. induction (in_participants splitData) as [|p rest IH];
      simpl; [reflexivity|].
    cbn [forallb] in Hparts. apply andb_true_iff in Hparts as [Hp Hrest].
    cbn [map]. now rewrite (normalized_cast _ Hp), (IH Hrest).
  - reflexivity.
  - clear. induction (in_participants splitData); simpl; auto.
Qed.

(** Alice's dinner split, deployed as the on-chain split 7, on a server
    that keeps UTC. *)
Lemma createSplit_stores_the_split_witness :
  exists w2,
  createSplit (Sample.deployed Sample.chain7) Sample.utc 1000 Sample.alice
    Sample.dinner Sample.emptyWorld
  = (w2, Ok {| r_splitId := s_splitId Scenario.dinnerSplit;
               r_contractAddress := s_contractAddress Scenario.dinnerSplit;
               r_txHash := s_txHash Scenario.dinnerSplit |})
  /\ splits w2 = splits Sample.emptyWorld ++ [Scenario.dinnerSplit]
  /\ getSplitById w2 (s_splitId Scenario.dinnerSplit) = Some Scenario.dinnerSplit
  /\ findByTxHash w2 (s_txHash Scenario.dinnerSplit) = Some Scenario.dinnerSplit
  /\ s_splitId Scenario.dinnerSplit
     = (if bc_splitId Sample.chain7 =? 0 then nextSplitId Sample.emptyWorld
        else toNumber (bc_splitId Sample.chain7))
  /\ (bc_splitId Sample.chain7 <> 0 -> Z.abs (bc_splitId Sample.chain7) <= 2 ^ 53 ->
      s_splitId Scenario.dinnerSplit = bc_splitId Sample.chain7)
  /\ s_creatorAddress Scenario.dinnerSplit = toLowerCase Sample.alice
  /\ s_status Scenario.dinnerSplit
     = (if bc_isConfirmed Sample.chain7 then active else pending)
  /\ s_isCompleted Scenario.dinnerSplit = false
  /\ s_isCancelled Scenario.dinnerSplit = false
  /\ s_createdAt Scenario.dinnerSplit = 1000
  /\ s_expiresAt Scenario.dinnerSplit = thirtyDaysOn Sample.utc 1000
  /\ map p_walletAddress (s_participants Scenario.dinnerSplit)
     = map (fun p => toLowerCase (pi_walletAddress p)) (in_participants Sample.dinner)
  /\ map p_amountDue (s_participants Scenario.dinnerSplit)
     = map pi_amountDue (in_participants Sample.dinner)
  /\ forallb (fun p => negb (p_hasPaid p)) (s_participants Scenario.dinnerSplit) = true.
Proof.
  apply (createSplit_stores_the_split (Sample.deployed Sample.chain7) Sample.utc 1000
           Sample.alice Sample.dinner Sample.emptyWorld Scenario.dinnerStore
           Sample.chain7 Scenario.dinnerSplit).
  - vm_compute. reflexivity.
  - reflexivity.
  - reflexivity.
  - reflexivity.
  - vm_compute. reflexivity.
Defined.

(** [Split.create] keeps the transaction hashes of the store pairwise
    distinct. *)
Lemma Split_create_distinct_hashes (zone : TimeZone) (now : Z) (fields : ISplit) (w w' : World)
    (r : Result ISplit) :
  NoDup (map s_txHash (splits w)) ->
  Split_create zone now fields w = (w', r) ->
  NoDup (map s_txHash (splits w')).
Proof.
  intros Hw. unfold Split_create. cbv zeta.
  destruct (invalidSplitPath _); [congruence|].
  destruct (existsb (fun s => s_splitId s =? _) (splits w)); [congruence|].
  destruct (existsb (fun s => String.eqb (s_txHash s) _) (splits w)) eqn:Hh;
    [congruence|].
  intro H. injection H as <- _. simpl. rewrite map_app. simpl.
  apply NoDup_app; [exact Hw | repeat constructor; intros [] | ].
  intros a Ha [<-|[]]. apply in_map_iff in Ha as (s & Hs & Hin).
  assert (Hex : existsb (fun x => String.eqb (s_txHash x)
                                    (s_txHash (castSplit zone now fields)))
                        (splits w) = true).
  { apply existsb_exists. exists s. split; [exact Hin | now apply String.eqb_eq]. }
  congruence.
Qed.

(** X6.  Whatever [createSplit] does, it only ever appends to the splits: a
    call leaves every stored split as it was and stores at most one new
    split, after them; when it throws it stores none.  The [splitId]s and
    the transaction hashes of the store stay pairwise distinct, and no user
    is added or removed. *)
Theorem createSplit_only_appends
    (deploySplitContract :
       string -> string -> list ParticipantInput -> number -> Deployment)
    (zone : TimeZone) (now : Z) (creatorAddress : string) (splitData : CreateSplitInput)
    (w w' : World) (r : Result CreateSplitResponse) :
  createSplit deploySplitContract zone now creatorAddress splitData w = (w', r) ->
  (exists added, splits w' = splits w ++ added /\ (List.length added <= 1)%nat)
  /\ (forall e, r = Err e -> w' = w)
  /\ (NoDup (map s_splitId (splits w)) -> NoDup (map s_splitId (splits w')))
  /\ (NoDup (map s_txHash (splits w)) -> NoDup (map s_txHash (splits w')))
  /\ List.length (users w') = List.length (users w).
Proof.
  intro Hrun.
  assert (Hsame : w' = w ->
            (exists added, splits w' = splits w ++ added /\ (List.length added <= 1)%nat)
            /\ (NoDup (map s_splitId (splits w)) -> NoDup (map s_splitId (splits w')))
            /\ (NoDup (map s_txHash (splits w)) -> NoDup (map s_txHash (splits w')))
            /\ List.length (users w') = List.length (users w)).
  { intros ->. split; [exists []; rewrite app_nil_r; auto | auto]. }
  destruct r as [response|e].
  - destruct (createSplit_resolved deploySplitContract zone now creatorAddress
                splitData w w' response Hrun) as (Hacc & Hfree & bc & Hd).
    rewrite (createSplit_deployed deploySplitContract zone now creatorAddress splitData w
               (toLowerCase creatorAddress) bc
               (validateInput_accepted _ _ _ Hacc) Hfree Hd) in Hrun.
    destruct (persistSplit _ _ _ _ _ _) as [f [response'|e']] eqn:Hp.
    + injection Hrun as <- _.
      apply persistSplit_success in Hp as (_ & w1 & d & Hc & Hw & _).
      cbn [f_world] in Hc. rewrite Hw.
      pose proof (Split_create_success _ _ _ _ _ _ Hc) as (_ & Hw1 & _).
      split; [|split; [discriminate|split; [|split]]].
      * exists [d]. rewrite creatorCounted_splits, Hw1. simpl. auto.
      * intro Hn. rewrite creatorCounted_splits.
        eapply Split_create_distinct; eauto.
      * intro Hn. rewrite creatorCounted_splits.
        eapply Split_create_distinct_hashes; eauto.
      * unfold creatorCounted.
        destruct (findByWallet w1 (toLowerCase creatorAddress));
          [cbn; rewrite length_map|]; rewrite Hw1; reflexivity.
    + injection Hrun as <- _.
      destruct (Hsame eq_refl) as (Ha & Hb & Hc & Hd').
      split; [exact Ha|]. split; [discriminate|]. auto.
  - apply createSplit_throws in Hrun as [-> _].
    destruct (Hsame eq_refl) as (Ha & Hb & Hc & Hd').
    split; [exact Ha|]. split; [reflexivity|]. auto.
Qed.

(** The dinner split is the one document added to an empty store. *)
Lemma createSplit_only_appends_witness :
  (exists added, splits Scenario.dinnerStore = splits Sample.emptyWorld ++ added /\ (List.length
      added <= 1)%nat)
  /\ (forall e, (Ok Scenario.dinnerAnswer) = Err e -> Scenario.dinnerStore = Sample.emptyWorld)
  /\ (NoDup (map s_splitId (splits Sample.emptyWorld)) -> NoDup (map s_splitId (splits
      Scenario.dinnerStore)))
  /\ (NoDup (map s_txHash (splits Sample.emptyWorld)) -> NoDup (map s_txHash (splits
      Scenario.dinnerStore)))
  /\ List.length (users Scenario.dinnerStore) = List.length (users Sample.emptyWorld).
Proof.
  apply (createSplit_only_appends (Sample.deployed Sample.chain7) Sample.utc 1000 Sample.alice
           Sample.dinner Sample.emptyWorld Scenario.dinnerStore (Ok
           Scenario.dinnerAnswer)).
  - vm_compute. reflexivity.
Defined.

(** After [save], the record found under an address is the one saved. *)
Lemma saveUser_found (now created : Z) (u : IUser) (w : World) (address : string) :
  findByWallet w address = Some u ->
  findByWallet (fst (saveUser now created u w)) address
  = Some {| u_id := u_id u; u_walletAddress := u_walletAddress u;
            u_displayName := u_displayName u;
            u_totalSplitsCreated := created;
            u_totalSplitsJoined := u_totalSplitsJoined u;
            u_totalAmountSplit := u_totalAmountSplit u;
            u_createdAt := u_createdAt u;
            u_lastActiveAt := now; u_updatedAt := now |}.
Proof.
  unfold findByWallet, saveUser. cbn [fst snd users withUsers u_id].
  intro Hfind.
  assert (Htest : String.eqb (u_walletAddress u) (toLowerCase address) = true)
    by (apply find_some in Hfind as [_ H]; exact H).
  induction (users w) as [|a rest IH]; [discriminate|].
  cbn [map find] in *.
  destruct (String.eqb (u_id a) (u_id u)) eqn:Hid.
  - cbn [u_walletAddress]. now rewrite Htest.
  - destruct (String.eqb (u_walletAddress a) (toLowerCase address)) eqn:Ha.
    + injection Hfind as ->. now rewrite String.eqb_refl in Hid.
    + now apply IH.
Qed.

(** X7.  The best-effort update of the creator's statistics (lines 155-164)
    never throws and never touches the splits.  When the creator has no
    user record nothing changes at all; when there is one, its
    [totalSplitsCreated] goes up by exactly one and its activity stamp moves
    to [now], it is still the record found under the creator's address, and
    every user with another [_id] is left as it was. *)
Theorem updateCreatorStats_counts_one
    (now : Z) (normalizedCreator : string) (w : World) :
  exists w',
    updateCreatorStats now normalizedCreator w = (w', Ok tt)
    /\ splits w' = splits w
    /\ List.length (users w') = List.length (users w)
    /\ (findByWallet w normalizedCreator = None -> w' = w)
    /\ (forall creator,
          findByWallet w normalizedCreator = Some creator ->
          findByWallet w' normalizedCreator
          = Some {| u_id := u_id creator;
                    u_walletAddress := u_walletAddress creator;
                    u_displayName := u_displayName creator;
                    u_totalSplitsCreated := u_totalSplitsCreated creator + 1;
                    u_totalSplitsJoined := u_totalSplitsJoined creator;
                    u_totalAmountSplit := u_totalAmountSplit creator;
                    u_createdAt := u_createdAt creator;
                    u_lastActiveAt := now; u_updatedAt := now |}
          /\ forall other,
               In other (users w) -> u_id other <> u_id creator ->
               In other (users w')).
Proof.
  exists (creatorCounted now normalizedCreator w).
  split; [apply updateCreatorStats_run|].
  split; [apply creatorCounted_splits|].
  unfold creatorCounted.
  destruct (findByWallet w normalizedCreator) as [creator|] eqn:Hfind.
  - split; [cbn; now rewrite length_map|]. split; [discriminate|].
    intros c Hc. injection Hc as <-. split.
    + unfold incrementSplitCreated.
      now rewrite (saveUser_found now _ creator w normalizedCreator Hfind).
    + intros other Hin Hid. cbn. apply in_map_iff. exists other.
      split; [|exact Hin].
      destruct (String.eqb (u_id other) (u_id creator)) eqn:Heq; [|reflexivity].
      apply String.eqb_eq in Heq. contradiction.
  - split; [reflexivity|]. split; [reflexivity | discriminate].
Qed.

(** X8.  The placeholder variant of [createSplit] has no fallback: it
    resolves only when the split has been stored, and when anything throws it
    rethrows and the store is as it was.  The split it stores carries the
    next free [splitId], the zero contract address, is unconfirmed and
    [pending], and can be read back under the [splitId] returned. *)
Theorem createSplit_mock_stores_or_throws
    (draws : MockDraws) (zone : TimeZone) (now : Z) (creatorAddress : string)
    (splitData : CreateSplitInput) (w w' : World) (r : Result MockResponse) :
  createSplit_mock draws zone now creatorAddress splitData w = (w', r) ->
  (forall e, r = Err e -> w' = w)
  /\ (forall response,
        r = Ok response ->
        mr_splitId response = nextSplitId w
        /\ mr_contractAddress response = "0x0000000000000000000000000000000000000000"%string
        /\ exists d,
             splits w' = splits w ++ [d]
             /\ getSplitById w' (mr_splitId response) = Some d
             /\ s_isConfirmed d = false
             /\ s_status d = pending
             /\ forallb (fun p => negb (p_hasPaid p)) (s_participants d) = true).
Proof.
  unfold createSplit_mock. unfold bind at 1.
  destruct (validateInput creatorAddress splitData (initialFrame w))
    as [f [normalizedCreator|e0]] eqn:Hv;
    pose proof (validateInput_state _ _ _ _ _ Hv) as ->.
  2:{ cbn [f_world initialFrame]. intro H. injection H as <- <-.
      split; [reflexivity | discriminate]. }
  unfold bind at 1. rewrite allocate_cases.
  cbn [f_world f_splitId f_blockchainResult initialFrame].
  destruct (isSome (findBySplitId w (nextSplitId w))).
  { cbn [f_world]. intro H. injection H as <- <-.
    split; [reflexivity | discriminate]. }
  unfold bind at 1. unfold onWorld at 1, bind at 1, get, ret.
  cbn [f_world f_splitId f_blockchainResult initialFrame].
  unfold bind at 1. unfold onWorld at 1.
  cbn [f_world f_splitId f_blockchainResult initialFrame].
  destruct (Split_create zone now _ w) as [w1 [d|e1]] eqn:Hc.
  2:{ apply Split_create_error in Hc. subst w1.
      cbn [f_world]. intro H. injection H as <- <-.
      split; [reflexivity | discriminate]. }
  unfold bind at 1. unfold onWorld at 1. cbn [f_world f_splitId f_blockchainResult].
  rewrite updateCreatorStats_run. cbn [f_world]. unfold ret.
  intro H. injection H as <- <-.
  split; [discriminate|]. intros response Hr. injection Hr as <-.
  pose proof (Split_create_success _ _ _ _ _ _ Hc) as (Hcast & Hw1 & _ & Hid & _).
  cbn [mr_splitId mr_contractAddress].
  assert (Hidd : s_splitId d = nextSplitId w) by (rewrite Hcast; reflexivity).
  split; [exact Hidd|]. split; [rewrite Hcast; reflexivity|].
  exists d. rewrite creatorCounted_splits, Hw1. cbn [splits withSplits].
  split; [reflexivity|]. split.
  { unfold getSplitById, findBySplitId. rewrite creatorCounted_splits.
    cbn [splits withSplits].
    apply find_app_last; [exact Hid | apply Z.eqb_refl]. }
  rewrite Hcast. split; [reflexivity|]. split; [reflexivity|].
  rewrite newSplit_participants. cbn [newSplitFields s_participants].
  rewrite map_map. cbn [p_hasPaid].
  clear. induction (in_participants splitData); simpl; auto.
Qed.

(** The dinner split through the placeholder variant. *)
Lemma createSplit_mock_stores_or_throws_witness :
  (forall e, (Ok Scenario.mockAnswer) = Err e -> Scenario.mockStore = Sample.emptyWorld)
  /\ (forall response,
        (Ok Scenario.mockAnswer) = Ok response ->
        mr_splitId response = nextSplitId Sample.emptyWorld
        /\ mr_contractAddress response = "0x0000000000000000000000000000000000000000"%string
        /\ exists d,
             splits Scenario.mockStore = splits Sample.emptyWorld ++ [d]
             /\ getSplitById Scenario.mockStore (mr_splitId response) = Some d
             /\ s_isConfirmed d = false
             /\ s_status d = pending
             /\ forallb (fun p => negb (p_hasPaid p)) (s_participants d) = true).
Proof.
  apply (createSplit_mock_stores_or_throws Scenario.draws Sample.utc 1000 Sample.alice Sample.dinner
           Sample.emptyWorld Scenario.mockStore (Ok Scenario.mockAnswer)).
  - vm_compute. reflexivity.
Defined.

(* ================================================================== *)
(** ** Properties: the store queries and the listings *)

Lemma insertNewestFirst_perm (s : ISplit) (l : list ISplit) :
  Permutation (s :: l) (insertNewestFirst s l).
Proof.
  induction l as [|x rest IH]; simpl; [reflexivity|].
  destruct (s_createdAt x <=? s_createdAt s); [reflexivity|].
  rewrite perm_swap. now constructor.
Qed.

Lemma sortNewestFirst_perm (l : list ISplit) : Permutation l (sortNewestFirst l).
Proof.
  induction l as [|x rest IH]; simpl; [constructor|].
  rewrite <- insertNewestFirst_perm. now constructor.
Qed.

Lemma insertNewestFirst_sorted (s : ISplit) (l : list ISplit) :
  StronglySorted newerFirst l -> StronglySorted newerFirst (insertNewestFirst s l).
Proof.
  induction l as [|x rest IH]; intro Hl; simpl.
  - repeat constructor.
  - inversion Hl as [|? ? Hrest Hall]; subst.
    destruct (s_createdAt x <=? s_createdAt s) eqn:Hle.
    + apply Z.leb_le in Hle. constructor; [exact Hl|].
      constructor; [exact Hle|].
      eapply Forall_impl; [|exact Hall]. unfold newerFirst. intros y Hy. lia.
    + apply Z.leb_gt in Hle. constructor; [now apply IH|].
      apply Forall_forall. intros y Hy.
      apply (Permutation_in _ (Permutation_sym (insertNewestFirst_perm s rest))) in Hy.
      destruct Hy as [<-|Hy].
      * unfold newerFirst. lia.
      * rewrite Forall_forall in Hall. now apply Hall.
Qed.

(** The sort puts the newest first. *)
Lemma sortNewestFirst_sorted (l : list ISplit) :
  StronglySorted newerFirst (sortNewestFirst l).
Proof.
  induction l as [|x rest IH]; simpl; [constructor|].
  now apply insertNewestFirst_sorted.
Qed.

Lemma StronglySorted_app {A} (R : A -> A -> Prop) (l1 l2 : list A) :
  StronglySorted R (l1 ++ l2) -> StronglySorted R l1 /\ StronglySorted R l2.
Proof.
  induction l1 as [|x rest IH]; simpl; intro H.
  - split; [constructor | exact H].
  - inversion H as [|? ? Hrest Hall]; subst.
    destruct (IH Hrest) as [H1 H2]. split; [|exact H2].
    constructor; [exact H1|].
    apply Forall_app in Hall. tauto.
Qed.

Lemma StronglySorted_firstn {A} (R : A -> A -> Prop) (n : nat) (l : list A) :
  StronglySorted R l -> StronglySorted R (firstn n l).
Proof.
  intro H. rewrite <- (firstn_skipn n l) in H.
  now apply StronglySorted_app in H.
Qed.

Lemma StronglySorted_skipn {A} (R : A -> A -> Prop) (n : nat) (l : list A) :
  StronglySorted R l -> StronglySorted R (skipn n l).
Proof.
  intro H. rewrite <- (firstn_skipn n l) in H.
  now apply StronglySorted_app in H.
Qed.

Lemma In_firstn {A} (n : nat) (l : list A) (x : A) : In x (firstn n l) -> In x l.
Proof.
  intro H. rewrite <- (firstn_skipn n l). apply in_or_app. now left.
Qed.

Lemma In_skipn {A} (n : nat) (l : list A) (x : A) : In x (skipn n l) -> In x l.
Proof.
  intro H. rewrite <- (firstn_skipn n l). apply in_or_app. now right.
Qed.

Lemma NoDup_firstn {A} (n : nat) (l : list A) : NoDup l -> NoDup (firstn n l).
Proof.
  intro H. rewrite <- (firstn_skipn n l) in H. now apply NoDup_app_remove_r in H.
Qed.

Lemma NoDup_skipn {A} (n : nat) (l : list A) : NoDup l -> NoDup (skipn n l).
Proof.
  intro H. rewrite <- (firstn_skipn n l) in H. now apply NoDup_app_remove_l in H.
Qed.

(** What the cursor of a query keeps of a list. *)
Lemma cursor_In (opts : QueryOptions) (l : list ISplit) (x : ISplit) :
  In x (cursor opts l) -> In x l.
Proof.
  unfold cursor.
  destruct (given (o_limit opts)), (given (o_skip opts)); intro H;
    repeat first [apply In_firstn in H | apply In_skipn in H]; exact H.
Qed.

Lemma cursor_sorted (opts : QueryOptions) (l : list ISplit) :
  StronglySorted newerFirst l -> StronglySorted newerFirst (cursor opts l).
Proof.
  unfold cursor. intro H.
  destruct (given (o_limit opts)), (given (o_skip opts));
    repeat first [apply StronglySorted_firstn | apply StronglySorted_skipn]; exact H.
Qed.

Lemma cursor_limit (opts : QueryOptions) (l : list ISplit) (n : nat) :
  given (o_limit opts) = Some n -> (List.length (cursor opts l) <= n)%nat.
Proof.
  unfold cursor. intros ->. rewrite length_firstn. lia.
Qed.

(** X9.  [getSplitsByCreator(address, options)] returns stored splits only,
    each created by the address (compared in lower case) and of the status
    asked for, the newest first, and no more than [limit] of them.  Without
    [skip] and [limit] it returns every such split. *)
Theorem getSplitsByCreator_sound_and_sorted
    (w : World) (creatorAddress : string) (opts : QueryOptions) :
  (forall s,
      In s (getSplitsByCreator w creatorAddress opts) ->
      In s (splits w)
      /\ s_creatorAddress s = toLowerCase creatorAddress
      /\ statusMatches opts s = true)
  /\ StronglySorted newerFirst (getSplitsByCreator w creatorAddress opts)
  /\ (forall n,
        given (o_limit opts) = Some n ->
        (List.length (getSplitsByCreator w creatorAddress opts) <= n)%nat)
  /\ (given (o_skip opts) = None -> given (o_limit opts) = None ->
      forall s,
        In s (splits w) ->
        s_creatorAddress s = toLowerCase creatorAddress ->
        statusMatches opts s = true ->
        In s (getSplitsByCreator w creatorAddress opts)).
Proof.
  unfold getSplitsByCreator, findByCreator. rewrite toLowerCase_idempotent.
  split; [|split; [|split]].
  - intros s Hin. apply cursor_In, sortNewestFirst_In, filter_In in Hin as [Hin Hf].
    apply andb_true_iff in Hf as [Hc Hs]. apply String.eqb_eq in Hc. auto.
  - apply cursor_sorted, sortNewestFirst_sorted.
  - intros n Hn. now apply cursor_limit.
  - intros Hskip Hlimit s Hin Hc Hs. rewrite cursor_unpaged by assumption.
    apply (Permutation_in _ (sortNewestFirst_perm _)). apply filter_In.
    split; [exact Hin|]. rewrite Hs, andb_true_r. now apply String.eqb_eq.
Qed.

Lemma enriched_In (w : World) (requester : string) (l : list ISplit)
    (e : EnrichedSplit) :
  In e (map (enrich w requester) l) ->
  In (e_split e) l /\ e = enrich w requester (e_split e).
Proof.
  intro H. apply in_map_iff in H as (s & <- & Hin). auto.
Qed.

(** X10.  [getSplitsByParticipant(address, options)] lists stored splits
    only, each with the address (in lower case) among the addresses of its
    participants and of the status asked for, the newest first and no more
    than [limit] of them.  In every entry [youPaid] is [true] when the
    address is the creator's, and otherwise the [hasPaid] of the first
    participant entry that carries the address. *)
Theorem getSplitsByParticipant_sound_and_sorted
    (w : World) (walletAddress : string) (opts : QueryOptions) :
  (forall e,
      In e (getSplitsByParticipant w walletAddress opts) ->
      In (e_split e) (splits w)
      /\ (exists p, In p (s_participants (e_split e))
                    /\ p_walletAddress p = toLowerCase walletAddress)
      /\ statusMatches opts (e_split e) = true
      /\ (e_isCreator e = true -> e_youPaid e = true)
      /\ (e_isCreator e = false ->
          forall p,
            find (fun p => String.eqb (toLowerCase (p_walletAddress p))
                                      (toLowerCase walletAddress))
                 (s_participants (e_split e)) = Some p ->
            e_youPaid e = p_hasPaid p))
  /\ StronglySorted newerFirst
       (map e_split (getSplitsByParticipant w walletAddress opts))
  /\ (forall n,
        given (o_limit opts) = Some n ->
        (List.length (getSplitsByParticipant w walletAddress opts) <= n)%nat).
Proof.
  unfold getSplitsByParticipant, findByParticipant.
  rewrite toLowerCase_idempotent.
  split; [|split].
  - intros e He. apply enriched_In in He as [Hin ->]. cbn [e_split].
    apply cursor_In, sortNewestFirst_In, filter_In in Hin as [Hin Hf].
    apply andb_true_iff in Hf as [Hp Hs].
    apply existsb_exists in Hp as (p & Hp & Heq). apply String.eqb_eq in Heq.
    split; [exact Hin|]. split; [eauto|]. split; [exact Hs|].
    unfold enrich. cbn [e_isCreator e_youPaid e_split]. split.
    + now intros ->.
    + intros -> q Hq. now rewrite Hq.
  - rewrite enrich_split. apply cursor_sorted, sortNewestFirst_sorted.
  - intros n Hn. rewrite length_map. now apply cursor_limit.
Qed.

Lemma mapSet_In (k : Z) (v : ISplit) (m : list (Z * ISplit)) (e : Z * ISplit) :
  In e (mapSet k v m) -> e = (k, v) \/ In e m.
Proof.
  induction m as [|[k' v'] rest IH]; simpl.
  - intros [<-|[]]. now left.
  - destruct (k' =? k) eqn:Heq.
    + apply Z.eqb_eq in Heq. subst k'. intros [<-|H]; auto.
    + intros [<-|H]; auto. destruct (IH H); auto.
Qed.

Lemma mapSet_keys (k : Z) (v : ISplit) (m : list (Z * ISplit)) :
  map fst (mapSet k v m) = map fst m
  \/ (~ In k (map fst m) /\ map fst (mapSet k v m) = map fst m ++ [k]).
Proof.
  induction m as [|[k' v'] rest IH]; simpl.
  - right. split; [tauto | reflexivity].
  - destruct (k' =? k) eqn:Heq; simpl.
    + now left.
    + apply Z.eqb_neq in Heq. destruct IH as [->|[Hnotin ->]].
      * now left.
      * right. split; [intros [H|H]; tauto | reflexivity].
Qed.

(** The keys of a [Map] stay pairwise distinct. *)
Lemma mapSet_NoDup (k : Z) (v : ISplit) (m : list (Z * ISplit)) :
  NoDup (map fst m) -> NoDup (map fst (mapSet k v m)).
Proof.
  intro H. destruct (mapSet_keys k v m) as [->|[Hnotin ->]]; [exact H|].
  apply NoDup_app; [exact H | repeat constructor; simpl; tauto |].
  intros x Hx [<-|[]]. tauto.
Qed.

Lemma setAll_In (l : list ISplit) :
  forall (m : list (Z * ISplit)) (e : Z * ISplit),
    In e (setAll l m) ->
    In e m \/ (In (snd e) l /\ fst e = s_splitId (snd e)).
Proof.
  unfold setAll. induction l as [|x rest IH]; intros m e; simpl; [now left|].
  intro H. apply IH in H as [H|[H1 H2]]; [|now right; auto].
  apply mapSet_In in H as [->|H]; [right; simpl; auto | now left].
Qed.

Lemma setAll_NoDup (l : list ISplit) :
  forall m, NoDup (map fst m) -> NoDup (map fst (setAll l m)).
Proof.
  unfold setAll. induction l as [|x rest IH]; intros m Hm; simpl; [exact Hm|].
  now apply IH, mapSet_NoDup.
Qed.

Lemma map_keyed (m : list (Z * ISplit)) :
  (forall e, In e m -> fst e = s_splitId (snd e)) ->
  map s_splitId (map snd m) = map fst m.
Proof.
  induction m as [|e rest IH]; intro H; simpl; [reflexivity|].
  rewrite IH by (intros; apply H; now right).
  now rewrite (H e (or_introl eq_refl)).
Qed.

(** The values of the [splitMap] of [getSplits]: results of one of the two
    queries, no two with the same [splitId]. *)
Lemma splitMap_values (created joined : list ISplit) :
  (forall s, In s (map snd (setAll joined (setAll created []))) ->
             In s created \/ In s joined)
  /\ NoDup (map s_splitId (map snd (setAll joined (setAll created [])))).
Proof.
  assert (Hin : forall e, In e (setAll joined (setAll created [])) ->
                          (In (snd e) created \/ In (snd e) joined)
                          /\ fst e = s_splitId (snd e)).
  { intros e He. apply setAll_In in He as [He|[He1 He2]]; [|auto].
    apply setAll_In in He as [[]|[He1 He2]]. auto. }
  split.
  - intros s Hs. apply in_map_iff in Hs as (e & <- & He). now apply Hin.
  - rewrite map_keyed by (intros e He; now apply Hin).
    apply setAll_NoDup, setAll_NoDup. constructor.
Qed.

Lemma selectSplits_In (w : World) (a : string) (opts : QueryOptions) (s : ISplit) :
  In s (selectSplits w a opts) ->
  In s (findByCreator w a opts) \/ In s (findByParticipant w a opts).
Proof.
  unfold selectSplits. intro H.
  apply (splitMap_values (findByCreator w a opts) (findByParticipant w a opts)).
  apply sortNewestFirst_In.
  destruct (given (o_limit opts)), (given (o_skip opts));
    repeat first [apply In_firstn in H | apply In_skipn in H]; exact H.
Qed.

Lemma findByCreator_In (w : World) (a : string) (opts : QueryOptions) (s : ISplit) :
  In s (findByCreator w a opts) ->
  In s (splits w) /\ s_creatorAddress s = toLowerCase a
  /\ statusMatches opts s = true.
Proof.
  unfold findByCreator. intro H.
  apply cursor_In, sortNewestFirst_In, filter_In in H as [Hin Hf].
  apply andb_true_iff in Hf as [Hc Hs]. apply String.eqb_eq in Hc. auto.
Qed.

Lemma findByParticipant_In (w : World) (a : string) (opts : QueryOptions)
    (s : ISplit) :
  In s (findByParticipant w a opts) ->
  In s (splits w)
  /\ (exists p, In p (s_participants s) /\ p_walletAddress p = toLowerCase a)
  /\ statusMatches opts s = true.
Proof.
  unfold findByParticipant. intro H.
  apply cursor_In, sortNewestFirst_In, filter_In in H as [Hin Hf].
  apply andb_true_iff in Hf as [Hp Hs].
  apply existsb_exists in Hp as (p & Hp & Heq). apply String.eqb_eq in Heq.
  eauto.
Qed.

Lemma selectSplits_NoDup (w : World) (a : string) (opts : QueryOptions) :
  NoDup (map s_splitId (selectSplits w a opts)).
Proof.
  unfold selectSplits.
  pose proof (proj2 (splitMap_values (findByCreator w a opts)
                                     (findByParticipant w a opts))) as H.
  apply (Permutation_NoDup
           (Permutation_map s_splitId (sortNewestFirst_perm _))) in H.
  destruct (given (o_limit opts)), (given (o_skip opts));
    rewrite <- ?firstn_map, <- ?skipn_map;
    repeat first [apply NoDup_firstn | apply NoDup_skipn]; exact H.
Qed.

Lemma selectSplits_sorted (w : World) (a : string) (opts : QueryOptions) :
  StronglySorted newerFirst (selectSplits w a opts).
Proof.
  unfold selectSplits.
  destruct (given (o_limit opts)), (given (o_skip opts));
    repeat first [apply StronglySorted_firstn | apply StronglySorted_skipn];
    apply sortNewestFirst_sorted.
Qed.

(** X11.  [getSplits(walletAddress, options)] throws the invalid-address
    error exactly when the lower-cased address is malformed.  Otherwise,
    whatever [skip] and [limit] are, every entry it returns is a stored
    split of the status asked for that the address created or takes part
    in, no [splitId] is listed twice, the newest comes first, and there are
    no more entries than [limit]. *)
Theorem getSplits_lists_own_splits_once
    (w : World) (walletAddress : string) (opts : QueryOptions) :
  (isAddress (toLowerCase walletAddress) = false ->
   getSplits w walletAddress opts = Err InvalidWalletAddress)
  /\ (isAddress (toLowerCase walletAddress) = true ->
      exists listing,
        getSplits w walletAddress opts = Ok listing
        /\ (forall e,
              In e listing ->
              In (e_split e) (splits w)
              /\ involves (toLowerCase walletAddress) (e_split e)
              /\ statusMatches opts (e_split e) = true)
        /\ NoDup (map (fun e => s_splitId (e_split e)) listing)
        /\ StronglySorted newerFirst (map e_split listing)
        /\ (forall n,
              given (o_limit opts) = Some n -> (List.length listing <= n)%nat)).
Proof.
  unfold getSplits. split; intros ->; cbn [negb]; [reflexivity|].
  eexists. split; [reflexivity|]. split; [|split; [|split]].
  - intros e He. apply enriched_In in He as [Hin ->]. cbn [e_split].
    apply selectSplits_In in Hin as [Hin|Hin].
    + apply findByCreator_In in Hin as (Hin & Hc & Hs).
      rewrite toLowerCase_idempotent in Hc.
      split; [exact Hin|]. split; [now left | exact Hs].
    + apply findByParticipant_In in Hin as (Hin & Hp & Hs).
      rewrite toLowerCase_idempotent in Hp.
      split; [exact Hin|]. split; [now right | exact Hs].
  - rewrite <- (map_map e_split s_splitId), enrich_split.
    apply selectSplits_NoDup.
  - rewrite enrich_split. apply selectSplits_sorted.
  - intros n Hn. rewrite length_map. unfold selectSplits. rewrite Hn.
    rewrite length_firstn. lia.
Qed.

Lemma find_first {A} (f : A -> bool) (l : list A) (x : A) :
  In x l -> f x = true -> exists y, find f l = Some y.
Proof.
  induction l as [|a rest IH]; simpl; [contradiction|].
  intros [<-|Hin] Hf.
  - rewrite Hf. eauto.
  - destruct (f a); eauto.
Qed.

(** X12.  What an entry of [getSplits] tells the requester.  To the creator
    of a split it says [youPaid] and hides the creator's name and address.
    To anyone else it gives the creator's address, and the requester is
    then one of the participants: [youPaid] is the [hasPaid] of their own
    entry, which is listed with its [paid] field.  The [paid] field is
    present on the entries that carry the requester's address and on no
    other. *)
Theorem getSplits_entries_tell_the_requester
    (w : World) (walletAddress : string) (opts : QueryOptions)
    (listing : list EnrichedSplit) (e : EnrichedSplit) :
  getSplits w walletAddress opts = Ok listing ->
  In e listing ->
  (e_isCreator e = true ->
   e_youPaid e = true /\ e_creatorName e = None /\ e_creatorAddress e = None)
  /\ (e_isCreator e = false ->
      e_creatorAddress e = Some (s_creatorAddress (e_split e))
      /\ exists p,
           In p (s_participants (e_split e))
           /\ toLowerCase (p_walletAddress p) = toLowerCase walletAddress
           /\ e_youPaid e = p_hasPaid p
           /\ In {| ep_participant := p; ep_paid := Some (p_hasPaid p) |}
                 (e_participants e))
  /\ (forall ep,
        In ep (e_participants e) ->
        In (ep_participant ep) (s_participants (e_split e))
        /\ (ep_paid ep <> None <->
            toLowerCase (p_walletAddress (ep_participant ep))
            = toLowerCase walletAddress)).
Proof.
  unfold getSplits.
  destruct (negb (isAddress (toLowerCase walletAddress))); [discriminate|].
  intros [= <-] He. apply enriched_In in He as [Hin He].
  set (s := e_split e) in *. rewrite He. clearbody s. clear He e.
  unfold enrich. cbn [e_isCreator e_youPaid e_creatorName e_creatorAddress
                      e_participants e_split].
  split; [|split].
  - now intros ->.
  - intros Hnot. rewrite Hnot. split; [reflexivity|].
    apply selectSplits_In in Hin as [Hin|Hin].
    + apply findByCreator_In in Hin as (_ & Hc & _).
      rewrite toLowerCase_idempotent in Hc.
      rewrite Hc, toLowerCase_idempotent, String.eqb_refl in Hnot. discriminate.
    + apply findByParticipant_In in Hin as (_ & (p & Hp & Hpa) & _).
      rewrite toLowerCase_idempotent in Hpa.
      destruct (find_first
                  (fun p => String.eqb (toLowerCase (p_walletAddress p))
                                       (toLowerCase walletAddress))
                  (s_participants s) p Hp) as [q Hq].
      { rewrite Hpa, toLowerCase_idempotent. apply String.eqb_refl. }
      rewrite Hq. apply find_some in Hq as [Hq1 Hq2].
      apply String.eqb_eq in Hq2.
      exists q. split; [exact Hq1|]. split; [exact Hq2|]. split; [reflexivity|].
      apply in_map_iff. exists q. split; [|exact Hq1].
      now rewrite Hq2, String.eqb_refl.
  - intros ep Hep. apply in_map_iff in Hep as (p & <- & Hp).
    cbn [ep_participant ep_paid]. split; [exact Hp|].
    destruct (String.eqb_spec (toLowerCase (p_walletAddress p))
                              (toLowerCase walletAddress)) as [Heq|Hne].
    + split; [intros _; exact Heq | intros _; discriminate].
    + split; [intro H; now contradiction H | intro H; contradiction].
Qed.

(** Alice reads her entry in Carol's split. *)
Lemma getSplits_entries_tell_the_requester_witness :
  (e_isCreator Scenario.aliceInCarolsSplit = true ->
   e_youPaid Scenario.aliceInCarolsSplit = true /\ e_creatorName Scenario.aliceInCarolsSplit =
       None /\ e_creatorAddress Scenario.aliceInCarolsSplit = None)
  /\ (e_isCreator Scenario.aliceInCarolsSplit = false ->
      e_creatorAddress Scenario.aliceInCarolsSplit = Some (s_creatorAddress (e_split
          Scenario.aliceInCarolsSplit))
      /\ exists p,
           In p (s_participants (e_split Scenario.aliceInCarolsSplit))
           /\ toLowerCase (p_walletAddress p) = toLowerCase Sample.alice
           /\ e_youPaid Scenario.aliceInCarolsSplit = p_hasPaid p
           /\ In {| ep_participant := p; ep_paid := Some (p_hasPaid p) |}
                 (e_participants Scenario.aliceInCarolsSplit))
  /\ (forall ep,
        In ep (e_participants Scenario.aliceInCarolsSplit) ->
        In (ep_participant ep) (s_participants (e_split Scenario.aliceInCarolsSplit))
        /\ (ep_paid ep <> None <->
            toLowerCase (p_walletAddress (ep_participant ep))
            = toLowerCase Sample.alice)).
Proof.
  apply (getSplits_entries_tell_the_requester Sample.twoSplits Sample.alice noOptions
           Scenario.aliceListing Scenario.aliceInCarolsSplit).
  - vm_compute. reflexivity.
  - left. reflexivity.
Defined.

(* ================================================================== *)
(** ** Properties: the instance methods of a split *)

Lemma test_0x_toLowerCase (n : nat) (s : string) :
  test_0x isHexChar n s = true -> test_0x isHexChar n (toLowerCase s) = true.
Proof.
  intro H. destruct (test_0x_inv _ _ _ H) as (digits & -> & Hlen & Hall).
  simpl. change (lowerChar "0") with "0"%char. change (lowerChar "x") with "x"%char.
  rewrite toLowerCase_length, Hlen, Nat.eqb_refl. simpl.
  now apply allChars_toLowerCase.
Qed.

Lemma truthy_toLowerCase (s : string) : truthy (toLowerCase s) = truthy s.
Proof. now destruct s. Qed.

(** What the validators of a participant ask for. *)
Lemma invalidParticipantPath_None (p : IParticipant) :
  invalidParticipantPath p = None <->
  isAddress (p_walletAddress p) = true
  /\ optionAll (fun n => (String.length n <=? 100)%nat) (p_name p) = true
  /\ (0 <=? p_amountDue p)%float = true
  /\ optionAll (fun h => negb (truthy h) || isTxHash h) (p_paymentTxHash p) = true
  /\ (p_reminderCount p <? 0) = false.
Proof.
  unfold invalidParticipantPath.
  destruct (isAddress (p_walletAddress p)); cbn [negb];
    [|split; [discriminate | intros [? _]; discriminate]].
  destruct (optionAll _ (p_name p)); cbn [negb];
    [|split; [discriminate | intros (_ & ? & _); discriminate]].
  destruct (0 <=? p_amountDue p)%float; cbn [negb];
    [|split; [discriminate | intros (_ & _ & ? & _); discriminate]].
  destruct (optionAll _ (p_paymentTxHash p)); cbn [negb];
    [|split; [discriminate | intros (_ & _ & _ & ? & _); discriminate]].
  destruct (p_reminderCount p <? 0);
    [split; [discriminate | intros (_ & _ & _ & _ & ?); discriminate]|].
  tauto.
Qed.

Lemma lowerParticipant_valid (p : IParticipant) :
  invalidParticipantPath p = None ->
  invalidParticipantPath (lowerParticipant p) = None.
Proof.
  rewrite !invalidParticipantPath_None. intros (Ha & Hn & Hd & Hh & Hr).
  unfold lowerParticipant. cbn.
  split; [now apply isAddress_normalize|].
  split; [exact Hn|]. split; [exact Hd|]. split; [|exact Hr].
  destruct (p_paymentTxHash p) as [h|]; [|reflexivity]. cbn in *.
  rewrite truthy_toLowerCase. apply orb_true_iff in Hh as [Hh|Hh].
  - now rewrite Hh.
  - unfold isTxHash. rewrite (test_0x_toLowerCase _ _ Hh). apply orb_true_r.
Qed.

Lemma firstInvalid_None {A} (check : A -> option string) (l : list A) :
  firstInvalid check l = None <-> forall a, In a l -> check a = None.
Proof.
  induction l as [|x rest IH]; simpl.
  - split; [intros _ a [] | reflexivity].
  - destruct (check x) eqn:Hx.
    + split; [discriminate|]. intro H. rewrite <- Hx. apply H. now left.
    + rewrite IH. split.
      * intros H a [<-|Ha]; auto.
      * intros H a Ha. apply H. now right.
Qed.

(** What the validators of a split ask of its participants. *)
Lemma invalidSplitPath_participants (d : ISplit) :
  invalidSplitPath d = None ->
  (1 <= List.length (s_participants d) <= 50)%nat
  /\ firstInvalid invalidParticipantPath (s_participants d) = None.
Proof.
  unfold invalidSplitPath. intro H.
  repeat match type of H with
         | (if ?c then _ else _) = None => destruct c eqn:?; [discriminate H|]
         end.
  destruct (firstInvalid invalidParticipantPath (s_participants d));
    [discriminate|].
  match goal with
  | Hlen : negb (_ && _) = false |- _ =>
      apply negb_false_iff, andb_true_iff in Hlen as [H1 H2];
      apply Nat.leb_le in H1; apply Nat.leb_le in H2
  end.
  auto.
Qed.

(** A valid split stays valid when its participants are replaced by a
    valid list. *)
Lemma setParticipants_valid (d : ISplit) (l : list IParticipant) :
  invalidSplitPath d = None ->
  (1 <= List.length l <= 50)%nat ->
  firstInvalid invalidParticipantPath l = None ->
  invalidSplitPath (setParticipants d l) = None.
Proof.
  unfold invalidSplitPath. cbn [setParticipants s_splitId s_contractAddress s_txHash
    s_blockNumber s_creatorAddress s_description s_totalAmount s_currency
    s_participants s_category s_note s_imageUrl].
  intros H [H1 H2] Hl. rewrite Hl.
  apply Nat.leb_le in H1. apply Nat.leb_le in H2. rewrite H1, H2. cbn [andb negb].
  repeat match type of H with
         | (if ?c then _ else _) = None => destruct c eqn:?; [discriminate H|]
         end.
  destruct (firstInvalid invalidParticipantPath (s_participants d));
    [discriminate|].
  repeat match type of H with
         | (if ?c then _ else _) = None => destruct c eqn:?; [discriminate H|]
         end.
  reflexivity.
Qed.

Lemma touchSplit_valid (now : Z) (d : ISplit) :
  invalidSplitPath (touchSplit now d) = invalidSplitPath d.
Proof. reflexivity. Qed.

Lemma assignStatus_valid (now : Z) (st : SplitStatus) (d : ISplit) :
  invalidSplitPath (assignStatus now st d) = invalidSplitPath d.
Proof. reflexivity. Qed.

Lemma lowered_valid (l : list IParticipant) :
  firstInvalid invalidParticipantPath l = None ->
  firstInvalid invalidParticipantPath (map lowerParticipant l) = None.
Proof.
  rewrite !firstInvalid_None. intros H q Hq.
  apply in_map_iff in Hq as (p & <- & Hp). now apply lowerParticipant_valid, H.
Qed.

(** The hooks keep a valid document valid. *)
Lemma hooked_valid (s : InMemory) :
  invalidSplitPath (im_this s) = None ->
  invalidSplitPath (SplitDocument.hooked s) = None.
Proof.
  intro H. unfold SplitDocument.hooked.
  destruct (im_participantsModified s); [|exact H].
  destruct (invalidSplitPath_participants _ H) as [Hlen Hl].
  apply setParticipants_valid; [exact H | now rewrite length_map |].
  now apply lowered_valid.
Qed.

(** [save] on a document the validators accept. *)
Lemma save_fulfilled (now : Z) (s : InMemory) :
  invalidSplitPath (im_this s) = None ->
  SplitDocument.save now s
  = ({| im_world := writeBack (SplitDocument.stamped now s) (im_world s);
        im_this := SplitDocument.stamped now s;
        im_participantsModified := false;
        im_statusModified := false |}, Fulfilled).
Proof. intro H. unfold SplitDocument.save. now rewrite H. Qed.

(** With modified participants the document written is the hooked one,
    stamped. *)
Lemma stamped_modified (now : Z) (s : InMemory) :
  im_participantsModified s = true ->
  SplitDocument.stamped now s = touchSplit now (SplitDocument.hooked s).
Proof. intro H. unfold SplitDocument.stamped. now rewrite H. Qed.

Lemma stamped_valid (now : Z) (s : InMemory) :
  invalidSplitPath (SplitDocument.stamped now s)
  = invalidSplitPath (SplitDocument.hooked s).
Proof.
  unfold SplitDocument.stamped.
  now destruct (im_participantsModified s || im_statusModified s).
Qed.

(** [save] on a document the validators refuse. *)
Lemma save_refused (now : Z) (s : InMemory) (path : string) :
  invalidSplitPath (im_this s) = Some path ->
  SplitDocument.save now s = (s, RejectedWith (Refusal (ValidationFailed path))).
Proof. intro H. unfold SplitDocument.save. now rewrite H. Qed.

(** Whatever [save] does, it is fulfilled exactly on valid documents. *)
Lemma save_inv (now : Z) (s s' : InMemory) :
  SplitDocument.save now s = (s', Fulfilled) ->
  invalidSplitPath (im_this s) = None
  /\ s' = {| im_world := writeBack (SplitDocument.stamped now s) (im_world s);
             im_this := SplitDocument.stamped now s;
             im_participantsModified := false;
             im_statusModified := false |}.
Proof.
  destruct (invalidSplitPath (im_this s)) eqn:Hv.
  - rewrite (save_refused _ _ _ Hv). discriminate.
  - rewrite (save_fulfilled _ _ Hv). intros [= <-]. auto.
Qed.

Lemma lowerParticipant_idempotent (p : IParticipant) :
  lowerParticipant (lowerParticipant p) = lowerParticipant p.
Proof.
  unfold lowerParticipant. cbn. rewrite toLowerCase_idempotent.
  destruct (p_paymentTxHash p); cbn; [now rewrite toLowerCase_idempotent|reflexivity].
Qed.

(** The replacement of a stored split is found under its [splitId]. *)
Lemma replaced_found (d' : ISplit) (l : list ISplit) (k : Z) :
  s_splitId d' = k ->
  find (fun s => s_splitId s =? k)
       (map (fun s => if s_splitId s =? k then d' else s) l)
  = option_map (fun _ => d') (find (fun s => s_splitId s =? k) l).
Proof.
  intro Hk. induction l as [|x rest IH]; simpl; [reflexivity|].
  destruct (s_splitId x =? k) eqn:Hx.
  - now rewrite Hk, Z.eqb_refl.
  - now rewrite Hx.
Qed.

(** The other stored splits are left alone. *)
Lemma replaced_others (d' : ISplit) (l : list ISplit) (k id : Z) :
  s_splitId d' = k -> id <> k ->
  find (fun s => s_splitId s =? id)
       (map (fun s => if s_splitId s =? k then d' else s) l)
  = find (fun s => s_splitId s =? id) l.
Proof.
  intros Hk Hid. induction l as [|x rest IH]; simpl; [reflexivity|].
  destruct (s_splitId x =? k) eqn:Hx.
  - apply Z.eqb_eq in Hx. rewrite Hk, Hx.
    destruct (k =? id) eqn:Hkid; [apply Z.eqb_eq in Hkid; congruence | exact IH].
  - now rewrite IH.
Qed.

Lemma writeBack_found (d : ISplit) (w : World) (k : Z) :
  s_splitId d = k ->
  findBySplitId (writeBack d w) k = option_map (fun _ => d) (findBySplitId w k).
Proof.
  intros <-. unfold findBySplitId, writeBack. cbn. now apply replaced_found.
Qed.

Lemma writeBack_others (d : ISplit) (w : World) (k id : Z) :
  s_splitId d = k -> id <> k ->
  findBySplitId (writeBack d w) id = findBySplitId w id.
Proof.
  intros <- H. unfold findBySplitId, writeBack. cbn. now apply replaced_others.
Qed.

Lemma writeBack_users (d : ISplit) (w : World) : users (writeBack d w) = users w.
Proof. reflexivity. Qed.

Lemma hooked_splitId (s : InMemory) :
  s_splitId (SplitDocument.hooked s) = s_splitId (im_this s).
Proof. unfold SplitDocument.hooked. now destruct (im_participantsModified s). Qed.

Lemma stamped_splitId (now : Z) (s : InMemory) :
  s_splitId (SplitDocument.stamped now s) = s_splitId (im_this s).
Proof.
  unfold SplitDocument.stamped.
  destruct (im_participantsModified s || im_statusModified s);
    [cbn [touchSplit s_splitId]|]; apply hooked_splitId.
Qed.

Lemma updateFirst_length (test : IParticipant -> bool)
    (f : IParticipant -> IParticipant) (l : list IParticipant) :
  List.length (SplitDocument.updateFirst test f l) = List.length l.
Proof.
  induction l as [|p rest IH]; simpl; [reflexivity|].
  destruct (test p); simpl; congruence.
Qed.

Lemma updateFirst_In (test : IParticipant -> bool)
    (f : IParticipant -> IParticipant) (l : list IParticipant) (q : IParticipant) :
  In q (SplitDocument.updateFirst test f l) ->
  In q l \/ exists p, In p l /\ q = f p.
Proof.
  induction l as [|p rest IH]; simpl; [tauto|].
  destruct (test p); simpl.
  - intros [<-|H]; [right; exists p; auto | auto].
  - intros [<-|H]; [auto|]. destruct (IH H) as [?|(p' & ? & ?)]; eauto.
Qed.

Lemma updateFirst_valid (test : IParticipant -> bool)
    (f : IParticipant -> IParticipant) (l : list IParticipant) :
  (forall p, invalidParticipantPath p = None -> invalidParticipantPath (f p) = None) ->
  firstInvalid invalidParticipantPath l = None ->
  firstInvalid invalidParticipantPath (SplitDocument.updateFirst test f l) = None.
Proof.
  rewrite !firstInvalid_None. intros Hf Hl q Hq.
  apply updateFirst_In in Hq as [Hq|(p & Hp & ->)]; auto.
Qed.

Lemma updateFirst_find (test : IParticipant -> bool)
    (f : IParticipant -> IParticipant) (l : list IParticipant) (p : IParticipant) :
  find test l = Some p -> test (f p) = true ->
  find test (SplitDocument.updateFirst test f l) = Some (f p).
Proof.
  induction l as [|x rest IH]; simpl; [discriminate|].
  destruct (test x) eqn:Hx; simpl.
  - intros [= ->] ->. reflexivity.
  - rewrite Hx. exact IH.
Qed.

Lemma updateFirst_amounts (test : IParticipant -> bool)
    (f : IParticipant -> IParticipant) (l : list IParticipant) :
  (forall p, p_amountDue (f p) = p_amountDue p) ->
  map p_amountDue (SplitDocument.updateFirst test f l) = map p_amountDue l.
Proof.
  intro Hf. induction l as [|x rest IH]; simpl; [reflexivity|].
  destruct (test x); simpl; [now rewrite Hf | now rewrite IH].
Qed.

Lemma paid_valid (now : Z) (txHash : string) (p : IParticipant) :
  isTxHash (trim txHash) = true ->
  invalidParticipantPath p = None ->
  invalidParticipantPath (SplitDocument.paid now txHash p) = None.
Proof.
  intro Hh. rewrite !invalidParticipantPath_None. intros (Ha & Hn & Hd & _ & Hr).
  unfold SplitDocument.paid. cbn [p_walletAddress p_name p_amountDue
    p_paymentTxHash p_reminderCount optionAll].
  rewrite Hh, orb_true_r. auto.
Qed.

(** Paying the first unpaid entry of an address raises the number of paid
    entries by one. *)
Lemma paid_count (test : IParticipant -> bool) (now : Z) (txHash : string)
    (l : list IParticipant) (p : IParticipant) :
  find test l = Some p -> p_hasPaid p = false ->
  List.length (filter p_hasPaid
                 (SplitDocument.updateFirst test (SplitDocument.paid now txHash) l))
  = S (List.length (filter p_hasPaid l)).
Proof.
  induction l as [|x rest IH]; simpl; [discriminate|].
  destruct (test x) eqn:Hx; simpl.
  - intros [= ->] ->. reflexivity.
  - intros Hf Hp. destruct (p_hasPaid x); simpl; now rewrite IH.
Qed.

(** After that payment everyone has paid exactly when the entry was the
    only unpaid one. *)
Lemma paid_all (test : IParticipant -> bool) (now : Z) (txHash : string)
    (l : list IParticipant) (p : IParticipant) :
  find test l = Some p -> p_hasPaid p = false ->
  forallb p_hasPaid
    (SplitDocument.updateFirst test (SplitDocument.paid now txHash) l)
  = (List.length (filter (fun p => negb (p_hasPaid p)) l) =? 1)%nat.
Proof.
  induction l as [|x rest IH]; simpl; [discriminate|].
  destruct (test x) eqn:Hx; simpl.
  - intros [= ->] ->. simpl. clear.
    induction rest as [|y rest IH]; simpl; [reflexivity|].
    destruct (p_hasPaid y); simpl; [exact IH|].
    now destruct (List.length (filter (fun p => negb (p_hasPaid p)) rest)).
  - intros Hf Hp. destruct (p_hasPaid x) eqn:Hpaid; simpl; [now apply IH|].
    apply find_some in Hf as [Hin Htest].
    assert (Hpos : In p (filter (fun p => negb (p_hasPaid p)) rest))
      by (apply filter_In; now rewrite Hp).
    destruct (filter (fun p => negb (p_hasPaid p)) rest); [contradiction|reflexivity].
Qed.

Lemma lowered_paid (l : list IParticipant) :
  filter p_hasPaid (map lowerParticipant l) = map lowerParticipant (filter p_hasPaid l).
Proof.
  induction l as [|x rest IH]; simpl; [reflexivity|].
  destruct (p_hasPaid x); simpl; now rewrite IH.
Qed.

Lemma lowered_unpaid (l : list IParticipant) :
  filter (fun p => negb (p_hasPaid p)) (map lowerParticipant l)
  = map lowerParticipant (filter (fun p => negb (p_hasPaid p)) l).
Proof.
  induction l as [|x rest IH]; simpl; [reflexivity|].
  destruct (p_hasPaid x); simpl; now rewrite IH.
Qed.

Lemma lowered_amounts (l : list IParticipant) :
  map p_amountDue (map lowerParticipant l) = map p_amountDue l.
Proof. rewrite map_map. reflexivity. Qed.

Lemma sameWallet_lowered (a : string) (p : IParticipant) :
  SplitDocument.sameWallet a (lowerParticipant p) = SplitDocument.sameWallet a p.
Proof.
  unfold SplitDocument.sameWallet, lowerParticipant. cbn [p_walletAddress].
  now rewrite toLowerCase_idempotent.
Qed.

Lemma lowered_find (a : string) (l : list IParticipant) :
  find (SplitDocument.sameWallet a) (map lowerParticipant l)
  = option_map lowerParticipant (find (SplitDocument.sameWallet a) l).
Proof.
  induction l as [|x rest IH]; simpl; [reflexivity|].
  rewrite sameWallet_lowered. now destruct (SplitDocument.sameWallet a x).
Qed.

(** The virtual counts split the participants in two. *)
Lemma counts_add_up (d : ISplit) :
  (paidCount d + unpaidCount d)%nat = List.length (s_participants d).
Proof.
  unfold paidCount, unpaidCount.
  induction (s_participants d) as [|x rest IH]; simpl; [reflexivity|].
  destruct (p_hasPaid x); simpl; lia.
Qed.

Section MarkPaid.

Variables (now : Z) (walletAddress txHash : string) (w : World) (d : ISplit)
  (p : IParticipant).
Hypothesis valid : invalidSplitPath d = None.
Hypothesis found :
  find (SplitDocument.sameWallet walletAddress) (s_participants d) = Some p.
Hypothesis unpaid : p_hasPaid p = false.
Hypothesis hash : isTxHash (trim txHash) = true.

Lemma written_valid (d0 : ISplit) :
  invalidSplitPath d0 = None ->
  invalidSplitPath
    (setParticipants d0
       (SplitDocument.updateFirst (SplitDocument.sameWallet walletAddress)
          (SplitDocument.paid now txHash) (s_participants d))) = None.
Proof using valid hash.
  intro H0. destruct (invalidSplitPath_participants _ valid) as [Hlen Hl].
  apply setParticipants_valid; [exact H0 | |].
  - now rewrite updateFirst_length.
  - apply updateFirst_valid; [|exact Hl]. intros q. now apply paid_valid.
Qed.

Lemma lowered_written_valid (d0 : ISplit) :
  invalidSplitPath d0 = None ->
  invalidSplitPath
    (setParticipants d0
       (map lowerParticipant
          (SplitDocument.updateFirst (SplitDocument.sameWallet walletAddress)
             (SplitDocument.paid now txHash) (s_participants d)))) = None.
Proof using valid hash.
  intro H0. destruct (invalidSplitPath_participants _ (written_valid d valid))
    as [Hlen Hl]. cbn [setParticipants s_participants] in Hlen, Hl.
  apply setParticipants_valid; [exact H0 | now rewrite length_map |].
  now apply lowered_valid.
Qed.

(** The run of [markParticipantPaid] on a valid document, for a
    participant who has not paid. *)
Lemma markParticipantPaid_run :
  exists w',
    SplitDocument.markParticipantPaid now walletAddress txHash (loaded w d)
    = ({| im_world := w'; im_this := paidUp now walletAddress txHash d;
          im_participantsModified := false; im_statusModified := false |},
       Fulfilled)
    /\ findBySplitId w' (s_splitId d)
       = option_map (fun _ => paidUp now walletAddress txHash d)
           (findBySplitId w (s_splitId d))
    /\ (forall id, id <> s_splitId d -> findBySplitId w' id = findBySplitId w id)
    /\ users w' = users w.
Proof using valid found unpaid hash.
  unfold SplitDocument.markParticipantPaid, loaded.
  cbn [im_this im_world im_participantsModified im_statusModified].
  rewrite found, unpaid.
  unfold andThen, SplitDocument.checkAndUpdateCompletion,
    SplitDocument.writeParticipants.
  cbn [im_this im_world im_participantsModified im_statusModified setParticipants
       s_participants s_isCompleted].
  rewrite (paid_all _ _ _ _ _ found unpaid).
  fold (unpaidCount d). rewrite updateFirst_length.
  destruct (invalidSplitPath_participants _ valid) as [Hlen _].
  assert (Hpos : (0 <? List.length (s_participants d))%nat = true)
    by (apply Nat.ltb_lt; lia).
  rewrite Hpos, andb_true_r.
  unfold paidUp.
  destruct ((unpaidCount d =? 1)%nat && negb (s_isCompleted d)) eqn:Hcond.
  - unfold SplitDocument.updateStatus.
    cbn [im_this im_world im_participantsModified im_statusModified].
    rewrite save_fulfilled
      by (cbn [im_this]; rewrite assignStatus_valid; now apply written_valid).
    cbn [SplitDocument.stamped SplitDocument.hooked im_this im_world
         im_participantsModified im_statusModified orb].
    rewrite save_fulfilled
      by (cbn [im_this]; rewrite touchSplit_valid;
          apply (lowered_written_valid (assignStatus now completed d));
          now rewrite assignStatus_valid).
    cbn [SplitDocument.stamped SplitDocument.hooked im_this im_world
         im_participantsModified im_statusModified orb].
    eexists. split; [reflexivity|].
    split; [|split].
    + rewrite (writeBack_found _ _ (s_splitId d)) by reflexivity.
      rewrite (writeBack_found _ _ (s_splitId d)) by reflexivity.
      now destruct (findBySplitId w (s_splitId d)).
    + intros id Hid.
      rewrite (writeBack_others _ _ (s_splitId d)) by (reflexivity || exact Hid).
      now rewrite (writeBack_others _ _ (s_splitId d))
        by (reflexivity || exact Hid).
    + reflexivity.
  - rewrite save_fulfilled by (cbn [im_this]; now apply written_valid).
    cbn [SplitDocument.stamped SplitDocument.hooked im_this im_world
         im_participantsModified im_statusModified orb].
    eexists. split; [reflexivity|].
    split; [|split].
    + now rewrite (writeBack_found _ _ (s_splitId d)) by reflexivity.
    + intros id Hid.
      now rewrite (writeBack_others _ _ (s_splitId d))
        by (reflexivity || exact Hid).
    + reflexivity.
Qed.

End MarkPaid.

(** X13.  [markParticipantPaid(walletAddress, txHash)] on a valid document,
    for an address whose first entry has not paid and a well-formed payment
    hash: the promise is fulfilled; the entry is marked paid at [now] with
    the hash in lower case; one more participant has paid and one fewer has
    not; the amounts due are as before.  When the entry was the last unpaid
    one and the split was not completed, the split is now [completed] and
    no longer cancelled, and [completedAt] is [now] unless it was set
    before; otherwise status, flags and [completedAt] are as before.  The
    stored copy of the split, if there is one, is the document in memory;
    users are not touched. *)
Theorem markParticipantPaid_records_payment
    (now : Z) (walletAddress txHash : string) (w : World) (d : ISplit)
    (p : IParticipant) :
  invalidSplitPath d = None ->
  find (SplitDocument.sameWallet walletAddress) (s_participants d) = Some p ->
  p_hasPaid p = false ->
  isTxHash (trim txHash) = true ->
  exists s',
    SplitDocument.markParticipantPaid now walletAddress txHash (loaded w d)
    = (s', Fulfilled)
    /\ find (SplitDocument.sameWallet walletAddress) (s_participants (im_this s'))
       = Some {| p_walletAddress := toLowerCase (p_walletAddress p);
                 p_name := p_name p;
                 p_amountDue := p_amountDue p;
                 p_hasPaid := true;
                 p_paidAt := Some now;
                 p_paymentTxHash := Some (toLowerCase (trim txHash));
                 p_reminderCount := p_reminderCount p;
                 p_lastRemindedAt := p_lastRemindedAt p |}
    /\ paidCount (im_this s') = S (paidCount d)
    /\ S (unpaidCount (im_this s')) = unpaidCount d
    /\ map p_amountDue (s_participants (im_this s'))
       = map p_amountDue (s_participants d)
    /\ (unpaidCount d = 1%nat -> s_isCompleted d = false ->
        s_status (im_this s') = completed
        /\ s_isCompleted (im_this s') = true
        /\ s_isCancelled (im_this s') = false
        /\ s_completedAt (im_this s')
           = Some (match s_completedAt d with Some t => t | None => now end))
    /\ (unpaidCount d <> 1%nat \/ s_isCompleted d = true ->
        s_status (im_this s') = s_status d
        /\ s_isCompleted (im_this s') = s_isCompleted d
        /\ s_isCancelled (im_this s') = s_isCancelled d
        /\ s_completedAt (im_this s') = s_completedAt d)
    /\ findBySplitId (im_world s') (s_splitId d)
       = option_map (fun _ => im_this s') (findBySplitId w (s_splitId d))
    /\ users (im_world s') = users w.
Proof.
  intros Hvalid Hfound Hunpaid Hhash.
  destruct (markParticipantPaid_run now walletAddress txHash w d p
              Hvalid Hfound Hunpaid Hhash) as (w' & Hrun & Hstored & _ & Husers).
  eexists. split; [exact Hrun|]. cbn [im_this im_world].
  assert (Hparts : s_participants (paidUp now walletAddress txHash d)
                   = map lowerParticipant
                       (SplitDocument.updateFirst
                          (SplitDocument.sameWallet walletAddress)
                          (SplitDocument.paid now txHash) (s_participants d)))
    by reflexivity.
  assert (Hpaid : paidCount (paidUp now walletAddress txHash d) = S (paidCount d)).
  { unfold paidCount. rewrite Hparts, lowered_paid, length_map.
    now apply paid_count with (p := p). }
  split.
  { rewrite Hparts, lowered_find.
    rewrite (updateFirst_find _ _ _ p Hfound).
    - reflexivity.
    - apply find_some in Hfound as [_ Hfound]. exact Hfound. }
  split; [exact Hpaid|].
  split.
  { pose proof (counts_add_up (paidUp now walletAddress txHash d)) as H1.
    pose proof (counts_add_up d) as H2.
    rewrite Hparts, length_map, updateFirst_length in H1. lia. }
  split.
  { rewrite Hparts, lowered_amounts. now apply updateFirst_amounts. }
  split; [|split; [|split; [exact Hstored | exact Husers]]].
  - intros Hone Hopen. unfold paidUp. rewrite Hone, Hopen. cbn.
    now destruct (s_completedAt d).
  - intros Hother. unfold paidUp.
    assert (Hcond : (unpaidCount d =? 1)%nat && negb (s_isCompleted d) = false).
    { destruct Hother as [Hne|Hdone].
      - apply Nat.eqb_neq in Hne. now rewrite Hne.
      - rewrite Hdone. apply andb_false_r. }
    rewrite Hcond. cbn. auto.
Qed.

(** Bob pays the last open half of [Scenario.tab]. *)
Lemma markParticipantPaid_records_payment_witness :
  exists s',
  SplitDocument.markParticipantPaid 500 Sample.bob Sample.hash2 (loaded Scenario.tabStore
      Scenario.tab)
  = (s', Fulfilled)
  /\ find (SplitDocument.sameWallet Sample.bob) (s_participants (im_this s'))
     = Some {| p_walletAddress := toLowerCase (p_walletAddress (Sample.owes Sample.bob false));
               p_name := p_name (Sample.owes Sample.bob false);
               p_amountDue := p_amountDue (Sample.owes Sample.bob false);
               p_hasPaid := true;
               p_paidAt := Some 500;
               p_paymentTxHash := Some (toLowerCase (trim Sample.hash2));
               p_reminderCount := p_reminderCount (Sample.owes Sample.bob false);
               p_lastRemindedAt := p_lastRemindedAt (Sample.owes Sample.bob false) |}
  /\ paidCount (im_this s') = S (paidCount Scenario.tab)
  /\ S (unpaidCount (im_this s')) = unpaidCount Scenario.tab
  /\ map p_amountDue (s_participants (im_this s'))
     = map p_amountDue (s_participants Scenario.tab)
  /\ (unpaidCount Scenario.tab = 1%nat -> s_isCompleted Scenario.tab = false ->
      s_status (im_this s') = completed
      /\ s_isCompleted (im_this s') = true
      /\ s_isCancelled (im_this s') = false
      /\ s_completedAt (im_this s')
         = Some (match s_completedAt Scenario.tab with Some t => t | None => 500 end))
  /\ (unpaidCount Scenario.tab <> 1%nat \/ s_isCompleted Scenario.tab = true ->
      s_status (im_this s') = s_status Scenario.tab
      /\ s_isCompleted (im_this s') = s_isCompleted Scenario.tab
      /\ s_isCancelled (im_this s') = s_isCancelled Scenario.tab
      /\ s_completedAt (im_this s') = s_completedAt Scenario.tab)
  /\ findBySplitId (im_world s') (s_splitId Scenario.tab)
     = option_map (fun _ => im_this s') (findBySplitId Scenario.tabStore (s_splitId Scenario.tab))
  /\ users (im_world s') = users Scenario.tabStore.
Proof.
  apply (markParticipantPaid_records_payment 500 Sample.bob Sample.hash2 Scenario.tabStore
           Scenario.tab (Sample.owes Sample.bob false)).
  - vm_compute. reflexivity.
  - vm_compute. reflexivity.
  - reflexivity.
  - vm_compute. reflexivity.
Defined.

(** What a fulfilled [markParticipantPaid] has found and written. *)
Lemma markParticipantPaid_inv (now : Z) (walletAddress txHash : string)
    (s s' : InMemory) :
  SplitDocument.markParticipantPaid now walletAddress txHash s = (s', Fulfilled) ->
  exists p,
    find (SplitDocument.sameWallet walletAddress) (s_participants (im_this s))
    = Some p
    /\ p_hasPaid p = false
    /\ s_participants (im_this s')
       = map lowerParticipant
           (SplitDocument.updateFirst (SplitDocument.sameWallet walletAddress)
              (SplitDocument.paid now txHash) (s_participants (im_this s)))
    /\ im_participantsModified s' = false.
Proof.
  unfold SplitDocument.markParticipantPaid.
  destruct (find _ (s_participants (im_this s))) as [p|] eqn:Hfound;
    [|discriminate].
  destruct (p_hasPaid p) eqn:Hunpaid; [discriminate|].
  unfold andThen, SplitDocument.checkAndUpdateCompletion.
  match goal with
  | |- context [if ?c then _ else _] => destruct c
  end.
  - unfold SplitDocument.updateStatus.
    match goal with
    | |- context [SplitDocument.save now ?x] =>
        destruct (SplitDocument.save now x) as [s1 [|failure]] eqn:H1
    end; [|discriminate].
    apply save_inv in H1 as [_ ->]. intro H2. apply save_inv in H2 as [_ ->].
    exists p. auto.
  - intro H2. apply save_inv in H2 as [_ ->]. exists p. auto.
Qed.

Lemma sameWallet_ext (a a' : string) (l : list IParticipant) :
  toLowerCase a' = toLowerCase a ->
  find (SplitDocument.sameWallet a') l = find (SplitDocument.sameWallet a) l.
Proof.
  intro H. induction l as [|x rest IH]; simpl; [reflexivity|].
  unfold SplitDocument.sameWallet at 1 3. now rewrite H, IH.
Qed.

(** X14.  Nobody pays twice.  Once [markParticipantPaid] is fulfilled for
    an address, every later call for that address, however it is spelled in
    upper and lower case, is rejected with the already-paid error and
    changes neither the document nor the store. *)
Theorem markParticipantPaid_only_once
    (now : Z) (walletAddress txHash : string) (s s' : InMemory)
    (now' : Z) (walletAddress' txHash' : string) :
  SplitDocument.markParticipantPaid now walletAddress txHash s = (s', Fulfilled) ->
  toLowerCase walletAddress' = toLowerCase walletAddress ->
  SplitDocument.markParticipantPaid now' walletAddress' txHash' s'
  = (s', RejectedWith
           (Thrown ("Participant " ++ walletAddress' ++ " has already paid"))).
Proof.
  intros Hrun Hsame.
  apply markParticipantPaid_inv in Hrun as (p & Hfound & Hunpaid & Hparts & _).
  unfold SplitDocument.markParticipantPaid. rewrite Hparts.
  rewrite (sameWallet_ext _ _ _ Hsame).
  rewrite lowered_find, (updateFirst_find _ _ _ p Hfound).
  - reflexivity.
  - apply find_some in Hfound as [_ Hfound]. exact Hfound.
Qed.

(** Bob, who has paid, is asked to pay again under another spelling. *)
Lemma markParticipantPaid_only_once_witness :
  SplitDocument.markParticipantPaid 600 Scenario.bobUpper Sample.hash1 Scenario.tabPaid
  = (Scenario.tabPaid, RejectedWith
           (Thrown ("Participant " ++ Scenario.bobUpper ++ " has already paid"))).
Proof.
  apply (markParticipantPaid_only_once 500 Sample.bob Sample.hash2 (loaded
           Scenario.tabStore Scenario.tab) Scenario.tabPaid 600 Scenario.bobUpper
           Sample.hash1).
  - vm_compute. reflexivity.
  - vm_compute. reflexivity.
Defined.

(** A valid split whose participants are replaced by too few or too many
    fails on the path [participants]. *)
Lemma setParticipants_overflow (d : ISplit) (l : list IParticipant) :
  invalidSplitPath d = None ->
  ~ (1 <= List.length l <= 50)%nat ->
  invalidSplitPath (setParticipants d l) = Some "participants"%string.
Proof.
  unfold invalidSplitPath. cbn [setParticipants s_splitId s_contractAddress s_txHash
    s_blockNumber s_creatorAddress s_description s_totalAmount s_currency
    s_participants s_category s_note s_imageUrl].
  intros H Hlen.
  assert (Hl : (1 <=? List.length l)%nat && (List.length l <=? 50)%nat = false).
  { apply not_true_is_false. intro Ht. apply Hlen.
    apply andb_true_iff in Ht as [H1 H2].
    apply Nat.leb_le in H1. apply Nat.leb_le in H2. lia. }
  rewrite Hl. cbn [negb].
  repeat match type of H with
         | (if ?c then _ else _) = None => destruct c eqn:?; [discriminate H|]
         end.
  reflexivity.
Qed.

(** A split with an invalid participant is not valid. *)
Lemma invalid_participant (d : ISplit) (q : IParticipant) :
  In q (s_participants d) -> invalidParticipantPath q <> None ->
  exists path, invalidSplitPath d = Some path.
Proof.
  intros Hin Hq. destruct (invalidSplitPath d) as [path|] eqn:Hv; [eauto|].
  apply invalidSplitPath_participants in Hv as [_ Hl].
  rewrite firstInvalid_None in Hl. now specialize (Hl q Hin).
Qed.

Lemma updateFirst_has (test : IParticipant -> bool)
    (f : IParticipant -> IParticipant) (l : list IParticipant) (p : IParticipant) :
  find test l = Some p -> In (f p) (SplitDocument.updateFirst test f l).
Proof.
  induction l as [|x rest IH]; simpl; [discriminate|].
  destruct (test x); simpl.
  - intros [= ->]. now left.
  - intro H. right. now apply IH.
Qed.

(** X15.  [markParticipantPaid] with a payment hash that is not empty and
    not well formed, on a valid document and for a participant who has not
    paid: the promise is rejected by the validators at [save], nothing is
    written to the store, but the document in memory already carries the
    payment. *)
Theorem markParticipantPaid_malformed_hash
    (now : Z) (walletAddress txHash : string) (w : World) (d : ISplit)
    (p : IParticipant) :
  invalidSplitPath d = None ->
  find (SplitDocument.sameWallet walletAddress) (s_participants d) = Some p ->
  p_hasPaid p = false ->
  truthy (trim txHash) = true ->
  isTxHash (trim txHash) = false ->
  exists s' path,
    SplitDocument.markParticipantPaid now walletAddress txHash (loaded w d)
    = (s', RejectedWith (Refusal (ValidationFailed path)))
    /\ im_world s' = w
    /\ find (SplitDocument.sameWallet walletAddress) (s_participants (im_this s'))
       = Some (SplitDocument.paid now txHash p)
    /\ p_hasPaid (SplitDocument.paid now txHash p) = true.
Proof.
  intros Hvalid Hfound Hunpaid Hfull Hhash.
  assert (Hbad : invalidParticipantPath (SplitDocument.paid now txHash p) <> None).
  { rewrite invalidParticipantPath_None. intros (_ & _ & _ & Hh & _).
    cbn in Hh. rewrite Hfull, Hhash in Hh. discriminate. }
  assert (Hfind : find (SplitDocument.sameWallet walletAddress)
                    (SplitDocument.updateFirst (SplitDocument.sameWallet walletAddress)
                       (SplitDocument.paid now txHash) (s_participants d))
                  = Some (SplitDocument.paid now txHash p)).
  { apply updateFirst_find; [exact Hfound|].
    apply find_some in Hfound as [_ Hfound]. exact Hfound. }
  unfold SplitDocument.markParticipantPaid, loaded.
  cbn [im_this im_world im_participantsModified]. rewrite Hfound, Hunpaid.
  unfold andThen, SplitDocument.checkAndUpdateCompletion,
    SplitDocument.writeParticipants.
  cbn [im_this im_world im_participantsModified].
  match goal with
  | |- context [if ?c then _ else _] => destruct c
  end.
  - unfold SplitDocument.updateStatus.
    cbn [im_this im_world im_participantsModified].
    destruct (invalid_participant
                (assignStatus now completed
                   (setParticipants d
                      (SplitDocument.updateFirst
                         (SplitDocument.sameWallet walletAddress)
                         (SplitDocument.paid now txHash) (s_participants d))))
                (SplitDocument.paid now txHash p)) as [path Hpath];
      [now apply updateFirst_has | exact Hbad |].
    rewrite (save_refused _ _ path) by exact Hpath.
    eexists; exists path. split; [reflexivity|]. auto.
  - destruct (invalid_participant
                (setParticipants d
                   (SplitDocument.updateFirst
                      (SplitDocument.sameWallet walletAddress)
                      (SplitDocument.paid now txHash) (s_participants d)))
                (SplitDocument.paid now txHash p)) as [path Hpath];
      [now apply updateFirst_has | exact Hbad |].
    rewrite (save_refused _ _ path) by exact Hpath.
    eexists; exists path. split; [reflexivity|]. auto.
Qed.

(** Bob pays with a hash of two digits. *)
Lemma markParticipantPaid_malformed_hash_witness :
  exists s' path,
  SplitDocument.markParticipantPaid 500 Sample.bob ("0x12"%string) (loaded Scenario.tabStore
      Scenario.tab)
  = (s', RejectedWith (Refusal (ValidationFailed path)))
  /\ im_world s' = Scenario.tabStore
  /\ find (SplitDocument.sameWallet Sample.bob) (s_participants (im_this s'))
     = Some (SplitDocument.paid 500 ("0x12"%string) (Sample.owes Sample.bob false))
  /\ p_hasPaid (SplitDocument.paid 500 ("0x12"%string) (Sample.owes Sample.bob false)) = true.
Proof.
  apply (markParticipantPaid_malformed_hash 500 Sample.bob ("0x12"%string)
           Scenario.tabStore Scenario.tab (Sample.owes Sample.bob false)).
  - vm_compute. reflexivity.
  - vm_compute. reflexivity.
  - reflexivity.
  - vm_compute. reflexivity.
  - vm_compute. reflexivity.
Defined.

Lemma lowered_keys (l : list IParticipant) :
  map (fun p => toLowerCase (p_walletAddress p)) (map lowerParticipant l)
  = map (fun p => toLowerCase (p_walletAddress p)) l.
Proof.
  rewrite map_map. apply map_ext. intro p. cbn. apply toLowerCase_idempotent.
Qed.

Lemma existsb_sameWallet (a : string) (l : list IParticipant) :
  existsb (SplitDocument.sameWallet a) l = false ->
  ~ In (toLowerCase a) (map (fun p => toLowerCase (p_walletAddress p)) l).
Proof.
  induction l as [|x rest IH]; simpl; [tauto|].
  intro H. apply orb_false_iff in H as [Hx Hrest].
  intros [Heq|Hin]; [|now apply IH].
  unfold SplitDocument.sameWallet in Hx. rewrite Heq, String.eqb_refl in Hx.
  discriminate.
Qed.

(** The address of an entry that went through the setters. *)
Lemma castParticipant_key (participant : IParticipant) :
  isAddress (p_walletAddress participant) = true ->
  p_walletAddress (castParticipant participant)
  = toLowerCase (p_walletAddress participant).
Proof.
  intro H. cbn [castParticipant p_walletAddress].
  now rewrite (test_0x_trim 40 _ H).
Qed.

(** What a fulfilled [addParticipant] has checked and written. *)
Lemma addParticipant_inv (now : Z) (participant : IParticipant) (s s' : InMemory) :
  SplitDocument.addParticipant now participant s = (s', Fulfilled) ->
  s_isCompleted (im_this s) = false
  /\ s_isCancelled (im_this s) = false
  /\ existsb (SplitDocument.sameWallet (p_walletAddress participant))
             (s_participants (im_this s)) = false
  /\ isAddress (p_walletAddress participant) = true
  /\ invalidSplitPath
       (setParticipants (im_this s)
          (s_participants (im_this s) ++ [castParticipant participant])) = None
  /\ s' = {| im_world :=
               writeBack
                 (touchSplit now
                    (setParticipants (im_this s)
                       (map lowerParticipant
                          (s_participants (im_this s)
                           ++ [castParticipant participant]))))
                 (im_world s);
             im_this :=
               touchSplit now
                 (setParticipants (im_this s)
                    (map lowerParticipant
                       (s_participants (im_this s)
                        ++ [castParticipant participant])));
             im_participantsModified := false;
             im_statusModified := false |}.
Proof.
  unfold SplitDocument.addParticipant.
  destruct (s_isCompleted (im_this s)); [discriminate|].
  destruct (s_isCancelled (im_this s)); [discriminate|]. cbn [orb].
  destruct (existsb _ (s_participants (im_this s))); [discriminate|].
  destruct (isAddress (p_walletAddress participant)); [|discriminate]. cbn [negb].
  intro H. apply save_inv in H as [Hv ->].
  repeat split; try reflexivity. exact Hv.
Qed.

(** X16.  A fulfilled [addParticipant] was called on a split that is
    neither completed nor cancelled; the split has one participant more,
    the new one last and under its address in lower case, and at most 50 in
    all; and when the addresses of the participants were pairwise different
    (compared in lower case), they still are. *)
Theorem addParticipant_keeps_addresses_distinct
    (now : Z) (participant : IParticipant) (s s' : InMemory) :
  SplitDocument.addParticipant now participant s = (s', Fulfilled) ->
  s_isCompleted (im_this s) = false
  /\ s_isCancelled (im_this s) = false
  /\ participantKeys (im_this s')
     = participantKeys (im_this s) ++ [toLowerCase (p_walletAddress participant)]
  /\ (List.length (s_participants (im_this s')) <= 50)%nat
  /\ (NoDup (participantKeys (im_this s)) -> NoDup (participantKeys (im_this s'))).
Proof.
  intro H. apply addParticipant_inv in H as (Hc & Hx & Hnew & Ha & Hv & ->).
  cbn [im_this]. split; [exact Hc|]. split; [exact Hx|].
  assert (Hkeys : participantKeys
                    (touchSplit now
                       (setParticipants (im_this s)
                          (map lowerParticipant
                             (s_participants (im_this s)
                              ++ [castParticipant participant]))))
                  = participantKeys (im_this s)
                    ++ [toLowerCase (p_walletAddress participant)]).
  { unfold participantKeys. cbn [touchSplit setParticipants s_participants].
    rewrite lowered_keys, map_app. cbn [map].
    now rewrite (castParticipant_key _ Ha), toLowerCase_idempotent. }
  split; [exact Hkeys|]. split.
  - apply invalidSplitPath_participants in Hv as [Hlen _].
    cbn [touchSplit setParticipants s_participants] in *.
    rewrite length_map. lia.
  - intro Hnodup. rewrite Hkeys. apply NoDup_app; [exact Hnodup | |].
    + repeat constructor. simpl. tauto.
    + intros x Hin [<-|[]]. now apply (existsb_sameWallet _ _ Hnew).
Qed.

(** Carol joins Bob in [Scenario.solo]. *)
Lemma addParticipant_keeps_addresses_distinct_witness :
  s_isCompleted (im_this (loaded Scenario.soloStore Scenario.solo)) = false
  /\ s_isCancelled (im_this (loaded Scenario.soloStore Scenario.solo)) = false
  /\ participantKeys (im_this Scenario.soloJoined)
     = participantKeys (im_this (loaded Scenario.soloStore Scenario.solo)) ++ [toLowerCase
         (p_walletAddress (Sample.owes Sample.carol false))]
  /\ (List.length (s_participants (im_this Scenario.soloJoined)) <= 50)%nat
  /\ (NoDup (participantKeys (im_this (loaded Scenario.soloStore Scenario.solo))) -> NoDup
      (participantKeys (im_this Scenario.soloJoined))).
Proof.
  apply (addParticipant_keeps_addresses_distinct 500 (Sample.owes Sample.carol false)
           (loaded Scenario.soloStore Scenario.solo) Scenario.soloJoined).
  - vm_compute. reflexivity.
Defined.

(** X17.  [addParticipant] on a valid, open split, for a well-formed
    address the split does not have yet and an entry the validators of the
    participant schema accept.  While the split has fewer than 50
    participants the promise is fulfilled and the entry is stored last, in
    lower case.  With 50 participants the promise is rejected by the
    validator of [participants]; the store is as before, but the document
    in memory keeps the 51st entry. *)
Theorem addParticipant_up_to_fifty
    (now : Z) (participant : IParticipant) (w : World) (d : ISplit) :
  invalidSplitPath d = None ->
  s_isCompleted d = false ->
  s_isCancelled d = false ->
  existsb (SplitDocument.sameWallet (p_walletAddress participant))
          (s_participants d) = false ->
  isAddress (p_walletAddress participant) = true ->
  invalidParticipantPath (castParticipant participant) = None ->
  ((List.length (s_participants d) < 50)%nat ->
   exists s',
     SplitDocument.addParticipant now participant (loaded w d) = (s', Fulfilled)
     /\ s_participants (im_this s')
        = map lowerParticipant (s_participants d)
          ++ [lowerParticipant (castParticipant participant)]
     /\ findBySplitId (im_world s') (s_splitId d)
        = option_map (fun _ => im_this s') (findBySplitId w (s_splitId d)))
  /\ (List.length (s_participants d) = 50%nat ->
      exists s',
        SplitDocument.addParticipant now participant (loaded w d)
        = (s', RejectedWith (Refusal (ValidationFailed "participants")))
        /\ im_world s' = w
        /\ s_participants (im_this s')
           = s_participants d ++ [castParticipant participant]).
Proof.
  intros Hvalid Hc Hx Hnew Ha Hp.
  unfold SplitDocument.addParticipant, loaded.
  cbn [im_this im_world im_participantsModified im_statusModified].
  rewrite Hc, Hx, Hnew, Ha. cbn [orb negb].
  unfold SplitDocument.writeParticipants. cbn [im_this im_world im_participantsModified im_statusModified].
  destruct (invalidSplitPath_participants _ Hvalid) as [Hlen Hl].
  split.
  - intro Hroom.
    rewrite save_fulfilled.
    + eexists. split; [reflexivity|].
      cbn [im_this im_world im_participantsModified SplitDocument.stamped im_statusModified orb SplitDocument.hooked
           touchSplit setParticipants s_participants].
      split; [now rewrite map_app|].
      now rewrite (writeBack_found _ _ (s_splitId d)) by reflexivity.
    + cbn [im_this]. apply setParticipants_valid; [exact Hvalid | |].
      * rewrite length_app. simpl. lia.
      * rewrite firstInvalid_None in *. intros q Hq.
        apply in_app_or in Hq as [Hq|[<-|[]]]; auto.
  - intro Hfull.
    rewrite (save_refused _ _ "participants").
    + eexists. split; [reflexivity|]. auto.
    + cbn [im_this]. apply setParticipants_overflow; [exact Hvalid|].
      rewrite length_app. simpl. lia.
Qed.

(** Carol joins Bob in [Scenario.solo]. *)
Lemma addParticipant_up_to_fifty_witness :
  ((List.length (s_participants Scenario.solo) < 50)%nat ->
   exists s',
     SplitDocument.addParticipant 500 (Sample.owes Sample.carol false) (loaded
         Scenario.soloStore Scenario.solo) = (s', Fulfilled)
     /\ s_participants (im_this s')
        = map lowerParticipant (s_participants Scenario.solo)
          ++ [lowerParticipant (castParticipant (Sample.owes Sample.carol false))]
     /\ findBySplitId (im_world s') (s_splitId Scenario.solo)
        = option_map (fun _ => im_this s') (findBySplitId Scenario.soloStore (s_splitId
            Scenario.solo)))
  /\ (List.length (s_participants Scenario.solo) = 50%nat ->
      exists s',
        SplitDocument.addParticipant 500 (Sample.owes Sample.carol false) (loaded
            Scenario.soloStore Scenario.solo)
        = (s', RejectedWith (Refusal (ValidationFailed "participants")))
        /\ im_world s' = Scenario.soloStore
        /\ s_participants (im_this s')
           = s_participants Scenario.solo ++ [castParticipant (Sample.owes Sample.carol false)]).
Proof.
  apply (addParticipant_up_to_fifty 500 (Sample.owes Sample.carol false)
           Scenario.soloStore Scenario.solo).
  - vm_compute. reflexivity.
  - reflexivity.
  - reflexivity.
  - vm_compute. reflexivity.
  - vm_compute. reflexivity.
  - vm_compute. reflexivity.
Defined.

Lemma removeFirst_length (test : IParticipant -> bool) (l : list IParticipant)
    (p : IParticipant) :
  find test l = Some p ->
  S (List.length (SplitDocument.removeFirst test l)) = List.length l.
Proof.
  induction l as [|x rest IH]; simpl; [discriminate|].
  destruct (test x); simpl; [reflexivity|]. intro H. now rewrite IH.
Qed.

(** Splicing out an entry that has not paid leaves the paid ones. *)
Lemma removeFirst_paid (test : IParticipant -> bool) (l : list IParticipant)
    (p : IParticipant) :
  find test l = Some p -> p_hasPaid p = false ->
  filter p_hasPaid (SplitDocument.removeFirst test l) = filter p_hasPaid l.
Proof.
  induction l as [|x rest IH]; simpl; [discriminate|].
  destruct (test x); simpl.
  - intros [= ->] ->. reflexivity.
  - intros Hf Hp. now rewrite IH.
Qed.

Lemma removeFirst_last (test : IParticipant -> bool) (l : list IParticipant)
    (x : IParticipant) :
  existsb test l = false -> test x = true ->
  SplitDocument.removeFirst test (l ++ [x]) = l.
Proof.
  induction l as [|a rest IH]; simpl.
  - now intros _ ->.
  - destruct (test a); [discriminate|]. intros H Hx. now rewrite IH.
Qed.

Lemma lowered_existsb (a : string) (l : list IParticipant) :
  existsb (SplitDocument.sameWallet a) (map lowerParticipant l)
  = existsb (SplitDocument.sameWallet a) l.
Proof.
  induction l as [|x rest IH]; simpl; [reflexivity|].
  now rewrite sameWallet_lowered, IH.
Qed.

Lemma lowered_idempotent (l : list IParticipant) :
  map lowerParticipant (map lowerParticipant l) = map lowerParticipant l.
Proof.
  rewrite map_map. apply map_ext. intro p. apply lowerParticipant_idempotent.
Qed.

(** What a fulfilled [removeParticipant] has checked and written. *)
Lemma removeParticipant_inv (now : Z) (walletAddress : string) (s s' : InMemory) :
  SplitDocument.removeParticipant now walletAddress s = (s', Fulfilled) ->
  s_isCompleted (im_this s) = false
  /\ s_isCancelled (im_this s) = false
  /\ exists p,
       find (SplitDocument.sameWallet walletAddress) (s_participants (im_this s))
       = Some p
       /\ p_hasPaid p = false
       /\ invalidSplitPath
            (setParticipants (im_this s)
               (SplitDocument.removeFirst (SplitDocument.sameWallet walletAddress)
                  (s_participants (im_this s)))) = None
       /\ s_participants (im_this s')
          = map lowerParticipant
              (SplitDocument.removeFirst (SplitDocument.sameWallet walletAddress)
                 (s_participants (im_this s))).
Proof.
  unfold SplitDocument.removeParticipant.
  destruct (s_isCompleted (im_this s)); [discriminate|].
  destruct (s_isCancelled (im_this s)); [discriminate|]. cbn [orb].
  destruct (find _ (s_participants (im_this s))) as [p|]; [|discriminate].
  destruct (p_hasPaid p) eqn:Hp; [discriminate|]. cbv zeta.
  match goal with
  | |- context [if ?c then _ else _] => destruct c
  end; [discriminate|].
  intro H. apply save_inv in H as [Hv ->].
  repeat split; try reflexivity. exists p.
  repeat split; try reflexivity; [exact Hp | exact Hv].
Qed.

(** X18.  A fulfilled [removeParticipant] was called on a split that is
    neither completed nor cancelled, for an address whose first entry had
    not paid.  The split has one participant fewer and at least one left;
    as many participants as before have paid. *)
Theorem removeParticipant_removes_one_unpaid
    (now : Z) (walletAddress : string) (s s' : InMemory) :
  SplitDocument.removeParticipant now walletAddress s = (s', Fulfilled) ->
  s_isCompleted (im_this s) = false
  /\ s_isCancelled (im_this s) = false
  /\ (exists p,
        find (SplitDocument.sameWallet walletAddress) (s_participants (im_this s))
        = Some p
        /\ p_hasPaid p = false)
  /\ S (List.length (s_participants (im_this s')))
     = List.length (s_participants (im_this s))
  /\ (1 <= List.length (s_participants (im_this s')))%nat
  /\ paidCount (im_this s') = paidCount (im_this s).
Proof.
  intro H. apply removeParticipant_inv in H
    as (Hc & Hx & p & Hfound & Hunpaid & Hv & Hparts).
  split; [exact Hc|]. split; [exact Hx|]. split; [eauto|].
  apply invalidSplitPath_participants in Hv as [Hlen _].
  cbn [setParticipants s_participants] in Hlen.
  rewrite Hparts, length_map. split; [|split].
  - now apply removeFirst_length with (p := p).
  - lia.
  - unfold paidCount. rewrite Hparts, lowered_paid, length_map.
    now rewrite (removeFirst_paid _ _ p Hfound Hunpaid).
Qed.

(** Bob is removed from [Scenario.pair]. *)
Lemma removeParticipant_removes_one_unpaid_witness :
  s_isCompleted (im_this (loaded Scenario.pairStore Scenario.pair)) = false
  /\ s_isCancelled (im_this (loaded Scenario.pairStore Scenario.pair)) = false
  /\ (exists p,
        find (SplitDocument.sameWallet Sample.bob) (s_participants (im_this (loaded
            Scenario.pairStore Scenario.pair)))
        = Some p
        /\ p_hasPaid p = false)
  /\ S (List.length (s_participants (im_this Scenario.pairLeft)))
     = List.length (s_participants (im_this (loaded Scenario.pairStore Scenario.pair)))
  /\ (1 <= List.length (s_participants (im_this Scenario.pairLeft)))%nat
  /\ paidCount (im_this Scenario.pairLeft) = paidCount (im_this (loaded Scenario.pairStore
      Scenario.pair)).
Proof.
  apply (removeParticipant_removes_one_unpaid 500 Sample.bob (loaded Scenario.pairStore
           Scenario.pair) Scenario.pairLeft).
  - vm_compute. reflexivity.
Defined.

(** X19.  [removeParticipant] for the only participant of an open split,
    who has not paid: the promise is rejected with the last-participant
    error and the store is untouched, but the entry is already spliced out
    of the document in memory, which is left without participants; a
    [save] of that document is refused by the validator of
    [participants]. *)
Theorem removeParticipant_last_participant
    (now now' : Z) (walletAddress : string) (w : World) (d : ISplit)
    (p : IParticipant) :
  invalidSplitPath d = None ->
  s_isCompleted d = false ->
  s_isCancelled d = false ->
  s_participants d = [p] ->
  SplitDocument.sameWallet walletAddress p = true ->
  p_hasPaid p = false ->
  exists s',
    SplitDocument.removeParticipant now walletAddress (loaded w d)
    = (s', RejectedWith (Thrown "Cannot remove last participant from split"))
    /\ im_world s' = w
    /\ s_participants (im_this s') = []
    /\ SplitDocument.save now' s'
       = (s', RejectedWith (Refusal (ValidationFailed "participants"))).
Proof.
  intros Hvalid Hc Hx Hparts Hsame Hunpaid.
  unfold SplitDocument.removeParticipant, loaded.
  cbn [im_this im_world im_participantsModified im_statusModified].
  rewrite Hc, Hx, Hparts. cbn [orb find]. rewrite Hsame, Hunpaid.
  cbn [SplitDocument.removeFirst]. rewrite Hsame.
  cbn [SplitDocument.writeParticipants im_this setParticipants s_participants
       List.length Nat.eqb].
  eexists. split; [reflexivity|].
  split; [reflexivity|]. split; [reflexivity|].
  apply save_refused. cbn [im_this].
  apply (setParticipants_overflow d []); [exact Hvalid|]. simpl. lia.
Qed.

(** Bob, the only participant of [Scenario.solo], is removed. *)
Lemma removeParticipant_last_participant_witness :
  exists s',
  SplitDocument.removeParticipant 500 Sample.bob (loaded Scenario.soloStore Scenario.solo)
  = (s', RejectedWith (Thrown "Cannot remove last participant from split"))
  /\ im_world s' = Scenario.soloStore
  /\ s_participants (im_this s') = []
  /\ SplitDocument.save 600 s'
     = (s', RejectedWith (Refusal (ValidationFailed "participants"))).
Proof.
  apply (removeParticipant_last_participant 500 600 Sample.bob Scenario.soloStore
           Scenario.solo (Sample.owes Sample.bob false)).
  - vm_compute. reflexivity.
  - reflexivity.
  - reflexivity.
  - reflexivity.
  - vm_compute. reflexivity.
  - reflexivity.
Defined.

(** X20.  Adding a participant and removing it again.  After a fulfilled
    [addParticipant] on a valid document, for an entry that has not paid,
    [removeParticipant] for the same address is fulfilled and the
    participants are those the split had before, with their addresses and
    payment hashes in lower case. *)
Theorem addParticipant_then_removeParticipant
    (now now' : Z) (participant : IParticipant) (s s1 : InMemory) :
  invalidSplitPath (im_this s) = None ->
  p_hasPaid participant = false ->
  SplitDocument.addParticipant now participant s = (s1, Fulfilled) ->
  exists s2,
    SplitDocument.removeParticipant now' (p_walletAddress participant) s1
    = (s2, Fulfilled)
    /\ s_participants (im_this s2)
       = map lowerParticipant (s_participants (im_this s)).
Proof.
  intros Hvalid Hunpaid Hadd.
  apply addParticipant_inv in Hadd as (Hc & Hx & Hnew & Ha & Hv & ->).
  set (a := p_walletAddress participant) in *.
  assert (Hlast : SplitDocument.sameWallet a
                    (lowerParticipant (castParticipant participant)) = true).
  { rewrite sameWallet_lowered. unfold SplitDocument.sameWallet.
    rewrite (castParticipant_key _ Ha), toLowerCase_idempotent.
    apply String.eqb_refl. }
  assert (Hnone : existsb (SplitDocument.sameWallet a)
                    (map lowerParticipant (s_participants (im_this s))) = false)
    by now rewrite lowered_existsb.
  unfold SplitDocument.removeParticipant.
  cbn [im_this im_world im_participantsModified touchSplit setParticipants
       s_isCompleted s_isCancelled s_participants].
  rewrite Hc, Hx. cbn [orb]. rewrite map_app. cbn [map].
  rewrite (find_app_last _ _ _ Hnone Hlast).
  cbn [lowerParticipant castParticipant p_hasPaid]. rewrite Hunpaid.
  cbv zeta.
  cbn [SplitDocument.writeParticipants im_this im_world im_participantsModified
       setParticipants s_participants].
  change {| p_walletAddress := toLowerCase (toLowerCase (trim (p_walletAddress participant)));
            p_name := option_map trim (p_name participant);
            p_amountDue := p_amountDue participant;
            p_hasPaid := p_hasPaid participant;
            p_paidAt := p_paidAt participant;
            p_paymentTxHash :=
              option_map toLowerCase (option_map trim (p_paymentTxHash participant));
            p_reminderCount := p_reminderCount participant;
            p_lastRemindedAt := p_lastRemindedAt participant |}
    with (lowerParticipant (castParticipant participant)).
  rewrite (removeFirst_last _ _ _ Hnone Hlast).
  destruct (invalidSplitPath_participants _ Hvalid) as [Hlen Hl].
  rewrite length_map.
  destruct (List.length (s_participants (im_this s)) =? 0)%nat eqn:Hzero;
    [apply Nat.eqb_eq in Hzero; lia|].
  rewrite save_fulfilled.
  - eexists. split; [reflexivity|].
    cbn [im_this SplitDocument.stamped im_statusModified orb SplitDocument.hooked im_participantsModified touchSplit
         setParticipants s_participants].
    apply lowered_idempotent.
  - cbn [im_this].
    apply (setParticipants_valid
             (touchSplit now
                (setParticipants (im_this s)
                   (map lowerParticipant (s_participants (im_this s))
                    ++ [lowerParticipant (castParticipant participant)])))).
    + rewrite touchSplit_valid.
      apply (setParticipants_valid (im_this s)); [exact Hvalid | |].
      * apply invalidSplitPath_participants in Hv as [Hlen' _].
        cbn [setParticipants s_participants] in Hlen'.
        rewrite length_app in *. rewrite length_map. exact Hlen'.
      * apply invalidSplitPath_participants in Hv as [_ Hl'].
        cbn [setParticipants s_participants] in Hl'.
        apply lowered_valid in Hl'. now rewrite map_app in Hl'.
    + now rewrite length_map.
    + now apply lowered_valid.
Qed.

(** Carol joins [Scenario.solo] and is removed again. *)
Lemma addParticipant_then_removeParticipant_witness :
  exists s2,
  SplitDocument.removeParticipant 600 (p_walletAddress (Sample.owes Sample.carol false))
      Scenario.soloJoined
  = (s2, Fulfilled)
  /\ s_participants (im_this s2)
     = map lowerParticipant (s_participants (im_this (loaded Scenario.soloStore Scenario.solo))).
Proof.
  apply (addParticipant_then_removeParticipant 500 600 (Sample.owes Sample.carol false)
           (loaded Scenario.soloStore Scenario.solo) Scenario.soloJoined).
  - vm_compute. reflexivity.
  - reflexivity.
  - vm_compute. reflexivity.
Defined.

Lemma reminded_sum (test : IParticipant -> bool) (now : Z)
    (l : list IParticipant) (p : IParticipant) :
  find test l = Some p ->
  fold_right Z.add 0
    (map p_reminderCount
       (SplitDocument.updateFirst test (SplitDocument.reminded now) l))
  = fold_right Z.add 0 (map p_reminderCount l) + 1.
Proof.
  induction l as [|x rest IH]; simpl; [discriminate|].
  destruct (test x); simpl.
  - intros _. lia.
  - intro H. rewrite (IH H). lia.
Qed.

Lemma updateFirst_paid (test : IParticipant -> bool)
    (f : IParticipant -> IParticipant) (l : list IParticipant) :
  (forall p, p_hasPaid (f p) = p_hasPaid p) ->
  List.length (filter p_hasPaid (SplitDocument.updateFirst test f l))
  = List.length (filter p_hasPaid l).
Proof.
  intro Hf. induction l as [|x rest IH]; simpl; [reflexivity|].
  destruct (test x); simpl.
  - rewrite Hf. now destruct (p_hasPaid x).
  - destruct (p_hasPaid x); simpl; now rewrite IH.
Qed.

Lemma lowered_reminders (l : list IParticipant) :
  map p_reminderCount (map lowerParticipant l) = map p_reminderCount l.
Proof. rewrite map_map. reflexivity. Qed.

(** X21.  A fulfilled [sendReminder] was called for an address whose first
    entry had not paid.  That entry now counts one reminder more and was
    last reminded at [now]; over the whole split exactly one reminder more
    is counted, and as many participants as before have paid. *)
Theorem sendReminder_counts_one_reminder
    (now : Z) (walletAddress : string) (s s' : InMemory) :
  SplitDocument.sendReminder now walletAddress s = (s', Fulfilled) ->
  exists p,
    find (SplitDocument.sameWallet walletAddress) (s_participants (im_this s))
    = Some p
    /\ p_hasPaid p = false
    /\ find (SplitDocument.sameWallet walletAddress) (s_participants (im_this s'))
       = Some {| p_walletAddress := toLowerCase (p_walletAddress p);
                 p_name := p_name p;
                 p_amountDue := p_amountDue p;
                 p_hasPaid := false;
                 p_paidAt := p_paidAt p;
                 p_paymentTxHash := option_map toLowerCase (p_paymentTxHash p);
                 p_reminderCount := p_reminderCount p + 1;
                 p_lastRemindedAt := Some now |}
    /\ remindersSent (im_this s') = remindersSent (im_this s) + 1
    /\ paidCount (im_this s') = paidCount (im_this s).
Proof.
  unfold SplitDocument.sendReminder.
  destruct (find _ (s_participants (im_this s))) as [p|] eqn:Hfound;
    [|discriminate].
  destruct (p_hasPaid p) eqn:Hunpaid; [discriminate|].
  intro H. apply save_inv in H as [_ ->].
  exists p. split; [reflexivity|]. split; [exact Hunpaid|].
  cbn [im_this SplitDocument.stamped im_statusModified orb SplitDocument.hooked SplitDocument.writeParticipants
       im_participantsModified].
  unfold remindersSent, paidCount.
  cbn [touchSplit setParticipants s_participants].
  split; [|split].
  - rewrite lowered_find, (updateFirst_find _ _ _ p Hfound).
    + cbn [option_map].
      unfold lowerParticipant, SplitDocument.reminded.
      cbn [p_walletAddress p_name p_amountDue p_hasPaid p_paidAt p_paymentTxHash
           p_reminderCount p_lastRemindedAt].
      now rewrite Hunpaid.
    + apply find_some in Hfound as [_ Hfound]. exact Hfound.
  - rewrite lowered_reminders. now apply reminded_sum with (p := p).
  - rewrite lowered_paid, length_map. now apply updateFirst_paid.
Qed.

(** Bob is reminded of [Scenario.solo]. *)
Lemma sendReminder_counts_one_reminder_witness :
  exists p,
  find (SplitDocument.sameWallet Sample.bob) (s_participants (im_this (loaded Scenario.soloStore
      Scenario.solo)))
  = Some p
  /\ p_hasPaid p = false
  /\ find (SplitDocument.sameWallet Sample.bob) (s_participants (im_this Scenario.soloReminded))
     = Some {| p_walletAddress := toLowerCase (p_walletAddress p);
               p_name := p_name p;
               p_amountDue := p_amountDue p;
               p_hasPaid := false;
               p_paidAt := p_paidAt p;
               p_paymentTxHash := option_map toLowerCase (p_paymentTxHash p);
               p_reminderCount := p_reminderCount p + 1;
               p_lastRemindedAt := Some 500 |}
  /\ remindersSent (im_this Scenario.soloReminded) = remindersSent (im_this (loaded
      Scenario.soloStore Scenario.solo)) + 1
  /\ paidCount (im_this Scenario.soloReminded) = paidCount (im_this (loaded Scenario.soloStore
      Scenario.solo)).
Proof.
  apply (sendReminder_counts_one_reminder 500 Sample.bob (loaded Scenario.soloStore
           Scenario.solo) Scenario.soloReminded).
  - vm_compute. reflexivity.
Defined.

(** X22.  [updateStatus(newStatus)] on a valid, unmodified document is
    fulfilled.  The status is the new one and the two flags mirror it.
    [completedAt] and [cancelledAt] are set to [now] when the split is
    completed or cancelled for the first time, and a date once set is
    neither overwritten nor cleared, whatever the later status.  The
    participants are as before and the stored copy, if there is one, is the
    document in memory. *)
Theorem updateStatus_stamps_once
    (now : Z) (newStatus : SplitStatus) (w : World) (d : ISplit) :
  invalidSplitPath d = None ->
  exists s',
    SplitDocument.updateStatus now newStatus (loaded w d) = (s', Fulfilled)
    /\ s_status (im_this s') = newStatus
    /\ s_isCompleted (im_this s') = status_eqb newStatus completed
    /\ s_isCancelled (im_this s') = status_eqb newStatus cancelled
    /\ s_completedAt (im_this s')
       = match s_completedAt d with
         | Some t => Some t
         | None => if status_eqb newStatus completed then Some now else None
         end
    /\ s_cancelledAt (im_this s')
       = match s_cancelledAt d with
         | Some t => Some t
         | None => if status_eqb newStatus cancelled then Some now else None
         end
    /\ s_participants (im_this s') = s_participants d
    /\ findBySplitId (im_world s') (s_splitId d)
       = option_map (fun _ => im_this s') (findBySplitId w (s_splitId d)).
Proof.
  intro Hvalid. unfold SplitDocument.updateStatus, loaded.
  cbn [im_this im_world im_participantsModified im_statusModified].
  rewrite save_fulfilled by (cbn [im_this]; now rewrite assignStatus_valid).
  eexists. split; [reflexivity|].
  cbn [im_this im_world SplitDocument.stamped im_statusModified orb
       SplitDocument.hooked im_participantsModified].
  destruct (statusPathsDiffer d (assignStatus now newStatus d));
    (split; [reflexivity|]; split; [reflexivity|]; split; [reflexivity|];
     split;
     [cbn; destruct (s_completedAt d), (status_eqb newStatus completed); reflexivity|];
     split;
     [cbn; destruct (s_cancelledAt d), (status_eqb newStatus cancelled); reflexivity|];
     split; [reflexivity|];
     now rewrite (writeBack_found _ _ (s_splitId d)) by reflexivity).
Qed.

(** [Scenario.solo] is cancelled at the time 500. *)
Lemma updateStatus_stamps_once_witness :
  exists s',
  SplitDocument.updateStatus 500 cancelled (loaded Scenario.soloStore Scenario.solo) = (s',
      Fulfilled)
  /\ s_status (im_this s') = cancelled
  /\ s_isCompleted (im_this s') = status_eqb cancelled completed
  /\ s_isCancelled (im_this s') = status_eqb cancelled cancelled
  /\ s_completedAt (im_this s')
     = match s_completedAt Scenario.solo with
       | Some t => Some t
       | None => if status_eqb cancelled completed then Some 500 else None
       end
  /\ s_cancelledAt (im_this s')
     = match s_cancelledAt Scenario.solo with
       | Some t => Some t
       | None => if status_eqb cancelled cancelled then Some 500 else None
       end
  /\ s_participants (im_this s') = s_participants Scenario.solo
  /\ findBySplitId (im_world s') (s_splitId Scenario.solo)
     = option_map (fun _ => im_this s') (findBySplitId Scenario.soloStore (s_splitId
         Scenario.solo)).
Proof.
  apply (updateStatus_stamps_once 500 cancelled Scenario.soloStore Scenario.solo).
  - vm_compute. reflexivity.
Defined.

(* ================================================================== *)
(** ** Properties: completion *)





(** The stored copy of [Sample.settled] is completed as well. *)
Example checkAndUpdateCompletion_stored :
  option_map (fun d => (s_status d, s_isCompleted d, s_completedAt d, s_updatedAt d))
    (findBySplitId
       (im_world (fst (SplitDocument.checkAndUpdateCompletion 500
                         (loaded Sample.settledWorld Sample.settled)))) 3)
  = Some (completed, true, Some 500, 500).
Proof. vm_compute. reflexivity. Qed.

(** [updateStatus] with the status the split has: nothing is modified, and
    [updatedAt] stays where it was. *)
Example updateStatus_same_status :
  option_map s_updatedAt
    (findBySplitId
       (im_world (fst (SplitDocument.updateStatus 500 pending
                         (loaded Scenario.soloStore Scenario.solo)))) 5)
  = Some 100.
Proof. vm_compute. reflexivity. Qed.

(* ================================================================== *)
(** ** Properties: open and expired splits *)

Lemma insertSoonestFirst_perm (s : ISplit) (l : list ISplit) :
  Permutation (s :: l) (insertSoonestFirst s l).
Proof.
  induction l as [|x rest IH]; simpl; [reflexivity|].
  destruct (expiryKey s <=? expiryKey x); [reflexivity|].
  rewrite perm_swap. now constructor.
Qed.

Lemma sortSoonestFirst_perm (l : list ISplit) : Permutation l (sortSoonestFirst l).
Proof.
  induction l as [|x rest IH]; simpl; [constructor|].
  rewrite <- insertSoonestFirst_perm. now constructor.
Qed.

Lemma insertSoonestFirst_sorted (s : ISplit) (l : list ISplit) :
  StronglySorted soonerFirst l -> StronglySorted soonerFirst (insertSoonestFirst s l).
Proof.
  induction l as [|x rest IH]; intro Hl; simpl.
  - repeat constructor.
  - inversion Hl as [|? ? Hrest Hall]; subst.
    destruct (expiryKey s <=? expiryKey x) eqn:Hle.
    + apply Z.leb_le in Hle. constructor; [exact Hl|].
      constructor; [exact Hle|].
      eapply Forall_impl; [|exact Hall]. unfold soonerFirst. intros y Hy. lia.
    + apply Z.leb_gt in Hle. constructor; [now apply IH|].
      apply Forall_forall. intros y Hy.
      apply (Permutation_in _ (Permutation_sym (insertSoonestFirst_perm s rest))) in Hy.
      destruct Hy as [<-|Hy].
      * unfold soonerFirst. lia.
      * rewrite Forall_forall in Hall. now apply Hall.
Qed.

Lemma sortSoonestFirst_sorted (l : list ISplit) :
  StronglySorted soonerFirst (sortSoonestFirst l).
Proof.
  induction l as [|x rest IH]; simpl; [constructor|].
  now apply insertSoonestFirst_sorted.
Qed.

Lemma isOpenStatus_true (d : ISplit) :
  isOpenStatus d = true <-> s_status d = pending \/ s_status d = active.
Proof.
  unfold isOpenStatus. destruct (s_status d); cbn; intuition discriminate.
Qed.

Lemma isExpired_true (now : Z) (d : ISplit) :
  isExpired now d = true <-> exists t, s_expiresAt d = Some t /\ t < now.
Proof.
  unfold isExpired. destruct (s_expiresAt d) as [t|].
  - rewrite Z.ltb_lt. split; [eauto | now intros (t' & [= <-] & H)].
  - split; [discriminate | now intros (t' & [=] & _)].
Qed.

(** Membership in [findExpired]. *)
Lemma findExpired_In (now : Z) (w : World) (s : ISplit) :
  In s (findExpired now w) <->
  In s (splits w)
  /\ (exists t, s_expiresAt s = Some t /\ t < now)
  /\ (s_status s = pending \/ s_status s = active)
  /\ s_isCancelled s = false.
Proof.
  unfold findExpired. split.
  - intro H. apply (Permutation_in _ (Permutation_sym (sortSoonestFirst_perm _))) in H.
    apply filter_In in H as [Hin Hf].
    apply andb_true_iff in Hf as [Hf Hc]. apply andb_true_iff in Hf as [He Ho].
    apply isExpired_true in He. apply isOpenStatus_true in Ho.
    apply negb_true_iff in Hc. auto.
  - intros (Hin & He & Ho & Hc).
    apply (Permutation_in _ (sortSoonestFirst_perm _)). apply filter_In.
    split; [exact Hin|].
    apply isExpired_true in He. apply isOpenStatus_true in Ho.
    now rewrite He, Ho, Hc.
Qed.

(** X23.  [findExpired()] returns exactly the stored splits that carry an
    expiry before [now], are [pending] or [active] and are not cancelled,
    the one that expired first coming first.  [findActive(limit)] returns
    stored splits only, each [pending] or [active] and neither completed
    nor cancelled, the newest first, and no more than [limit] of them, 50
    when no limit is given. *)
Theorem findExpired_and_findActive_select
    (now : Z) (w : World) (limit : option nat) :
  (forall s,
      In s (findExpired now w) <->
      In s (splits w)
      /\ (exists t, s_expiresAt s = Some t /\ t < now)
      /\ (s_status s = pending \/ s_status s = active)
      /\ s_isCancelled s = false)
  /\ StronglySorted soonerFirst (findExpired now w)
  /\ (forall s,
        In s (findActive w limit) ->
        In s (splits w)
        /\ (s_status s = pending \/ s_status s = active)
        /\ s_isCompleted s = false
        /\ s_isCancelled s = false)
  /\ StronglySorted newerFirst (findActive w limit)
  /\ (limit <> Some 0%nat ->
      (List.length (findActive w limit)
       <= match limit with Some n => n | None => 50 end)%nat).
Proof.
  split; [apply findExpired_In|].
  split; [apply sortSoonestFirst_sorted|].
  unfold findActive.
  set (n := match limit with Some n => n | None => 50%nat end).
  split; [|split].
  - intros s H.
    assert (Hin : In s (sortNewestFirst
                          (filter (fun s => isOpenStatus s && negb (s_isCompleted s)
                                            && negb (s_isCancelled s))
                                  (splits w)))).
    { unfold limited in H. destruct n; [exact H | now apply In_firstn in H]. }
    apply sortNewestFirst_In, filter_In in Hin as [Hin Hf].
    apply andb_true_iff in Hf as [Hf Hc]. apply andb_true_iff in Hf as [Ho Hd].
    apply isOpenStatus_true in Ho.
    apply negb_true_iff in Hc. apply negb_true_iff in Hd. auto.
  - unfold limited. destruct n.
    + apply sortNewestFirst_sorted.
    + apply StronglySorted_firstn, sortNewestFirst_sorted.
  - intro Hlimit. unfold limited. destruct n eqn:Hn.
    + subst n. destruct limit as [[|k]|]; [congruence | discriminate | discriminate].
    + rewrite length_firstn. lia.
Qed.

(** The run of [createSplit] that stores a split. *)
Lemma createSplit_stored_run
    (deploySplitContract :
       string -> string -> list ParticipantInput -> number -> Deployment)
    (zone : TimeZone) (now : Z) (creatorAddress : string)
    (splitData : CreateSplitInput) (w w1 : World)
    (bc : BlockchainResult) (d : ISplit) :
  inputAccepted creatorAddress splitData = true ->
  findBySplitId w (nextSplitId w) = None ->
  deploySplitContract (toLowerCase creatorAddress) (in_description splitData)
    (in_participants splitData) (in_totalAmount splitData) = Mined bc ->
  findByTxHash w (bc_txHash bc) = None ->
  Split_create zone now
    (newSplitFields (finalSplitId bc (nextSplitId w)) (bc_splitAddress bc)
       (bc_txHash bc) (bc_blockNumber bc) (bc_isConfirmed bc)
       (toLowerCase creatorAddress) splitData)
    w = (w1, Ok d) ->
  createSplit deploySplitContract zone now creatorAddress splitData w
  = (creatorCounted now (toLowerCase creatorAddress) w1,
     Ok {| r_splitId := s_splitId d;
           r_contractAddress := s_contractAddress d;
           r_txHash := s_txHash d |})
  /\ splits (creatorCounted now (toLowerCase creatorAddress) w1) = splits w ++ [d].
Proof.
  intros Hacc Hcandidate Hd Hfree Hc.
  pose proof (Split_create_success _ _ _ _ _ _ Hc) as (_ & Hw1 & _).
  split.
  - rewrite (createSplit_deployed deploySplitContract zone now creatorAddress splitData w
               (toLowerCase creatorAddress) bc
               (validateInput_accepted _ _ _ Hacc) Hcandidate Hd).
    rewrite (persistSplit_stores zone now (toLowerCase creatorAddress) splitData
               (nextSplitId w) bc
               {| f_world := w; f_splitId := nextSplitId w;
                  f_blockchainResult := Some bc |} w1 d Hfree Hc).
    reflexivity.
  - rewrite creatorCounted_splits, Hw1. reflexivity.
Qed.

(** Where the offset of the zone never changes, thirty days on is 30 times
    86400000 milliseconds later. *)
Lemma thirtyDaysOn_fixed_offset (zone : TimeZone) (now : Z) :
  (forall t isUTC, zone t isUTC = zone now true) ->
  Z.abs (now + 30 * msPerDay) <= 8640000000000000 ->
  thirtyDaysOn zone now = Some (now + 30 * msPerDay).
Proof.
  intros Hfixed Hrange. unfold thirtyDaysOn, UTC, LocalTime, TimeClip.
  rewrite (Hfixed (now + zone now true + 30 * msPerDay) false).
  replace (now + zone now true + 30 * msPerDay - zone now true)
    with (now + 30 * msPerDay) by lia.
  apply Z.leb_le in Hrange. now rewrite Hrange.
Qed.

(** Across a change of the clocks it is not: from noon UTC on 20 February
    2024 a server in New York arrives at 11:00 UTC on 21 March, an hour
    short of 30 times 24 hours. *)
Example thirtyDaysOn_across_a_clock_change :
  thirtyDaysOn Sample.newYork2024 1708430400000 = Some 1711018800000
  /\ 1708430400000 + 30 * msPerDay = 1711022400000.
Proof. split; reflexivity. Qed.

(** X24.  A split that [createSplit] stores at the time [now] carries as
    its expiry the date [setDate(getDate() + 30)] makes of [now] in the time
    zone of the server; [findExpired] reports it at every time later than
    that date and at no other time.  On a server whose offset from UTC never
    changes that is every time later than [now] plus 30 times 86400000
    milliseconds.  The split is among those [findActive] returns when called
    with the limit 0, which the store takes as no limit. *)
Theorem created_split_expires_after_thirty_days
    (deploySplitContract :
       string -> string -> list ParticipantInput -> number -> Deployment)
    (zone : TimeZone) (now : Z) (creatorAddress : string)
    (splitData : CreateSplitInput) (w w1 : World)
    (bc : BlockchainResult) (d : ISplit) :
  inputAccepted creatorAddress splitData = true ->
  findBySplitId w (nextSplitId w) = None ->
  deploySplitContract (toLowerCase creatorAddress) (in_description splitData)
    (in_participants splitData) (in_totalAmount splitData) = Mined bc ->
  findByTxHash w (bc_txHash bc) = None ->
  Split_create zone now
    (newSplitFields (finalSplitId bc (nextSplitId w)) (bc_splitAddress bc)
       (bc_txHash bc) (bc_blockNumber bc) (bc_isConfirmed bc)
       (toLowerCase creatorAddress) splitData)
    w = (w1, Ok d) ->
  exists w2 response,
    createSplit deploySplitContract zone now creatorAddress splitData w
    = (w2, Ok response)
    /\ s_expiresAt d = thirtyDaysOn zone now
    /\ (forall later,
          In d (findExpired later w2)
          <-> exists t, thirtyDaysOn zone now = Some t /\ t < later)
    /\ ((forall t isUTC, zone t isUTC = zone now true) ->
        Z.abs (now + 30 * msPerDay) <= 8640000000000000 ->
        forall later,
          In d (findExpired later w2) <-> now + 30 * msPerDay < later)
    /\ In d (findActive w2 (Some 0%nat)).
Proof.
  intros Hacc Hcandidate Hd Hfree Hc.
  destruct (createSplit_stored_run deploySplitContract zone now creatorAddress splitData
              w w1 bc d Hacc Hcandidate Hd Hfree Hc) as [Hrun Hsplits].
  pose proof (Split_create_success _ _ _ _ _ _ Hc) as (Hcast & _).
  assert (Hin : In d (splits (creatorCounted now (toLowerCase creatorAddress) w1)))
    by (rewrite Hsplits; apply in_or_app; right; now left).
  assert (He : s_expiresAt d = thirtyDaysOn zone now)
    by (rewrite Hcast; reflexivity).
  assert (Ho : s_status d = pending \/ s_status d = active).
  { rewrite Hcast. cbn. destruct (bc_isConfirmed bc); auto. }
  assert (Hx : s_isCancelled d = false) by (rewrite Hcast; reflexivity).
  assert (Hn : s_isCompleted d = false) by (rewrite Hcast; reflexivity).
  assert (Hexpired : forall later,
            In d (findExpired later
                    (creatorCounted now (toLowerCase creatorAddress) w1))
            <-> exists t, thirtyDaysOn zone now = Some t /\ t < later).
  { intro later. rewrite findExpired_In, He. split.
    - now intros (_ & Ht & _).
    - intro Ht. auto. }
  eexists; eexists. split; [exact Hrun|]. split; [exact He|].
  split; [exact Hexpired|]. split.
  - intros Hfixed Hrange later. rewrite Hexpired.
    rewrite (thirtyDaysOn_fixed_offset zone now Hfixed Hrange). split.
    + now intros (t & [= <-] & Hlt).
    + intro Hlt. eauto.
  - unfold findActive, limited.
    apply (Permutation_in _ (sortNewestFirst_perm _)). apply filter_In.
    split; [exact Hin|].
    apply isOpenStatus_true in Ho. now rewrite Ho, Hx, Hn.
Qed.

(** Alice's dinner split, created at the time 1000 on a server that keeps
    UTC. *)
Lemma created_split_expires_after_thirty_days_witness :
  exists w2 response,
  createSplit (Sample.deployed Sample.chain7) Sample.utc 1000 Sample.alice
    Sample.dinner Sample.emptyWorld
  = (w2, Ok response)
  /\ s_expiresAt Scenario.dinnerSplit = thirtyDaysOn Sample.utc 1000
  /\ (forall later,
        In Scenario.dinnerSplit (findExpired later w2)
        <-> exists t, thirtyDaysOn Sample.utc 1000 = Some t /\ t < later)
  /\ ((forall t isUTC, Sample.utc t isUTC = Sample.utc 1000 true) ->
      Z.abs (1000 + 30 * msPerDay) <= 8640000000000000 ->
      forall later,
        In Scenario.dinnerSplit (findExpired later w2) <-> 1000 + 30 * msPerDay < later)
  /\ In Scenario.dinnerSplit (findActive w2 (Some 0%nat)).
Proof.
  apply (created_split_expires_after_thirty_days (Sample.deployed Sample.chain7)
           Sample.utc 1000 Sample.alice Sample.dinner Sample.emptyWorld
           Scenario.dinnerStore Sample.chain7 Scenario.dinnerSplit).
  - vm_compute. reflexivity.
  - reflexivity.
  - reflexivity.
  - reflexivity.
  - vm_compute. reflexivity.
Defined.

(* ================================================================== *)
(** ** Properties: logging in *)

Lemma findByWallet_lowered (w : World) (a : string) :
  findByWallet w (toLowerCase a) = findByWallet w a.
Proof. unfold findByWallet. now rewrite toLowerCase_idempotent. Qed.

Lemma find_none_existsb {A} (test : A -> bool) (l : list A) :
  find test l = None -> existsb test l = false.
Proof.
  induction l as [|x rest IH]; simpl; [reflexivity|].
  destruct (test x); [discriminate | exact IH].
Qed.

Lemma test_0x_truthy (class : ascii -> bool) (n : nat) (s : string) :
  test_0x class n (toLowerCase s) = true -> truthy s = true.
Proof. destruct s; [discriminate | reflexivity]. Qed.

Lemma test_0x_nonempty (class : ascii -> bool) (n : nat) (s : string) :
  test_0x class n s = true -> truthy s = true.
Proof. destruct s; [discriminate | reflexivity]. Qed.

Section Login.

Variable verifyMessage : string -> string -> option string.
Variable generateNameFromAddress : string -> string.
Variable jwtSign : Z -> string -> string -> string -> string.
Variable newObjectId : World -> string.

(** What [verifyCredentials] does once its four checks have passed. *)
Lemma verifyCredentials_checked (now : Z) (walletAddress signature : string)
    (w : World) :
  isAddress (toLowerCase walletAddress) = true ->
  isSignature signature = true ->
  verifySignature verifyMessage MESSAGE_TO_SIGN signature (toLowerCase walletAddress)
  = true ->
  verifyCredentials verifyMessage generateNameFromAddress jwtSign newObjectId
    now walletAddress signature w
  = match
      match findByWallet w walletAddress with
      | Some user => (w, Ok user)
      | None =>
          User_create now (newObjectId w) (toLowerCase walletAddress)
            (generateNameFromAddress (toLowerCase walletAddress)) w
      end
    with
    | (w1, Ok user) =>
        (fst (updateActivity now user w1),
         Ok {| a_walletAddress := u_walletAddress user;
               a_displayName := u_displayName user;
               a_token := jwtSign now (u_walletAddress user) (u_displayName user)
                            (u_id user) |})
    | (w1, Err e) => (w1, Err e)
    end.
Proof.
  intros Ha Hs Hv.
  unfold verifyCredentials, bind, throwIf, throw, ret, get.
  rewrite (test_0x_truthy _ _ _ Ha), (test_0x_nonempty _ _ _ Hs), Ha, Hs, Hv.
  cbn [negb orb]. rewrite findByWallet_lowered.
  destruct (findByWallet w walletAddress) as [user|]; [reflexivity|].
  destruct (User_create now _ _ _ w) as [w1 [user|e]]; reflexivity.
Qed.

(** A call of [verifyCredentials] that got past one of its checks passed
    all of them. *)
Lemma verifyCredentials_passed (now : Z) (walletAddress signature : string)
    (w w' : World) (r : AuthResponse) :
  verifyCredentials verifyMessage generateNameFromAddress jwtSign newObjectId
    now walletAddress signature w = (w', Ok r) ->
  isAddress (toLowerCase walletAddress) = true
  /\ isSignature signature = true
  /\ verifySignature verifyMessage MESSAGE_TO_SIGN signature
       (toLowerCase walletAddress) = true.
Proof.
  unfold verifyCredentials, bind, throwIf, throw, ret, get.
  destruct (negb (truthy walletAddress) || negb (truthy signature));
    [discriminate|].
  destruct (isAddress (toLowerCase walletAddress)); [|discriminate].
  destruct (isSignature signature); [|discriminate].
  destruct (verifySignature _ _ _ _); [|discriminate].
  auto.
Qed.

(** The record [User.create] inserts for a wallet seen for the first
    time. *)
Lemma User_create_first (now : Z) (id walletAddress displayName : string)
    (w : World) :
  isAddress (toLowerCase walletAddress) = true ->
  findByWallet w walletAddress = None ->
  truthy (trim displayName) = true ->
  (String.length (trim displayName) <= 100)%nat ->
  User_create now id (toLowerCase walletAddress) displayName w
  = (withUsers w
       (users w ++ [{| u_id := id;
                       u_walletAddress := toLowerCase walletAddress;
                       u_displayName := trim displayName;
                       u_totalSplitsCreated := 0;
                       u_totalSplitsJoined := 0;
                       u_totalAmountSplit := 0%float;
                       u_createdAt := now;
                       u_lastActiveAt := now;
                       u_updatedAt := now |}]),
     Ok {| u_id := id;
           u_walletAddress := toLowerCase walletAddress;
           u_displayName := trim displayName;
           u_totalSplitsCreated := 0;
           u_totalSplitsJoined := 0;
           u_totalAmountSplit := 0%float;
           u_createdAt := now;
           u_lastActiveAt := now;
           u_updatedAt := now |}).
Proof.
  intros Ha Hnew Hname Hlen.
  unfold User_create. cbv zeta. rewrite (normalized_cast _ Ha).
  unfold invalidUserPath.
  cbn [u_walletAddress u_displayName u_totalSplitsCreated u_totalSplitsJoined
       u_totalAmountSplit].
  rewrite Ha, Hname. apply Nat.leb_le in Hlen. rewrite Hlen.
  cbn [negb andb]. change (0 <? 0) with false. cbv iota.
  change (0 <=? 0)%float with true. cbn [negb].
  unfold findByWallet in Hnew. apply find_none_existsb in Hnew. rewrite Hnew.
  reflexivity.
Qed.

End Login.

(** X25.  The first login of a wallet.  When the address is well formed,
    the signature verifies, no user is stored under the address and the
    generated name is accepted by the user schema, [verifyCredentials]
    resolves with the address in lower case, the generated name and a token
    signed for them and for the new [_id].  One user is added, with
    counters at zero, found from then on under the address however it is
    spelled; the splits are not touched. *)
Theorem verifyCredentials_first_login
    (verifyMessage : string -> string -> option string)
    (generateNameFromAddress : string -> string)
    (jwtSign : Z -> string -> string -> string -> string)
    (newObjectId : World -> string)
    (now : Z) (walletAddress signature : string) (w : World) :
  isAddress (toLowerCase walletAddress) = true ->
  isSignature signature = true ->
  verifySignature verifyMessage MESSAGE_TO_SIGN signature (toLowerCase walletAddress)
  = true ->
  findByWallet w walletAddress = None ->
  truthy (trim (generateNameFromAddress (toLowerCase walletAddress))) = true ->
  (String.length (trim (generateNameFromAddress (toLowerCase walletAddress)))
   <= 100)%nat ->
  exists w',
    verifyCredentials verifyMessage generateNameFromAddress jwtSign newObjectId
      now walletAddress signature w
    = (w', Ok {| a_walletAddress := toLowerCase walletAddress;
                 a_displayName :=
                   trim (generateNameFromAddress (toLowerCase walletAddress));
                 a_token :=
                   jwtSign now (toLowerCase walletAddress)
                     (trim (generateNameFromAddress (toLowerCase walletAddress)))
                     (newObjectId w) |})
    /\ splits w' = splits w
    /\ List.length (users w') = S (List.length (users w))
    /\ forall spelling,
         toLowerCase spelling = toLowerCase walletAddress ->
         findByWallet w' spelling
         = Some {| u_id := newObjectId w;
                   u_walletAddress := toLowerCase walletAddress;
                   u_displayName :=
                     trim (generateNameFromAddress (toLowerCase walletAddress));
                   u_totalSplitsCreated := 0;
                   u_totalSplitsJoined := 0;
                   u_totalAmountSplit := 0%float;
                   u_createdAt := now;
                   u_lastActiveAt := now;
                   u_updatedAt := now |}.
Proof.
  intros Ha Hs Hv Hnew Hname Hlen.
  rewrite (verifyCredentials_checked verifyMessage generateNameFromAddress jwtSign
             newObjectId now walletAddress signature w Ha Hs Hv).
  rewrite Hnew, (User_create_first now _ _ _ w Ha Hnew Hname Hlen).
  eexists. split; [reflexivity|]. split; [reflexivity|]. split.
  - cbn. rewrite length_map, length_app. simpl. lia.
  - intros spelling Hsp. unfold updateActivity.
    rewrite (saveUser_found now 0 _ _ spelling); [reflexivity|].
    unfold findByWallet. cbn [users withUsers]. rewrite Hsp.
    apply find_app_last.
    + unfold findByWallet in Hnew. now apply find_none_existsb.
    + cbn [u_walletAddress]. apply String.eqb_refl.
Qed.

(** Bob logs in for the first time. *)
Lemma verifyCredentials_first_login_witness :
  exists w',
  verifyCredentials Sample.recoversBob Sample.nameOf Sample.tokenOf Sample.idOf
    5 Sample.bob Sample.signature1 Sample.emptyWorld
  = (w', Ok {| a_walletAddress := toLowerCase Sample.bob;
               a_displayName :=
                 trim (Sample.nameOf (toLowerCase Sample.bob));
               a_token :=
                 Sample.tokenOf 5 (toLowerCase Sample.bob)
                   (trim (Sample.nameOf (toLowerCase Sample.bob)))
                   (Sample.idOf Sample.emptyWorld) |})
  /\ splits w' = splits Sample.emptyWorld
  /\ List.length (users w') = S (List.length (users Sample.emptyWorld))
  /\ forall spelling,
       toLowerCase spelling = toLowerCase Sample.bob ->
       findByWallet w' spelling
       = Some {| u_id := Sample.idOf Sample.emptyWorld;
                 u_walletAddress := toLowerCase Sample.bob;
                 u_displayName :=
                   trim (Sample.nameOf (toLowerCase Sample.bob));
                 u_totalSplitsCreated := 0;
                 u_totalSplitsJoined := 0;
                 u_totalAmountSplit := 0%float;
                 u_createdAt := 5;
                 u_lastActiveAt := 5;
                 u_updatedAt := 5 |}.
Proof.
  apply (verifyCredentials_first_login Sample.recoversBob Sample.nameOf Sample.tokenOf
           Sample.idOf 5 Sample.bob Sample.signature1 Sample.emptyWorld).
  - vm_compute. reflexivity.
  - vm_compute. reflexivity.
  - vm_compute. reflexivity.
  - reflexivity.
  - reflexivity.
  - apply Nat.leb_le. reflexivity.
Defined.

(** What a call of [verifyCredentials] that resolved has done: the user it
    answers for is the one stored under the address, found or just
    created, and the store it leaves is that store after [updateActivity]. *)
Lemma verifyCredentials_inv
    (verifyMessage : string -> string -> option string)
    (generateNameFromAddress : string -> string)
    (jwtSign : Z -> string -> string -> string -> string)
    (newObjectId : World -> string)
    (now : Z) (walletAddress signature : string) (w w' : World) (r : AuthResponse) :
  verifyCredentials verifyMessage generateNameFromAddress jwtSign newObjectId
    now walletAddress signature w = (w', Ok r) ->
  exists w1 user,
    findByWallet w1 walletAddress = Some user
    /\ w' = fst (updateActivity now user w1)
    /\ r = {| a_walletAddress := u_walletAddress user;
              a_displayName := u_displayName user;
              a_token := jwtSign now (u_walletAddress user)
                           (u_displayName user) (u_id user) |}.
Proof.
  intro Hrun.
  destruct (verifyCredentials_passed _ _ _ _ _ _ _ _ _ _ Hrun) as (Ha & Hs & Hv).
  rewrite (verifyCredentials_checked verifyMessage generateNameFromAddress jwtSign
             newObjectId now walletAddress signature w Ha Hs Hv) in Hrun.
  destruct (findByWallet w walletAddress) as [user|] eqn:Hfind.
  - injection Hrun as <- <-. exists w, user. auto.
  - destruct (User_create now _ _ _ w) as [w1 [user|e]] eqn:Hc; [|discriminate].
    injection Hrun as <- <-. exists w1, user. split; [|auto].
    unfold User_create in Hc. cbv zeta in Hc.
    destruct (invalidUserPath _); [discriminate|].
    rewrite (normalized_cast _ Ha) in Hc.
    cbn [u_walletAddress] in Hc.
    destruct (existsb _ (users w)) eqn:Hex; [discriminate|].
    injection Hc as <- <-. unfold findByWallet. cbn [users withUsers].
    apply find_app_last; [exact Hex|].
    cbn [u_walletAddress]. apply String.eqb_refl.
Qed.

(** X26.  Logging in again.  After [verifyCredentials] has resolved for a
    wallet, a later call for the same address, however it is spelled in
    upper and lower case, with a signature that verifies, resolves with the
    same address and the same name, and with a token signed at the time of
    the later call for the same address, name and [userId] as the first
    token; it adds no user and does not touch the splits.  The address it
    answers is the wallet's in lower case. *)
Theorem verifyCredentials_login_is_repeatable
    (verifyMessage : string -> string -> option string)
    (generateNameFromAddress : string -> string)
    (jwtSign : Z -> string -> string -> string -> string)
    (newObjectId : World -> string)
    (now now' : Z) (walletAddress signature walletAddress' signature' : string)
    (w w' : World) (r : AuthResponse) :
  verifyCredentials verifyMessage generateNameFromAddress jwtSign newObjectId
    now walletAddress signature w = (w', Ok r) ->
  toLowerCase walletAddress' = toLowerCase walletAddress ->
  isSignature signature' = true ->
  verifySignature verifyMessage MESSAGE_TO_SIGN signature'
    (toLowerCase walletAddress') = true ->
  a_walletAddress r = toLowerCase walletAddress
  /\ exists w'' userId,
       a_token r = jwtSign now (a_walletAddress r) (a_displayName r) userId
       /\ verifyCredentials verifyMessage generateNameFromAddress jwtSign newObjectId
            now' walletAddress' signature' w'
          = (w'', Ok {| a_walletAddress := a_walletAddress r;
                        a_displayName := a_displayName r;
                        a_token := jwtSign now' (a_walletAddress r)
                                     (a_displayName r) userId |})
       /\ List.length (users w'') = List.length (users w')
       /\ splits w'' = splits w'.
Proof.
  intros Hrun Hsame Hs' Hv'.
  destruct (verifyCredentials_passed _ _ _ _ _ _ _ _ _ _ Hrun) as (Ha & Hs & Hv).
  assert (Ha' : isAddress (toLowerCase walletAddress') = true) by now rewrite Hsame.
  rewrite (verifyCredentials_checked verifyMessage generateNameFromAddress jwtSign
             newObjectId now' walletAddress' signature' w' Ha' Hs' Hv').
  destruct (verifyCredentials_inv _ _ _ _ _ _ _ _ _ _ Hrun)
    as (w1 & user & Hfind & -> & ->).
  cbn [a_walletAddress a_displayName a_token]. split.
  { unfold findByWallet in Hfind. apply find_some in Hfind as [_ Heq].
    now apply String.eqb_eq in Heq. }
  assert (Hfind' : findByWallet (fst (updateActivity now user w1)) walletAddress'
                   = findByWallet (fst (updateActivity now user w1)) walletAddress)
    by (unfold findByWallet; now rewrite Hsame).
  rewrite Hfind'. unfold updateActivity at 1.
  rewrite (saveUser_found now _ user w1 walletAddress Hfind).
  eexists. exists (u_id user). split; [reflexivity|].
  split; [reflexivity|]. split; [|reflexivity].
  cbn. now rewrite !length_map.
Qed.

(** Bob logs in again, his address in upper case. *)
Lemma verifyCredentials_login_is_repeatable_witness :
  a_walletAddress Scenario.bobLogin = toLowerCase Sample.bob
  /\ exists w'' userId,
       a_token Scenario.bobLogin
       = Sample.tokenOf 5 (a_walletAddress Scenario.bobLogin)
           (a_displayName Scenario.bobLogin) userId
       /\ verifyCredentials Sample.recoversBob Sample.nameOf Sample.tokenOf Sample.idOf
            9 Scenario.bobUpper Sample.signature1 Scenario.bobStore
          = (w'', Ok {| a_walletAddress := a_walletAddress Scenario.bobLogin;
                        a_displayName := a_displayName Scenario.bobLogin;
                        a_token := Sample.tokenOf 9 (a_walletAddress Scenario.bobLogin)
                                     (a_displayName Scenario.bobLogin) userId |})
       /\ List.length (users w'') = List.length (users Scenario.bobStore)
       /\ splits w'' = splits Scenario.bobStore.
Proof.
  apply (verifyCredentials_login_is_repeatable Sample.recoversBob Sample.nameOf
           Sample.tokenOf Sample.idOf 5 9 Sample.bob Sample.signature1 Scenario.bobUpper
           Sample.signature1 Sample.emptyWorld Scenario.bobStore Scenario.bobLogin).
  - vm_compute. reflexivity.
  - vm_compute. reflexivity.
  - vm_compute. reflexivity.
  - vm_compute. reflexivity.
Defined.

(** With a signer that stamps its tokens, the token of the second login is
    not the token of the first. *)
Example verifyCredentials_tokens_carry_the_time :
  option_map a_token
    (match verifyCredentials Sample.recoversBob Sample.nameOf Scenario.stampedToken
             Sample.idOf 5 Sample.bob Sample.signature1 Sample.emptyWorld with
     | (_, Ok r) => Some r
     | (_, Err _) => None
     end) = Some "token.5"%string
  /\ option_map a_token
       (match verifyCredentials Sample.recoversBob Sample.nameOf Scenario.stampedToken
                Sample.idOf 9 Scenario.bobUpper Sample.signature1 Scenario.bobStore with
        | (_, Ok r) => Some r
        | (_, Err _) => None
        end) = Some "token.9"%string.
Proof. split; vm_compute; reflexivity. Qed.

(* ================================================================== *)
(** ** Properties: the authentication middleware *)

(** X27.  [verifyToken] lets a request pass exactly when it carries a
    [Bearer] header, the secret is configured, the token verifies and a
    user is stored under the wallet address of its payload; [req.user] is
    then read from the stored user, not from the token, and its address is
    the payload's in lower case.  In every other case it hands [next] an
    error with status 403, 401 or 500, and 500 only when the secret is not
    configured. *)
Theorem verifyToken_passes_stored_users_only
    (jwtVerify : string -> string -> string + UserJwtPayload)
    (secret : option string) (authorization : option string) (w : World) :
  (forall user,
      verifyToken jwtVerify secret authorization w = Next user <->
      exists authHeader token key payload stored,
        authorization = Some authHeader
        /\ bearerToken authHeader = Some token
        /\ secret = Some key
        /\ truthy key = true
        /\ jwtVerify token key = inr payload
        /\ findByWallet w (jp_walletAddress payload) = Some stored
        /\ user = {| ru_walletAddress := u_walletAddress stored;
                     ru_displayName := u_displayName stored;
                     ru_userId := u_id stored |}
        /\ u_walletAddress stored = toLowerCase (jp_walletAddress payload))
  /\ (forall error,
        verifyToken jwtVerify secret authorization w = NextError error ->
        (me_status error = 403 /\ me_errorCode error = UNAUTHORIZED)
        \/ (me_status error = 401 /\ me_errorCode error = UNAUTHORIZED)
        \/ (me_status error = 500 /\ me_errorCode error = INTERNAL_SERVER_ERROR
            /\ (secret = None \/ secret = Some EmptyString))).
Proof.
  split.
  - intro user. split.
    + unfold verifyToken.
      destruct authorization as [authHeader|]; [|discriminate].
      destruct (bearerToken authHeader) as [token|] eqn:Ht; [|discriminate].
      destruct secret as [[|c key]|]; [discriminate| |discriminate].
      destruct (jwtVerify token (String c key)) as [message|payload] eqn:Hj;
        [discriminate|].
      destruct (findByWallet w (jp_walletAddress payload)) as [stored|] eqn:Hf;
        [|discriminate].
      intros [= <-].
      exists authHeader, token, (String c key), payload, stored.
      repeat split; try assumption.
      unfold findByWallet in Hf. apply find_some in Hf as [_ Heq].
      now apply String.eqb_eq in Heq.
    + intros (authHeader & token & key & payload & stored
              & -> & Ht & -> & Hk & Hj & Hf & -> & _).
      unfold verifyToken. rewrite Ht.
      destruct key as [|c key]; [discriminate|]. now rewrite Hj, Hf.
  - intro error. unfold verifyToken.
    destruct authorization as [authHeader|];
      [|intros [= <-]; left; split; reflexivity].
    destruct (bearerToken authHeader) as [token|];
      [|intros [= <-]; left; split; reflexivity].
    destruct secret as [[|c key]|].
    + intros [= <-]. right; right. cbn. auto.
    + destruct (jwtVerify token (String c key)) as [message|payload];
        [intros [= <-]; left; split; reflexivity|].
      destruct (findByWallet w (jp_walletAddress payload)); [discriminate|].
      intros [= <-]. right; left. split; reflexivity.
    + intros [= <-]. right; right. cbn. auto.
Qed.

Lemma upToSpace_bearer (token : string) :
  upToSpace token = token -> bearerToken ("Bearer " ++ token)%string = Some token.
Proof. intro H. unfold bearerToken. cbn. now rewrite H. Qed.

(** X28.  From the login to the middleware.  After [verifyCredentials] has
    resolved, a request that carries the token it answered as its [Bearer]
    header passes [verifyToken] on the store the login left, provided the
    secret is configured and the token verifies to a payload with the
    wallet address of the answer.  [req.user] then has the address and the
    name of the answer, and the token is the one signed for exactly these
    and for the [userId] of [req.user]. *)
Theorem verifyToken_accepts_the_login_token
    (verifyMessage : string -> string -> option string)
    (generateNameFromAddress : string -> string)
    (jwtSign : Z -> string -> string -> string -> string)
    (newObjectId : World -> string)
    (jwtVerify : string -> string -> string + UserJwtPayload)
    (key : string) (payload : UserJwtPayload)
    (now : Z) (walletAddress signature : string) (w w' : World) (r : AuthResponse) :
  verifyCredentials verifyMessage generateNameFromAddress jwtSign newObjectId
    now walletAddress signature w = (w', Ok r) ->
  truthy key = true ->
  upToSpace (a_token r) = a_token r ->
  jwtVerify (a_token r) key = inr payload ->
  jp_walletAddress payload = a_walletAddress r ->
  exists user,
    verifyToken jwtVerify (Some key) (Some ("Bearer " ++ a_token r)%string) w' = Next user
    /\ ru_walletAddress user = a_walletAddress r
    /\ ru_displayName user = a_displayName r
    /\ a_token r
       = jwtSign now (ru_walletAddress user) (ru_displayName user) (ru_userId user).
Proof.
  intros Hrun Hkey Hsolid Hjwt Hpayload.
  destruct (verifyCredentials_inv _ _ _ _ _ _ _ _ _ _ Hrun)
    as (w1 & user & Hfind & -> & ->).
  cbn [a_walletAddress a_displayName a_token] in *.
  unfold verifyToken. rewrite (upToSpace_bearer _ Hsolid).
  destruct key as [|c key]; [discriminate|]. rewrite Hjwt, Hpayload.
  assert (Hwallet : u_walletAddress user = toLowerCase walletAddress).
  { unfold findByWallet in Hfind. apply find_some in Hfind as [_ Heq].
    now apply String.eqb_eq in Heq. }
  rewrite Hwallet, findByWallet_lowered. unfold updateActivity.
  rewrite (saveUser_found now _ user w1 walletAddress Hfind).
  eexists. split; [reflexivity|].
  cbn [ru_walletAddress ru_displayName ru_userId]. rewrite Hwallet. auto.
Qed.

(** Bob's request after his first login. *)
Lemma verifyToken_accepts_the_login_token_witness :
  exists user,
  verifyToken Scenario.verifiesBob (Some ("secret"%string)) (Some ("Bearer " ++ a_token
      Scenario.bobLogin)%string) Scenario.bobStore = Next user
  /\ ru_walletAddress user = a_walletAddress Scenario.bobLogin
  /\ ru_displayName user = a_displayName Scenario.bobLogin
  /\ a_token Scenario.bobLogin
     = Sample.tokenOf 5 (ru_walletAddress user) (ru_displayName user) (ru_userId user).
Proof.
  apply (verifyToken_accepts_the_login_token Sample.recoversBob Sample.nameOf
           Sample.tokenOf Sample.idOf Scenario.verifiesBob ("secret"%string)
           Scenario.bobPayload 5 Sample.bob Sample.signature1 Sample.emptyWorld
           Scenario.bobStore Scenario.bobLogin).
  - vm_compute. reflexivity.
  - reflexivity.
  - reflexivity.
  - reflexivity.
  - reflexivity.
Defined.

(* ================================================================== *)
(** ** Properties: the controller of the login *)

(** X29.  What [authHook] answers.  It answers "required" exactly when the
    signature or the wallet address is missing, and then leaves the store
    alone; it answers "verified" exactly when [verifyCredentials] resolves,
    with what that resolved to; and every error [verifyCredentials] throws,
    whichever it is, is answered with status 500 and
    [INTERNAL_SERVER_ERROR]. *)
Theorem authHook_answers
    (verifyMessage : string -> string -> option string)
    (generateNameFromAddress : string -> string)
    (jwtSign : Z -> string -> string -> string -> string)
    (newObjectId : World -> string)
    (now : Z) (walletAddress signature : string) (w : World) :
  (authHook verifyMessage generateNameFromAddress jwtSign newObjectId
     now walletAddress signature w = (w, Required)
   <-> truthy signature = false \/ truthy walletAddress = false)
  /\ (forall w' data,
        authHook verifyMessage generateNameFromAddress jwtSign newObjectId
          now walletAddress signature w = (w', Verified data)
        <-> verifyCredentials verifyMessage generateNameFromAddress jwtSign
              newObjectId now walletAddress signature w = (w', Ok data))
  /\ (forall w' response,
        authHook verifyMessage generateNameFromAddress jwtSign newObjectId
          now walletAddress signature w = (w', Refused response) ->
        er_status response = 500
        /\ er_errorCode response = INTERNAL_SERVER_ERROR
        /\ verifyCredentials verifyMessage generateNameFromAddress jwtSign
             newObjectId now walletAddress signature w
           = (w', Err (er_error response))).
Proof.
  unfold authHook.
  destruct (truthy signature) eqn:Hs, (truthy walletAddress) eqn:Hw; cbn [negb orb].
  2-4: split; [split; [auto | reflexivity]|];
       split; [intros w' data; split; [discriminate|]
              | intros w' response; discriminate];
       unfold verifyCredentials, bind, throwIf, throw;
       rewrite Hs, Hw; discriminate.
  destruct (verifyCredentials verifyMessage generateNameFromAddress jwtSign
              newObjectId now walletAddress signature w) as [w1 [data1|e]].
  - split; [split; [discriminate | intros [H|H]; discriminate]|].
    split.
    + intros w' data. split; intros [= <- <-]; reflexivity.
    + intros w' response. discriminate.
  - split; [split; [discriminate | intros [H|H]; discriminate]|].
    split.
    + intros w' data. split; discriminate.
    + intros w' response [= <- <-]. auto.
Qed.

(* ================================================================== *)
(** ** Properties: the totals of a new split *)

Lemma unpaid_all (l : list ParticipantInput) (f : ParticipantInput -> IParticipant) :
  (forall p, p_hasPaid (f p) = false) ->
  filter p_hasPaid (map f l) = []
  /\ filter (fun p => negb (p_hasPaid p)) (map f l) = map f l.
Proof.
  intro Hf. induction l as [|x rest [IH1 IH2]]; simpl; [auto|].
  rewrite Hf. simpl. now rewrite IH1, IH2.
Qed.

(** X30.  The derived fields of a split that [createSplit] stores, the
    candidate identifier of the store being free: nobody has paid, so
    [paidCount] and [totalPaid] are zero and every participant of the input
    counts as unpaid; [totalUnpaid] is the sum of the amounts of the input,
    which the amount check kept within 0.01 of the stored [totalAmount];
    and the split is not expired at its creation, on a server whose offset
    from UTC is never more than a day. *)
Theorem created_split_totals
    (deploySplitContract :
       string -> string -> list ParticipantInput -> number -> Deployment)
    (zone : TimeZone) (now : Z) (creatorAddress : string)
    (splitData : CreateSplitInput) (w w1 : World)
    (bc : BlockchainResult) (d : ISplit) :
  inputAccepted creatorAddress splitData = true ->
  findBySplitId w (nextSplitId w) = None ->
  deploySplitContract (toLowerCase creatorAddress) (in_description splitData)
    (in_participants splitData) (in_totalAmount splitData) = Mined bc ->
  findByTxHash w (bc_txHash bc) = None ->
  Split_create zone now
    (newSplitFields (finalSplitId bc (nextSplitId w)) (bc_splitAddress bc)
       (bc_txHash bc) (bc_blockNumber bc) (bc_isConfirmed bc)
       (toLowerCase creatorAddress) splitData)
    w = (w1, Ok d) ->
  exists w2 response,
    createSplit deploySplitContract zone now creatorAddress splitData w
    = (w2, Ok response)
    /\ getSplitById w2 (r_splitId response) = Some d
    /\ paidCount d = 0%nat
    /\ unpaidCount d = List.length (in_participants splitData)
    /\ totalPaid d = 0%float
    /\ totalUnpaid d = calculatedTotal splitData
    /\ differs (totalUnpaid d) (s_totalAmount d) = false
    /\ ((forall t isUTC, Z.abs (zone t isUTC) <= msPerDay) ->
        isExpired now d = false).
Proof.
  intros Hacc Hcandidate Hd Hfree Hc.
  destruct (createSplit_stored_run deploySplitContract zone now creatorAddress splitData
              w w1 bc d Hacc Hcandidate Hd Hfree Hc) as [Hrun Hsplits].
  pose proof (Split_create_success _ _ _ _ _ _ Hc) as (Hcast & _ & _ & Hid & _).
  eexists; eexists. split; [exact Hrun|]. cbn [r_splitId].
  split.
  { unfold getSplitById, findBySplitId. rewrite Hsplits.
    apply find_app_last; [exact Hid | apply Z.eqb_refl]. }
  assert (Hparts : s_participants d
                   = map (fun p =>
                            {| p_walletAddress :=
                                 toLowerCase (trim (toLowerCase (pi_walletAddress p)));
                               p_name := option_map trim (pi_name p);
                               p_amountDue := pi_amountDue p;
                               p_hasPaid := false;
                               p_paidAt := None;
                               p_paymentTxHash := None;
                               p_reminderCount := 0;
                               p_lastRemindedAt := None |})
                         (in_participants splitData)).
  { rewrite Hcast, newSplit_participants. cbn [newSplitFields s_participants].
    now rewrite map_map. }
  destruct (unpaid_all (in_participants splitData)
              (fun p =>
                 {| p_walletAddress :=
                      toLowerCase (trim (toLowerCase (pi_walletAddress p)));
                    p_name := option_map trim (pi_name p);
                    p_amountDue := pi_amountDue p;
                    p_hasPaid := false;
                    p_paidAt := None;
                    p_paymentTxHash := None;
                    p_reminderCount := 0;
                    p_lastRemindedAt := None |})
              (fun _ => eq_refl)) as [Hpaid Hunpaid].
  assert (Htotal : totalUnpaid d = calculatedTotal splitData).
  { unfold totalUnpaid, calculatedTotal. rewrite Hparts, Hunpaid, map_map.
    reflexivity. }
  unfold paidCount, unpaidCount, totalPaid.
  rewrite Hparts, Hpaid, Hunpaid, length_map.
  split; [reflexivity|]. split; [reflexivity|]. split; [reflexivity|].
  split; [exact Htotal|]. split.
  - rewrite Htotal, Hcast. cbn [castSplit newSplitFields s_totalAmount].
    unfold inputAccepted in Hacc.
    apply andb_true_iff in Hacc as [Hacc _]. apply andb_true_iff in Hacc as [_ Hacc].
    now apply negb_true_iff in Hacc.
  - intro Hzone. rewrite Hcast. unfold isExpired.
    cbn [castSplit newSplitFields s_expiresAt].
    unfold thirtyDaysOn, TimeClip, UTC, LocalTime.
    destruct (Z.abs _ <=? 8640000000000000); [|reflexivity].
    apply Z.ltb_ge.
    pose proof (Hzone now true) as H1.
    pose proof (Hzone (now + zone now true + 30 * msPerDay) false) as H2.
    unfold msPerDay in *. lia.
Qed.

(** Alice's dinner split, created at the time 1000 on a server that keeps
    UTC. *)
Lemma created_split_totals_witness :
  exists w2 response,
  createSplit (Sample.deployed Sample.chain7) Sample.utc 1000 Sample.alice
    Sample.dinner Sample.emptyWorld
  = (w2, Ok response)
  /\ getSplitById w2 (r_splitId response) = Some Scenario.dinnerSplit
  /\ paidCount Scenario.dinnerSplit = 0%nat
  /\ unpaidCount Scenario.dinnerSplit = List.length (in_participants Sample.dinner)
  /\ totalPaid Scenario.dinnerSplit = 0%float
  /\ totalUnpaid Scenario.dinnerSplit = calculatedTotal Sample.dinner
  /\ differs (totalUnpaid Scenario.dinnerSplit) (s_totalAmount Scenario.dinnerSplit) = false
  /\ ((forall t isUTC, Z.abs (Sample.utc t isUTC) <= msPerDay) ->
      isExpired 1000 Scenario.dinnerSplit = false).
Proof.
  apply (created_split_totals (Sample.deployed Sample.chain7) Sample.utc 1000
           Sample.alice Sample.dinner Sample.emptyWorld Scenario.dinnerStore
           Sample.chain7 Scenario.dinnerSplit).
  - vm_compute. reflexivity.
  - reflexivity.
  - reflexivity.
  - reflexivity.
  - vm_compute. reflexivity.
Defined.
